(** * Pricing and calibration engine of crypto-options-pricing

    A shallow embedding of [scripts/black_scholes.py] and
    [scripts/heston_model.py] over the real numbers.  Python floats are
    idealised as reals; [None] is [None]; a raised exception is an explicit
    outcome.  Library calls keep their names: [np_log], [np_exp], [np_sqrt],
    [norm_cdf], [quad], [quantile].

    Two functions are given a second time, closer to the machine:
    [black_scholes] on floats with infinities and NaN ([PyFloat]), and the
    Heston functions with the divisions by zero that raise
    ([heston_cf_py], [integrand_py], [heston_price_py]), next to the values
    they have when nothing raises ([heston_cf], [integrand],
    [heston_price]). *)

From Stdlib Require Import Reals Lra Lia Psatz List String Ascii Bool Arith ZArith.
From Stdlib Require Import FunctionalExtensionality Sorting Permutation.
Import ListNotations.
Open Scope R_scope.

(** ** The standard normal distribution function

    [scipy.stats.norm.cdf] is the standard normal CDF.  Over the reals it is
    given by its Maclaurin expansion
    [Phi x = 1/2 + (1/sqrt(2 PI)) * sum_n (-1)^n x^(2n+1) / (2^n n! (2n+1))],
    i.e. [1/2 + (1/sqrt(2 PI)) * x * sum_n (-1)^n z^n / (n! (2n+1))] at
    [z = x^2/2]; the series converges for every [x]. *)

Module NormalCdf.

Definition gauss_coeff (n : nat) : R :=
  (-1) ^ n / (INR (fact n) * INR (2 * n + 1)).

Lemma gauss_coeff_neq0 : forall n, gauss_coeff n <> 0.
Proof.
  intro n. unfold gauss_coeff.
  assert (Hf : INR (fact n) <> 0) by apply INR_fact_neq_0.
  assert (Hd : INR (2 * n + 1) <> 0) by (apply not_0_INR; lia).
  assert (Hp : (-1) ^ n <> 0) by (apply pow_nonzero; lra).
  unfold Rdiv. apply Rmult_integral_contrapositive_currified; auto.
  apply Rinv_neq_0_compat. apply Rmult_integral_contrapositive_currified; auto.
Qed.

Lemma gauss_coeff_ratio_le :
  forall n, Rabs (gauss_coeff (S n) / gauss_coeff n) <= / INR (S n).
Proof.
  intro n. unfold gauss_coeff.
  assert (Hf : 0 < INR (fact n)) by apply INR_fact_lt_0.
  assert (Hn : 0 < INR (S n)) by (apply lt_0_INR; lia).
  assert (Hp : (-1) ^ n <> 0) by (apply pow_nonzero; lra).
  rewrite fact_simpl, mult_INR.
  replace (INR (2 * S n + 1)) with (INR (2 * n + 1) + 2)
    by (replace (2 * S n + 1)%nat with (S (S (2 * n + 1))) by lia;
        rewrite !S_INR; lra).
  set (d := INR (2 * n + 1)).
  assert (Hd : 1 <= d).
  { unfold d. replace 1 with (INR 1) by reflexivity. apply le_INR. lia. }
  replace ((-1) ^ S n / (INR (S n) * INR (fact n) * (d + 2)) /
           ((-1) ^ n / (INR (fact n) * d)))
    with (- (d / (d + 2)) * / INR (S n)).
  2:{ simpl pow. field. repeat split; lra. }
  rewrite Rabs_mult, Rabs_Ropp.
  rewrite (Rabs_pos_eq (/ INR (S n))).
  2:{ left. now apply Rinv_0_lt_compat. }
  assert (Hq : 0 <= d / (d + 2) <= 1).
  { split.
    - apply Rmult_le_pos; [lra | left; apply Rinv_0_lt_compat; lra].
    - apply Rmult_le_reg_r with (d + 2); [lra |].
      unfold Rdiv. rewrite Rmult_assoc, Rinv_l; lra. }
  rewrite Rabs_pos_eq by tauto.
  assert (Hi : 0 < / INR (S n)) by now apply Rinv_0_lt_compat.
  nra.
Qed.

Lemma gauss_coeff_ratio :
  Un_cv (fun n => Rabs (gauss_coeff (S n) / gauss_coeff n)) 0.
Proof.
  intros eps Heps.
  destruct (archimed_cor1 eps Heps) as [N [HN HN0]].
  exists N. intros n Hn. unfold Rdist. rewrite Rminus_0_r, Rabs_Rabsolu.
  apply Rle_lt_trans with (/ INR (S n)); [apply gauss_coeff_ratio_le |].
  apply Rle_lt_trans with (/ INR N); [| exact HN].
  apply Rinv_le_contravar; [apply lt_0_INR; lia | apply le_INR; lia].
Qed.

(** [gauss_series z = sum_n (-1)^n z^n / (n! (2n+1))]. *)
Definition gauss_series (z : R) : R :=
  proj1_sig (Alembert_C3 gauss_coeff z gauss_coeff_neq0 gauss_coeff_ratio).

(** [gauss_primitive x] is the integral of [exp (- t^2 / 2)] from [0] to [x]. *)
Definition gauss_primitive (x : R) : R := x * gauss_series (x * x / 2).

Definition Phi (x : R) : R := 1 / 2 + gauss_primitive x / sqrt (2 * PI).

(** *** Symmetry *)

Lemma gauss_primitive_odd : forall x, gauss_primitive (- x) = - gauss_primitive x.
Proof.
  intro x. unfold gauss_primitive.
  replace (- x * - x / 2) with (x * x / 2) by field. ring.
Qed.

Lemma sqrt_2PI_pos : 0 < sqrt (2 * PI).
Proof. apply sqrt_lt_R0. generalize PI_RGT_0. lra. Qed.

Lemma Phi_opp : forall x, Phi (- x) = 1 - Phi x.
Proof.
  intro x. unfold Phi. rewrite gauss_primitive_odd.
  generalize sqrt_2PI_pos; intro Hs. field. lra.
Qed.

(** *** Enclosures of the series by its partial sums

    The terms [z^n / (n! (2n+1))] decrease once [n + 1 >= z], so from an even
    index on the partial sums alternate around the limit. *)

Definition gauss_term (z : R) (n : nat) : R :=
  z ^ n / (INR (fact n) * INR (2 * n + 1)).

Lemma gauss_coeff_term :
  forall z n, gauss_coeff n * z ^ n = tg_alt (gauss_term z) n.
Proof.
  intros z n. unfold gauss_coeff, tg_alt, gauss_term. field.
  split; [apply not_0_INR; lia | apply INR_fact_neq_0].
Qed.

Lemma gauss_series_cv :
  forall z, Un_cv (sum_f_R0 (tg_alt (gauss_term z))) (gauss_series z).
Proof.
  intro z. unfold gauss_series.
  destruct (Alembert_C3 gauss_coeff z gauss_coeff_neq0 gauss_coeff_ratio)
    as [l Hl]; simpl.
  intros eps Heps. destruct (Hl eps Heps) as [N HN]. exists N. intros n Hn.
  rewrite <- (sum_eq (fun i => gauss_coeff i * z ^ i)).
  - now apply HN.
  - intros; apply gauss_coeff_term.
Qed.

Lemma gauss_term_pos : forall z n, 0 <= z -> 0 <= gauss_term z n.
Proof.
  intros z n Hz. unfold gauss_term.
  apply Rmult_le_pos; [now apply pow_le |].
  left. apply Rinv_0_lt_compat. apply Rmult_lt_0_compat.
  - apply INR_fact_lt_0.
  - apply lt_0_INR; lia.
Qed.

Lemma gauss_term_step :
  forall z n, 0 <= z <= INR (S n) -> gauss_term z (S n) <= gauss_term z n.
Proof.
  intros z n [Hz0 Hz]. unfold gauss_term.
  assert (Hf : 0 < INR (fact n)) by apply INR_fact_lt_0.
  assert (Hn : 0 < INR (S n)) by (apply lt_0_INR; lia).
  rewrite fact_simpl, mult_INR.
  replace (INR (2 * S n + 1)) with (INR (2 * n + 1) + 2)
    by (replace (2 * S n + 1)%nat with (S (S (2 * n + 1))) by lia;
        rewrite !S_INR; lra).
  set (d := INR (2 * n + 1)).
  assert (Hd : 1 <= d).
  { unfold d. replace 1 with (INR 1) by reflexivity. apply le_INR. lia. }
  set (a := z ^ n / (INR (fact n) * d)).
  assert (Ha : 0 <= a).
  { unfold a. apply Rmult_le_pos; [now apply pow_le |].
    left. apply Rinv_0_lt_compat. apply Rmult_lt_0_compat; lra. }
  replace (z ^ S n / (INR (S n) * INR (fact n) * (d + 2)))
    with (a * ((z / INR (S n)) * (d / (d + 2)))).
  2:{ unfold a. simpl pow. field. repeat split; lra. }
  assert (H1 : 0 <= z / INR (S n) <= 1).
  { split.
    - apply Rmult_le_pos; [lra | left; now apply Rinv_0_lt_compat].
    - apply Rmult_le_reg_r with (INR (S n)); [lra |].
      unfold Rdiv. rewrite Rmult_assoc, Rinv_l; lra. }
  assert (H2 : 0 <= d / (d + 2) <= 1).
  { split.
    - apply Rmult_le_pos; [lra | left; apply Rinv_0_lt_compat; lra].
    - apply Rmult_le_reg_r with (d + 2); [lra |].
      unfold Rdiv. rewrite Rmult_assoc, Rinv_l; lra. }
  set (b := z / INR (S n)) in *. set (c := d / (d + 2)) in *.
  clearbody a b c.
  assert (H3 : 0 <= b * c <= 1) by nra.
  nra.
Qed.

Lemma gauss_term_cv_0 : forall z, 0 <= z -> Un_cv (gauss_term z) 0.
Proof.
  intros z Hz eps Heps.
  destruct (cv_speed_pow_fact z eps Heps) as [N HN].
  exists N. intros n Hn. specialize (HN n Hn).
  unfold Rdist in *. rewrite Rminus_0_r in *.
  apply Rle_lt_trans with (Rabs (z ^ n / INR (fact n))); [| exact HN].
  assert (Hf : 0 < INR (fact n)) by apply INR_fact_lt_0.
  assert (Hd : 1 <= INR (2 * n + 1)).
  { replace 1 with (INR 1) by reflexivity. apply le_INR. lia. }
  assert (Hp : 0 <= z ^ n) by now apply pow_le.
  rewrite (Rabs_pos_eq (gauss_term z n)) by now apply gauss_term_pos.
  rewrite Rabs_pos_eq.
  2:{ apply Rmult_le_pos; [exact Hp | left; now apply Rinv_0_lt_compat]. }
  unfold gauss_term, Rdiv. apply Rmult_le_compat_l; [exact Hp |].
  apply Rinv_le_contravar; [exact Hf |]. nra.
Qed.

Section Enclosure.

Variable z : R.
Variable m : nat.
Hypothesis z_nonneg : 0 <= z.
Hypothesis z_small : z <= INR (2 * S m + 1).

(** The tail of the term sequence from index [2 (m+1)] on. *)
Let tail (n : nat) : R := gauss_term z (2 * S m + n).

Lemma tail_decreasing : Un_decreasing tail.
Proof.
  intro n. unfold tail.
  replace (2 * S m + S n)%nat with (S (2 * S m + n)) by lia.
  apply gauss_term_step. split; [exact z_nonneg |].
  apply Rle_trans with (1 := z_small). apply le_INR. lia.
Qed.

Lemma tail_cv_0 : Un_cv tail 0.
Proof.
  intros eps Heps.
  destruct (gauss_term_cv_0 z z_nonneg eps Heps) as [N HN].
  exists N. intros n Hn. unfold tail. apply HN. lia.
Qed.

Lemma tail_partial_sum :
  forall n,
    sum_f_R0 (tg_alt (gauss_term z)) (2 * S m + n) =
    sum_f_R0 (tg_alt (gauss_term z)) (2 * m + 1) + sum_f_R0 (tg_alt tail) n.
Proof.
  intro n.
  rewrite (tech2 (tg_alt (gauss_term z)) (2 * m + 1) (2 * S m + n)) by lia.
  replace (2 * S m + n - S (2 * m + 1))%nat with n by lia.
  f_equal. apply sum_eq. intros i _. unfold tg_alt, tail.
  replace (S (2 * m + 1) + i)%nat with (2 * S m + i)%nat by lia.
  f_equal. rewrite pow_add, pow_1_even. ring.
Qed.

Lemma tail_series_cv :
  Un_cv (fun N => sum_f_R0 (tg_alt tail) N)
        (gauss_series z - sum_f_R0 (tg_alt (gauss_term z)) (2 * m + 1)).
Proof.
  intros eps Heps.
  destruct (gauss_series_cv z eps Heps) as [N HN].
  exists N. intros n Hn.
  assert (H := HN (2 * S m + n)%nat ltac:(lia)).
  rewrite tail_partial_sum in H. unfold Rdist in *.
  replace (sum_f_R0 (tg_alt tail) n -
           (gauss_series z - sum_f_R0 (tg_alt (gauss_term z)) (2 * m + 1)))
    with (sum_f_R0 (tg_alt (gauss_term z)) (2 * m + 1) +
          sum_f_R0 (tg_alt tail) n - gauss_series z) by ring.
  exact H.
Qed.

Lemma gauss_series_enclosure :
  forall N,
    sum_f_R0 (tg_alt (gauss_term z)) (2 * S m + S (2 * N)) <= gauss_series z
    <= sum_f_R0 (tg_alt (gauss_term z)) (2 * S m + 2 * N).
Proof.
  intro N.
  destruct (alternated_series_ineq tail _ N
              tail_decreasing tail_cv_0 tail_series_cv) as [Hlo Hhi].
  rewrite !tail_partial_sum. lra.
Qed.

End Enclosure.

(** *** Evaluating partial sums

    [gauss_partial z n] carries the pair of the [n]-th signed term
    [(-z)^n / n!] and the [n]-th partial sum, so that a partial sum at a
    rational point unfolds to a rational expression. *)

Fixpoint gauss_partial (z : R) (n : nat) : R * R :=
  match n with
  | O => (1, 1)
  | S k =>
      let '(t, s) := gauss_partial z k in
      let t' := t * (- z) / IZR (Z.of_nat (S k)) in
      (t', s + t' / IZR (Z.of_nat (2 * S k + 1)))
  end.

Lemma gauss_partial_spec :
  forall z n,
    gauss_partial z n =
    ((- z) ^ n / INR (fact n), sum_f_R0 (tg_alt (gauss_term z)) n).
Proof.
  intros z n. induction n as [| k IH].
  - simpl. unfold tg_alt, gauss_term. simpl. f_equal; field.
  - cbn [gauss_partial]. rewrite IH. cbn [sum_f_R0].
    rewrite <- !INR_IZR_INZ.
    assert (Hf : INR (fact k) <> 0) by apply INR_fact_neq_0.
    assert (Hk : INR (S k) <> 0) by (apply not_0_INR; lia).
    assert (Hd : INR (2 * S k + 1) <> 0) by (apply not_0_INR; lia).
    f_equal.
    + rewrite fact_simpl, mult_INR. simpl pow. field. tauto.
    + f_equal. unfold tg_alt, gauss_term.
      rewrite fact_simpl, mult_INR.
      replace (- z) with (-1 * z) by ring. rewrite Rpow_mult_distr.
      simpl pow. field. tauto.
Qed.

Lemma gauss_series_bounds :
  forall z m N,
    0 <= z <= INR (2 * S m + 1) ->
    snd (gauss_partial z (2 * S m + S (2 * N))) <= gauss_series z
    <= snd (gauss_partial z (2 * S m + 2 * N)).
Proof.
  intros z m N [Hz0 Hz]. rewrite !gauss_partial_spec. cbn [snd].
  now apply gauss_series_enclosure.
Qed.

Ltac eval_gauss_partial H :=
  cbv [gauss_partial snd fst Nat.mul Nat.add
       Z.of_nat Pos.of_succ_nat Pos.succ] in H.

(** *** Numerical enclosures used at the worked inputs *)

Lemma quotient_below : forall a b c, 0 < c -> a < b * c -> a / c < b.
Proof.
  intros a b c Hc H. apply Rmult_lt_reg_r with c; [exact Hc |].
  unfold Rdiv. rewrite Rmult_assoc, Rinv_l, Rmult_1_r; lra.
Qed.

Lemma quotient_above : forall a b c, 0 < c -> b * c < a -> b < a / c.
Proof.
  intros a b c Hc H. apply Rmult_lt_reg_r with c; [exact Hc |].
  unfold Rdiv. rewrite Rmult_assoc, Rinv_l, Rmult_1_r; lra.
Qed.

Lemma PI_enclosure : 3.14159 < PI < 3.1416.
Proof.
  destruct (PI_2_3_7_ineq 3) as [Hlo Hhi].
  unfold PI_2_3_7_tg, Ratan_seq, tg_alt in Hlo, Hhi.
  cbv [sum_f_R0 Nat.mul Nat.add] in Hlo, Hhi.
  repeat rewrite INR_IZR_INZ in Hlo.
  repeat rewrite INR_IZR_INZ in Hhi.
  cbv [Z.of_nat Pos.of_succ_nat Pos.succ] in Hlo, Hhi.
  split; lra.
Qed.

Lemma sqrt_2PI_enclosure : 2.5066 < sqrt (2 * PI) < 2.5067.
Proof.
  destruct PI_enclosure as [Hlo Hhi]. split.
  - rewrite <- (sqrt_square 2.5066) by lra. apply sqrt_lt_1_alt. lra.
  - rewrite <- (sqrt_square 2.5067) by lra. apply sqrt_lt_1_alt. lra.
Qed.

Lemma gauss_primitive_12_5 : 1.2327 < gauss_primitive (12 / 5) < 1.2328.
Proof.
  unfold gauss_primitive.
  replace (12 / 5 * (12 / 5) / 2) with (72 / 25) by field.
  assert (Hz : 0 <= 72 / 25 <= INR (2 * 2 + 1)) by (simpl; lra).
  destruct (gauss_series_bounds (72 / 25) 1 4 Hz) as [Hlo _].
  destruct (gauss_series_bounds (72 / 25) 1 5 Hz) as [_ Hhi].
  eval_gauss_partial Hlo. eval_gauss_partial Hhi.
  split; lra.
Qed.

Lemma gauss_primitive_14_5 : 1.2468 < gauss_primitive (14 / 5).
Proof.
  unfold gauss_primitive.
  replace (14 / 5 * (14 / 5) / 2) with (98 / 25) by field.
  assert (Hz : 0 <= 98 / 25 <= INR (2 * 2 + 1)) by (simpl; lra).
  destruct (gauss_series_bounds (98 / 25) 1 5 Hz) as [Hlo _].
  eval_gauss_partial Hlo.
  lra.
Qed.

Lemma Phi_at_minus_12_5 : 0.0081 < Phi (- (12 / 5)) < 0.0083.
Proof.
  rewrite Phi_opp. unfold Phi.
  destruct gauss_primitive_12_5 as [Hlo Hhi].
  destruct sqrt_2PI_enclosure as [Hc1 Hc2].
  set (g := gauss_primitive (12 / 5)) in *. set (c := sqrt (2 * PI)) in *.
  assert (Hq : 0.4917 < g / c < 0.4919).
  { split.
    - apply quotient_above; [lra | nra].
    - apply quotient_below; [lra | nra]. }
  lra.
Qed.

Lemma Phi_at_minus_14_5 : Phi (- (14 / 5)) < 0.0027.
Proof.
  rewrite Phi_opp. unfold Phi.
  generalize gauss_primitive_14_5; intro Hlo.
  destruct sqrt_2PI_enclosure as [Hc1 Hc2].
  set (g := gauss_primitive (14 / 5)) in *. set (c := sqrt (2 * PI)) in *.
  assert (Hq : 0.4973 < g / c).
  { apply quotient_above; [lra | nra]. }
  lra.
Qed.

(** A check of the definition against the tabulated value
    [Phi 1 = 0.84134...]. *)
Lemma Phi_at_1 : 0.8413 < Phi 1 < 0.8414.
Proof.
  unfold Phi, gauss_primitive.
  replace (1 * 1 / 2) with (1 / 2) by field.
  assert (Hz : 0 <= 1 / 2 <= INR (2 * 2 + 1)) by (simpl; lra).
  destruct (gauss_series_bounds (1 / 2) 1 1 Hz) as [Hlo Hhi].
  eval_gauss_partial Hlo. eval_gauss_partial Hhi.
  destruct sqrt_2PI_enclosure as [Hc1 Hc2].
  set (g := gauss_series (1 / 2)) in *. set (c := sqrt (2 * PI)) in *.
  assert (Hq : 0.3413 < 1 * g / c < 0.3414).
  { split.
    - apply quotient_above; [lra | nra].
    - apply quotient_below; [lra | nra]. }
  lra.
Qed.

Lemma exp_pow_nat : forall x n, exp (INR n * x) = exp x ^ n.
Proof.
  intros x n. induction n as [| k IH].
  - simpl. rewrite Rmult_0_l. apply exp_0.
  - rewrite S_INR, Rmult_plus_distr_r, Rmult_1_l, exp_plus, IH.
    simpl. ring.
Qed.

Lemma exp_minus_26_25_lower : 0.34 < exp (- (26 / 25)).
Proof.
  replace (- (26 / 25)) with (INR 16 * (- (13 / 200))) by (simpl; field).
  rewrite exp_pow_nat.
  assert (H : 187 / 200 <= exp (- (13 / 200))).
  { generalize (exp_ineq1_le (- (13 / 200))). lra. }
  apply Rlt_le_trans with ((187 / 200) ^ 16); [lra |].
  apply pow_incr. lra.
Qed.

End NormalCdf.

(** ** Monotonicity of the distribution function

    [gauss_primitive] is the limit of polynomials whose derivatives converge
    uniformly on bounded sets to [exp (- x^2 / 2)]; the distribution function
    is therefore differentiable with a positive derivative. *)

Module NormalCdfCalculus.

Import NormalCdf.

Section AlternatingTail.

Variable U : nat -> R.
Variable m : nat.
Variable l : R.
Hypothesis U_decreasing : forall n, (2 * S m <= n)%nat -> U (S n) <= U n.
Hypothesis U_cv_0 : Un_cv U 0.
Hypothesis sum_cv : Un_cv (sum_f_R0 (tg_alt U)) l.

Let shifted (n : nat) : R := U (2 * S m + n).

Lemma shifted_partial_sum :
  forall n,
    sum_f_R0 (tg_alt U) (2 * S m + n) =
    sum_f_R0 (tg_alt U) (2 * m + 1) + sum_f_R0 (tg_alt shifted) n.
Proof.
  intro n.
  rewrite (tech2 (tg_alt U) (2 * m + 1) (2 * S m + n)) by lia.
  replace (2 * S m + n - S (2 * m + 1))%nat with n by lia.
  f_equal. apply sum_eq. intros i _. unfold tg_alt, shifted.
  replace (S (2 * m + 1) + i)%nat with (2 * S m + i)%nat by lia.
  f_equal. rewrite pow_add, pow_1_even. ring.
Qed.

Lemma alternating_tail_enclosure :
  forall N,
    sum_f_R0 (tg_alt U) (2 * S m + S (2 * N)) <= l
    <= sum_f_R0 (tg_alt U) (2 * S m + 2 * N).
Proof.
  intro N.
  assert (Hdec : Un_decreasing shifted).
  { intro n. unfold shifted.
    replace (2 * S m + S n)%nat with (S (2 * S m + n)) by lia.
    apply U_decreasing. lia. }
  assert (Hcv0 : Un_cv shifted 0).
  { intros eps Heps. destruct (U_cv_0 eps Heps) as [N0 HN0].
    exists N0. intros n Hn. unfold shifted. apply HN0. lia. }
  assert (Hsum : Un_cv (fun k => sum_f_R0 (tg_alt shifted) k)
                       (l - sum_f_R0 (tg_alt U) (2 * m + 1))).
  { intros eps Heps. destruct (sum_cv eps Heps) as [N0 HN0].
    exists N0. intros n Hn.
    assert (H := HN0 (2 * S m + n)%nat ltac:(lia)).
    rewrite shifted_partial_sum in H. unfold Rdist in *.
    replace (sum_f_R0 (tg_alt shifted) n
             - (l - sum_f_R0 (tg_alt U) (2 * m + 1)))
      with (sum_f_R0 (tg_alt U) (2 * m + 1)
            + sum_f_R0 (tg_alt shifted) n - l) by ring.
    exact H. }
  destruct (alternated_series_ineq shifted _ N Hdec Hcv0 Hsum) as [Hlo Hhi].
  rewrite !shifted_partial_sum. lra.
Qed.

Lemma alternating_remainder :
  forall n,
    (2 * S m <= n)%nat ->
    Rabs (l - sum_f_R0 (tg_alt U) n) <= U (S n).
Proof.
  intros n Hn.
  destruct (Nat.Even_or_Odd (n - 2 * S m)) as [[N HN] | [N HN]].
  - assert (En : n = (2 * S m + 2 * N)%nat) by lia.
    destruct (alternating_tail_enclosure N) as [Hlo Hhi].
    replace (2 * S m + S (2 * N))%nat with (S n) in Hlo by lia.
    rewrite <- En in Hhi. cbn [sum_f_R0] in Hlo.
    assert (Hs : tg_alt U (S n) = - U (S n)).
    { unfold tg_alt. replace (S n) with (S (2 * (S m + N))) by lia.
      rewrite pow_1_odd. ring. }
    rewrite Hs in Hlo. rewrite Rabs_left1; lra.
  - assert (En : n = (2 * S m + S (2 * N))%nat) by lia.
    destruct (alternating_tail_enclosure N) as [Hlo _].
    destruct (alternating_tail_enclosure (S N)) as [_ Hhi].
    rewrite <- En in Hlo.
    replace (2 * S m + 2 * S N)%nat with (S n) in Hhi by lia.
    cbn [sum_f_R0] in Hhi.
    assert (Hs : tg_alt U (S n) = U (S n)).
    { unfold tg_alt. replace (S n) with (2 * (S m + S N))%nat by lia.
      rewrite pow_1_even. ring. }
    rewrite Hs in Hhi. rewrite Rabs_right; lra.
Qed.

End AlternatingTail.

(** The exponential series at a non-positive argument. *)
Definition exp_term (z : R) (k : nat) : R := z ^ k / INR (fact k).

Lemma exp_series_cv :
  forall u, Un_cv (sum_f_R0 (tg_alt (exp_term u))) (exp (- u)).
Proof.
  intro u. unfold exp. destruct (exist_exp (- u)) as [l Hl]; simpl.
  intros eps Heps. destruct (Hl eps Heps) as [N HN]. exists N. intros n Hn.
  rewrite <- (sum_eq (fun i => / INR (fact i) * (- u) ^ i)).
  - now apply HN.
  - intros i _. unfold tg_alt, exp_term.
    replace (- u) with (-1 * u) by ring. rewrite Rpow_mult_distr.
    field. apply INR_fact_neq_0.
Qed.

Lemma exp_term_step :
  forall z n, 0 <= z <= INR (S n) -> exp_term z (S n) <= exp_term z n.
Proof.
  intros z n [Hz0 Hz]. unfold exp_term.
  assert (Hf : 0 < INR (fact n)) by apply INR_fact_lt_0.
  assert (Hn : 0 < INR (S n)) by (apply lt_0_INR; lia).
  rewrite fact_simpl, mult_INR.
  set (a := z ^ n / INR (fact n)).
  assert (Ha : 0 <= a).
  { unfold a. apply Rmult_le_pos; [now apply pow_le |].
    left. now apply Rinv_0_lt_compat. }
  replace (z ^ S n / (INR (S n) * INR (fact n))) with (a * (z / INR (S n))).
  2:{ unfold a. simpl pow. field. split; lra. }
  assert (H1 : 0 <= z / INR (S n) <= 1).
  { split.
    - apply Rmult_le_pos; [lra | left; now apply Rinv_0_lt_compat].
    - apply Rmult_le_reg_r with (INR (S n)); [lra |].
      unfold Rdiv. rewrite Rmult_assoc, Rinv_l; lra. }
  set (b := z / INR (S n)) in *. clearbody a b. nra.
Qed.

Lemma exp_term_mono :
  forall z M k, 0 <= z <= M -> exp_term z k <= exp_term M k.
Proof.
  intros z M k [Hz0 Hz]. unfold exp_term.
  apply Rmult_le_compat_r.
  - left. apply Rinv_0_lt_compat. apply INR_fact_lt_0.
  - apply pow_incr. lra.
Qed.

(** Remainder of the exponential series, uniformly on [[0, M]]. *)
Lemma exp_series_remainder :
  forall M m u n,
    0 <= u <= M -> M <= INR (2 * S m + 1) -> (2 * S m <= n)%nat ->
    Rabs (exp (- u) - sum_f_R0 (tg_alt (exp_term u)) n) <= exp_term M (S n).
Proof.
  intros M m u n [Hu0 HuM] HM Hn.
  apply Rle_trans with (exp_term u (S n)).
  - apply (alternating_remainder (exp_term u) m (exp (- u))).
    + intros k Hk. apply exp_term_step. split; [exact Hu0 |].
      apply Rle_trans with M; [exact HuM |].
      apply Rle_trans with (1 := HM). apply le_INR. lia.
    + apply cv_speed_pow_fact.
    + apply exp_series_cv.
    + exact Hn.
  - apply exp_term_mono. lra.
Qed.


(** The partial sums of [gauss_primitive] and of its derivative. *)
Definition gauss_poly (n : nat) (x : R) : R :=
  x * sum_f_R0 (tg_alt (gauss_term (x * x / 2))) n.

Definition exp_poly (n : nat) (x : R) : R :=
  sum_f_R0 (tg_alt (exp_term (x * x / 2))) n.

Lemma half_square_pow :
  forall z k, (z * z / 2) ^ k = z ^ (2 * k) / 2 ^ k.
Proof.
  intros z k. induction k as [| k IH].
  - simpl. field.
  - replace (2 * S k)%nat with (S (S (2 * k))) by lia.
    simpl pow. simpl pow in IH. rewrite IH.
    assert (H2 : 2 ^ k <> 0) by (apply pow_nonzero; lra).
    field. exact H2.
Qed.

Lemma gauss_poly_term_derivative :
  forall k x,
    derivable_pt_lim (fun y => y * tg_alt (gauss_term (y * y / 2)) k) x
                     (tg_alt (exp_term (x * x / 2)) k).
Proof.
  intros k x.
  assert (Hf : INR (fact k) <> 0) by apply INR_fact_neq_0.
  assert (Hd : INR (2 * k + 1) <> 0) by (apply not_0_INR; lia).
  assert (H2 : 2 ^ k <> 0) by (apply pow_nonzero; lra).
  set (c := (-1) ^ k / (2 ^ k * INR (fact k) * INR (2 * k + 1))).
  apply derivable_pt_lim_ext
    with (f := mult_real_fct c (fun y => y ^ (2 * k + 1))).
  - intro z. unfold mult_real_fct, tg_alt, gauss_term, c.
    rewrite half_square_pow, pow_add, pow_1.
    field. repeat split; assumption.
  - replace (tg_alt (exp_term (x * x / 2)) k)
      with (c * (INR (2 * k + 1) * x ^ Init.Nat.pred (2 * k + 1))).
    + apply derivable_pt_lim_scal. apply derivable_pt_lim_pow.
    + unfold tg_alt, exp_term, c. rewrite half_square_pow.
      replace (Init.Nat.pred (2 * k + 1)) with (2 * k)%nat by lia.
      field. repeat split; assumption.
Qed.

Lemma gauss_poly_derivative :
  forall n x, derivable_pt_lim (gauss_poly n) x (exp_poly n x).
Proof.
  intros n x. induction n as [| n IH].
  - apply derivable_pt_lim_ext
      with (f := fun y => y * tg_alt (gauss_term (y * y / 2)) 0).
    + intro z. reflexivity.
    + apply gauss_poly_term_derivative.
  - apply derivable_pt_lim_ext
      with (f := plus_fct (gauss_poly n)
                   (fun y => y * tg_alt (gauss_term (y * y / 2)) (S n))).
    + intro z. unfold plus_fct, gauss_poly. cbn [sum_f_R0]. ring.
    + unfold exp_poly. cbn [sum_f_R0].
      apply derivable_pt_lim_plus; [exact IH |].
      apply gauss_poly_term_derivative.
Qed.

Lemma gauss_poly_cv :
  forall x, Un_cv (fun n => gauss_poly n x) (gauss_primitive x).
Proof.
  intro x. unfold gauss_poly, gauss_primitive.
  apply (CV_mult (fun _ => x) (sum_f_R0 (tg_alt (gauss_term (x * x / 2))))).
  - intros eps Heps. exists 0%nat. intros n _.
    unfold Rdist. rewrite Rminus_diag, Rabs_R0. exact Heps.
  - apply gauss_series_cv.
Qed.

Lemma nat_above : forall M, 0 <= M -> exists m, M <= INR m.
Proof.
  intros M HM. destruct (archimed M) as [Hup _].
  exists (Z.to_nat (up M)).
  rewrite INR_IZR_INZ, Z2Nat.id.
  - lra.
  - apply le_IZR. lra.
Qed.

Lemma exp_poly_CVU :
  forall r : posreal, CVU exp_poly (fun x => exp (- (x * x / 2))) 0 r.
Proof.
  intros r eps Heps.
  set (M := r * r / 2).
  assert (Hr : 0 < r) by apply cond_pos.
  assert (HM : 0 <= M) by (unfold M; nra).
  destruct (nat_above M HM) as [m Hm].
  destruct (cv_speed_pow_fact M eps Heps) as [N0 HN0].
  exists (Nat.max N0 (2 * S m)). intros n y Hn Hy.
  unfold Boule in Hy. rewrite Rminus_0_r in Hy.
  assert (Hu : 0 <= y * y / 2 <= M).
  { unfold M. assert (Hy2 : y * y <= r * r).
    { apply Rabs_def2 in Hy. nra. }
    nra. }
  apply Rle_lt_trans with (exp_term M (S n)).
  - apply (exp_series_remainder M m); [exact Hu | | lia].
    apply Rle_trans with (1 := Hm). apply le_INR. lia.
  - assert (H := HN0 (S n) ltac:(lia)).
    unfold Rdist in H. rewrite Rminus_0_r in H.
    apply Rle_lt_trans with (2 := H). apply Rle_abs.
Qed.

(** [gauss_primitive] is a primitive of the Gaussian density kernel. *)
Lemma gauss_primitive_derivative :
  forall x, derivable_pt_lim gauss_primitive x (exp (- (x * x / 2))).
Proof.
  intro x.
  assert (Hr : 0 < Rabs x + 1) by (generalize (Rabs_pos x); lra).
  apply (CVU_derivable gauss_poly exp_poly gauss_primitive
           (fun y => exp (- (y * y / 2))) 0 (mkposreal _ Hr)).
  - apply exp_poly_CVU.
  - intros y _. apply gauss_poly_cv.
  - intros n y _. apply gauss_poly_derivative.
  - unfold Boule. cbn. rewrite Rminus_0_r. lra.
Qed.

Lemma gauss_primitive_derivable : derivable gauss_primitive.
Proof.
  intro x. exists (exp (- (x * x / 2))). apply gauss_primitive_derivative.
Defined.

Lemma gauss_primitive_increasing :
  forall x y, x < y -> gauss_primitive x < gauss_primitive y.
Proof.
  apply (positive_derivative gauss_primitive gauss_primitive_derivable).
  intro x. cbn. apply exp_pos.
Qed.

(** The distribution function is strictly increasing. *)
Lemma Phi_increasing : forall x y, x < y -> Phi x < Phi y.
Proof.
  intros x y Hxy. unfold Phi.
  assert (Hs := sqrt_2PI_pos).
  assert (Hg := gauss_primitive_increasing x y Hxy).
  assert (Hi : 0 < / sqrt (2 * PI)) by now apply Rinv_0_lt_compat.
  unfold Rdiv. nra.
Qed.

Lemma Phi_monotone : forall x y, x <= y -> Phi x <= Phi y.
Proof.
  intros x y [Hlt | ->]; [left; now apply Phi_increasing | lra].
Qed.



Lemma Phi_continuous : continuity Phi.
Proof.
  apply derivable_continuous. intro x.
  exists (exp (- (x * x / 2)) / sqrt (2 * PI)).
  apply derivable_pt_lim_ext
    with (f := plus_fct (fct_cte (1 / 2))
                 (mult_real_fct (/ sqrt (2 * PI)) gauss_primitive)).
  - intro z. unfold plus_fct, fct_cte, mult_real_fct, Phi. unfold Rdiv. ring.
  - replace (exp (- (x * x / 2)) / sqrt (2 * PI))
      with (0 + / sqrt (2 * PI) * exp (- (x * x / 2)))
      by (unfold Rdiv; ring).
    apply derivable_pt_lim_plus; [apply derivable_pt_lim_const |].
    apply derivable_pt_lim_scal. apply gauss_primitive_derivative.
Qed.

(** *** The one-percent point

    [Phi (- 2.32) > 0.01 > Phi (- 2.33)]. *)

Lemma gauss_primitive_58_25 : gauss_primitive (58 / 25) < 1.2279.
Proof.
  unfold gauss_primitive.
  replace (58 / 25 * (58 / 25) / 2) with (1682 / 625) by field.
  assert (Hz : 0 <= 1682 / 625 <= INR (2 * 2 + 1)) by (simpl; lra).
  destruct (gauss_series_bounds (1682 / 625) 1 5 Hz) as [_ Hhi].
  eval_gauss_partial Hhi.
  lra.
Qed.

Lemma gauss_primitive_233_100 : 1.2284 < gauss_primitive (233 / 100).
Proof.
  unfold gauss_primitive.
  replace (233 / 100 * (233 / 100) / 2) with (54289 / 20000) by field.
  assert (Hz : 0 <= 54289 / 20000 <= INR (2 * 2 + 1)) by (simpl; lra).
  destruct (gauss_series_bounds (54289 / 20000) 1 5 Hz) as [Hlo _].
  eval_gauss_partial Hlo.
  lra.
Qed.

Lemma Phi_at_minus_58_25 : 0.01 < Phi (- (58 / 25)).
Proof.
  rewrite Phi_opp. unfold Phi.
  generalize gauss_primitive_58_25; intro Hhi.
  destruct sqrt_2PI_enclosure as [Hc1 Hc2].
  set (g := gauss_primitive (58 / 25)) in *. set (c := sqrt (2 * PI)) in *.
  assert (Hq : g / c < 0.49).
  { apply quotient_below; [lra | nra]. }
  lra.
Qed.

Lemma Phi_at_minus_233_100 : Phi (- (233 / 100)) < 0.01.
Proof.
  rewrite Phi_opp. unfold Phi.
  generalize gauss_primitive_233_100; intro Hlo.
  destruct sqrt_2PI_enclosure as [Hc1 Hc2].
  set (g := gauss_primitive (233 / 100)) in *. set (c := sqrt (2 * PI)) in *.
  assert (Hq : 0.49 < g / c).
  { apply quotient_above; [lra | nra]. }
  lra.
Qed.

(** The point [z] with [Phi (- z) = 0.01] lies between [2.32] and [2.33]. *)
Lemma one_percent_point :
  exists z, 58 / 25 < z < 233 / 100 /\ Phi (- z) = 0.01.
Proof.
  set (f := fun t => 0.01 - Phi (- t)).
  assert (Hcont : continuity f).
  { unfold f. intro t.
    apply (continuity_pt_minus (fct_cte 0.01) (fun t => Phi (- t))).
    - apply continuity_pt_const. intros a b. reflexivity.
    - apply (continuity_pt_comp (fun t => - t) Phi).
      + apply (continuity_pt_opp id). apply derivable_continuous_pt.
        apply derivable_pt_id.
      + apply Phi_continuous. }
  assert (Hlo : f (58 / 25) < 0).
  { unfold f. generalize Phi_at_minus_58_25. lra. }
  assert (Hhi : 0 < f (233 / 100)).
  { unfold f. generalize Phi_at_minus_233_100. lra. }
  destruct (IVT f (58 / 25) (233 / 100) Hcont ltac:(lra) Hlo Hhi)
    as (z & [Hz1 Hz2] & Hz).
  exists z. unfold f in Hz, Hlo, Hhi.
  assert (Hne1 : z <> 58 / 25) by (intro E; rewrite E in Hz; lra).
  assert (Hne2 : z <> 233 / 100) by (intro E; rewrite E in Hz; lra).
  split; [lra | lra].
Qed.

Lemma Phi_lt_iff : forall x y, Phi x < Phi y <-> x < y.
Proof.
  intros x y. split; [| apply Phi_increasing].
  intro H. destruct (Rlt_le_dec x y) as [Hlt | Hge]; [exact Hlt |].
  apply Phi_monotone in Hge. lra.
Qed.

End NormalCdfCalculus.

(** ** Python values and control flow

    A call either returns a value or raises; [try ... except Exception]
    turns every raised exception into the handler's value. *)

Inductive exn : Type :=
  | ZeroDivisionError
  | TypeError
  | OverflowError.

Inductive outcome (A : Type) : Type :=
  | Returned (a : A)
  | Raised (e : exn).

Arguments Returned {A} a.
Arguments Raised {A} e.

Definition bind {A B : Type} (c : outcome A) (k : A -> outcome B) : outcome B :=
  match c with
  | Returned a => k a
  | Raised e => Raised e
  end.

Notation "x <- c ;; k" := (bind c (fun x => k))
  (at level 61, c at next level, right associativity).

Definition try_except {A : Type} (body : outcome A) (handler : A) : outcome A :=
  match body with
  | Returned a => Returned a
  | Raised _ => Returned handler
  end.

(** Comparisons of floats, as booleans. *)
Definition Rleb (x y : R) : bool := if Rle_dec x y then true else false.
Definition Rltb (x y : R) : bool := if Rlt_dec x y then true else false.
Definition Rgtb (x y : R) : bool := Rltb y x.
Definition Reqb (x y : R) : bool := if Req_dec_T x y then true else false.

Lemma Rleb_true : forall x y, Rleb x y = true <-> x <= y.
Proof. intros x y. unfold Rleb. destruct (Rle_dec x y); split; intros; easy. Qed.

Lemma Rleb_false : forall x y, Rleb x y = false <-> y < x.
Proof.
  intros x y. unfold Rleb. destruct (Rle_dec x y); split; intros; try easy; lra.
Qed.

Lemma Rltb_true : forall x y, Rltb x y = true <-> x < y.
Proof. intros x y. unfold Rltb. destruct (Rlt_dec x y); split; intros; easy. Qed.

Lemma Rltb_false : forall x y, Rltb x y = false <-> y <= x.
Proof.
  intros x y. unfold Rltb. destruct (Rlt_dec x y); split; intros; try easy; lra.
Qed.

Lemma Rgtb_true : forall x y, Rgtb x y = true <-> x > y.
Proof. intros x y. unfold Rgtb. rewrite Rltb_true. lra. Qed.

Lemma Rgtb_false : forall x y, Rgtb x y = false <-> x <= y.
Proof. intros x y. unfold Rgtb. now rewrite Rltb_false. Qed.

Lemma Reqb_true : forall x y, Reqb x y = true <-> x = y.
Proof. intros x y. unfold Reqb. destruct (Req_dec_T x y); split; intros; easy. Qed.

Lemma Reqb_false : forall x y, Reqb x y = false <-> x <> y.
Proof. intros x y. unfold Reqb. destruct (Req_dec_T x y); split; intros; easy. Qed.

(** Float division: a zero divisor raises. *)
Definition py_div (x y : R) : outcome R :=
  if Reqb y 0 then Raised ZeroDivisionError else Returned (x / y).

(** numpy and scipy functions, over the reals. *)
Definition np_log (x : R) : R := ln x.
Definition np_sqrt (x : R) : R := sqrt x.
Definition np_exp (x : R) : R := exp x.
Definition norm_cdf (x : R) : R := NormalCdf.Phi x.

(** ** scripts/black_scholes.py *)

Definition black_scholes_body
    (S K T r sigma : R) (option_type : string) : outcome (option R) :=
  if Rleb S 0 || Rleb K 0 || Rleb T 0 || Rleb sigma 0 then Returned None
  else
    q <- py_div S K ;;
    let log_term := np_log q in
    let sigma_sqrt_T := sigma * np_sqrt T in
    if Rleb sigma_sqrt_T 0 then Returned None
    else
      d1 <- py_div (log_term + (r + 0.5 * sigma ^ 2) * T) sigma_sqrt_T ;;
      let d2 := d1 - sigma_sqrt_T in
      if (option_type =? "put")%string && Rltb (norm_cdf (- d2)) 0.01
      then Returned (Some 0)
      else if (option_type =? "call")%string
      then Returned (Some (S * norm_cdf d1 - K * np_exp (- r * T) * norm_cdf d2))
      else if (option_type =? "put")%string
      then Returned (Some (K * np_exp (- r * T) * norm_cdf (- d2)
                           - S * norm_cdf (- d1)))
      else Returned None.

Definition black_scholes
    (S K T r sigma : R) (option_type : string) : outcome (option R) :=
  try_except (black_scholes_body S K T r sigma option_type) None.

(** The closed form as the specification words it. *)
Module BlackScholesSpec.

Definition d1 (S K T r sigma : R) : R :=
  (ln (S / K) + (r + sigma ^ 2 / 2) * T) / (sigma * sqrt T).

Definition d2 (S K T r sigma : R) : R :=
  d1 S K T r sigma - sigma * sqrt T.

Definition call (S K T r sigma : R) : R :=
  S * NormalCdf.Phi (d1 S K T r sigma)
  - K * exp (- (r * T)) * NormalCdf.Phi (d2 S K T r sigma).

Definition put (S K T r sigma : R) : R :=
  K * exp (- (r * T)) * NormalCdf.Phi (- d2 S K T r sigma)
  - S * NormalCdf.Phi (- d1 S K T r sigma).

End BlackScholesSpec.

(** ** [black_scholes] on Python floats

    The embedding above takes the five numeric arguments as real numbers.  A
    Python float can also be an infinity or NaN, and the function is called
    with Python floats (the rows [df.apply] passes are object Series).  Here
    a float is a real number, an infinity or NaN, with the IEEE rules for
    the special values; finite arithmetic is exact, and the sign of zero is
    not tracked.  Among the operations of [black_scholes] two can raise on
    floats: [S / K], a Python division, on a zero divisor, and [sigma**2], a
    Python power, when the square exceeds the largest float; the numpy
    functions and numpy's division give an infinity or NaN instead. *)

Module PyFloat.

Inductive pyfloat : Type :=
  | Finite (x : R)
  | Inf
  | NegInf
  | FNaN.

(** The largest finite float, [(2 - 2^-52) * 2^1023]. *)
Definition float_max : R := (2 - / 2 ^ 52) * 2 ^ 1023.

(** [x <= y] and [x < y]: false as soon as one side is NaN. *)
Definition fle (x y : pyfloat) : bool :=
  match x, y with
  | FNaN, _ | _, FNaN => false
  | Finite a, Finite b => Rleb a b
  | NegInf, _ => true
  | _, Inf => true
  | _, _ => false
  end.

Definition flt (x y : pyfloat) : bool :=
  match x, y with
  | FNaN, _ | _, FNaN => false
  | Finite a, Finite b => Rltb a b
  | NegInf, NegInf => false
  | Inf, Inf => false
  | NegInf, _ => true
  | _, Inf => true
  | _, _ => false
  end.

Definition fneg (x : pyfloat) : pyfloat :=
  match x with
  | Finite a => Finite (- a)
  | Inf => NegInf
  | NegInf => Inf
  | FNaN => FNaN
  end.

Definition fadd (x y : pyfloat) : pyfloat :=
  match x, y with
  | FNaN, _ | _, FNaN => FNaN
  | Finite a, Finite b => Finite (a + b)
  | Inf, NegInf | NegInf, Inf => FNaN
  | Inf, _ | _, Inf => Inf
  | NegInf, _ | _, NegInf => NegInf
  end.

Definition fsub (x y : pyfloat) : pyfloat := fadd x (fneg y).

(** An infinity of the given sign times, or divided by, a finite [a]. *)
Definition scale_inf (positive : bool) (a : R) : pyfloat :=
  if Rltb 0 a then (if positive then Inf else NegInf)
  else if Rltb a 0 then (if positive then NegInf else Inf)
  else FNaN.

Definition fmul (x y : pyfloat) : pyfloat :=
  match x, y with
  | FNaN, _ | _, FNaN => FNaN
  | Finite a, Finite b => Finite (a * b)
  | Finite a, Inf | Inf, Finite a => scale_inf true a
  | Finite a, NegInf | NegInf, Finite a => scale_inf false a
  | Inf, Inf | NegInf, NegInf => Inf
  | Inf, NegInf | NegInf, Inf => NegInf
  end.

(** numpy's division: a zero divisor gives an infinity or NaN. *)
Definition np_truediv (x y : pyfloat) : pyfloat :=
  match x, y with
  | FNaN, _ | _, FNaN => FNaN
  | Finite a, Finite b =>
      if Reqb b 0 then scale_inf true a else Finite (a / b)
  | Finite _, Inf | Finite _, NegInf => Finite 0
  | Inf, Finite b => if Rltb b 0 then NegInf else Inf
  | NegInf, Finite b => if Rltb b 0 then Inf else NegInf
  | _, _ => FNaN
  end.

(** Python's division of floats: a zero divisor raises. *)
Definition py_truediv (x y : pyfloat) : outcome pyfloat :=
  match y with
  | Finite b =>
      if Reqb b 0 then Raised ZeroDivisionError
      else Returned (np_truediv x y)
  | _ => Returned (np_truediv x y)
  end.

(** Python's [x ** 2] on a float: an overflow raises. *)
Definition py_pow2 (x : pyfloat) : outcome pyfloat :=
  match x with
  | Finite a =>
      if Rltb float_max (a ^ 2) then Raised OverflowError
      else Returned (Finite (a ^ 2))
  | Inf | NegInf => Returned Inf
  | FNaN => Returned FNaN
  end.

Definition np_log (x : pyfloat) : pyfloat :=
  match x with
  | Finite a =>
      if Rltb 0 a then Finite (ln a)
      else if Reqb a 0 then NegInf
      else FNaN
  | Inf => Inf
  | NegInf | FNaN => FNaN
  end.

Definition np_sqrt (x : pyfloat) : pyfloat :=
  match x with
  | Finite a => if Rleb 0 a then Finite (sqrt a) else FNaN
  | Inf => Inf
  | NegInf | FNaN => FNaN
  end.

Definition np_exp (x : pyfloat) : pyfloat :=
  match x with
  | Finite a => Finite (exp a)
  | Inf => Inf
  | NegInf => Finite 0
  | FNaN => FNaN
  end.

Definition norm_cdf (x : pyfloat) : pyfloat :=
  match x with
  | Finite a => Finite (NormalCdf.Phi a)
  | Inf => Finite 1
  | NegInf => Finite 0
  | FNaN => FNaN
  end.

Definition black_scholes_body
    (S K T r sigma : pyfloat) (option_type : string)
    : outcome (option pyfloat) :=
  let zero := Finite 0 in
  if fle S zero || fle K zero || fle T zero || fle sigma zero
  then Returned None
  else
    q <- py_truediv S K ;;
    let log_term := np_log q in
    let sigma_sqrt_T := fmul sigma (np_sqrt T) in
    if fle sigma_sqrt_T zero then Returned None
    else
      square <- py_pow2 sigma ;;
      let d1 :=
        np_truediv
          (fadd log_term (fmul (fadd r (fmul (Finite 0.5) square)) T))
          sigma_sqrt_T in
      let d2 := fsub d1 sigma_sqrt_T in
      if (option_type =? "put")%string
         && flt (norm_cdf (fneg d2)) (Finite 0.01)
      then Returned (Some zero)
      else if (option_type =? "call")%string
      then Returned
             (Some (fsub (fmul S (norm_cdf d1))
                         (fmul (fmul K (np_exp (fmul (fneg r) T)))
                               (norm_cdf d2))))
      else if (option_type =? "put")%string
      then Returned
             (Some (fsub (fmul (fmul K (np_exp (fmul (fneg r) T)))
                               (norm_cdf (fneg d2)))
                         (fmul S (norm_cdf (fneg d1)))))
      else Returned None.

Definition black_scholes
    (S K T r sigma : pyfloat) (option_type : string)
    : outcome (option pyfloat) :=
  try_except (black_scholes_body S K T r sigma option_type) None.

(** The guard of line 37, and the inputs whose square overflows. *)
Definition invalid (S K T sigma : pyfloat) : bool :=
  fle S (Finite 0) || fle K (Finite 0) || fle T (Finite 0)
  || fle sigma (Finite 0).

Definition overflows (sigma : pyfloat) : bool :=
  match sigma with
  | Finite a => Rltb float_max (a ^ 2)
  | _ => false
  end.

(** What passes the comparison [x <= 0] as false: a positive number, the
    positive infinity, or NaN. *)
Definition positive_or_nan (x : pyfloat) : Prop :=
  match x with
  | Finite a => 0 < a
  | Inf | FNaN => True
  | NegInf => False
  end.

End PyFloat.

(** ** Black-Scholes: what the function returns *)

Section BlackScholesFacts.

Import BlackScholesSpec.

Variables S K T r sigma : R.

(** The value computed on the path past the two guards. *)
Definition black_scholes_value (option_type : string) : option R :=
  if (option_type =? "put")%string
     && Rltb (NormalCdf.Phi (- d2 S K T r sigma)) 0.01
  then Some 0
  else if (option_type =? "call")%string then Some (call S K T r sigma)
  else if (option_type =? "put")%string then Some (put S K T r sigma)
  else None.

Lemma code_d1_eq :
  (np_log (S / K) + (r + 0.5 * sigma ^ 2) * T) / (sigma * np_sqrt T)
  = d1 S K T r sigma.
Proof.
  unfold d1, np_log, np_sqrt. f_equal. f_equal. f_equal. lra.
Qed.

Lemma code_discount_eq : np_exp (- r * T) = exp (- (r * T)).
Proof. unfold np_exp. f_equal. ring. Qed.

Lemma black_scholes_valid :
  forall option_type,
    0 < S -> 0 < K -> 0 < T -> 0 < sigma ->
    black_scholes S K T r sigma option_type
    = Returned (black_scholes_value option_type).
Proof.
  intros option_type HS HK HT Hsig.
  assert (Hsq : 0 < sigma * np_sqrt T).
  { apply Rmult_lt_0_compat; [exact Hsig | now apply sqrt_lt_R0]. }
  unfold black_scholes, black_scholes_body.
  assert (G1 : Rleb S 0 = false) by (apply Rleb_false; lra).
  assert (G2 : Rleb K 0 = false) by (apply Rleb_false; lra).
  assert (G3 : Rleb T 0 = false) by (apply Rleb_false; lra).
  assert (G4 : Rleb sigma 0 = false) by (apply Rleb_false; lra).
  assert (G5 : Rleb (sigma * np_sqrt T) 0 = false) by (apply Rleb_false; lra).
  assert (D1 : Reqb K 0 = false) by (apply Reqb_false; lra).
  assert (D2 : Reqb (sigma * np_sqrt T) 0 = false) by (apply Reqb_false; lra).
  rewrite G1, G2, G3, G4. cbn [orb].
  unfold py_div. rewrite D1. cbn [bind]. rewrite G5, D2. cbn [bind].
  rewrite code_d1_eq, code_discount_eq.
  unfold black_scholes_value, call, put, d2, norm_cdf, np_sqrt.
  destruct (option_type =? "put")%string;
    destruct (option_type =? "call")%string;
    destruct (Rltb _ 0.01); reflexivity.
Qed.

Lemma black_scholes_invalid :
  forall option_type,
    S <= 0 \/ K <= 0 \/ T <= 0 \/ sigma <= 0 ->
    black_scholes S K T r sigma option_type = Returned None.
Proof.
  intros option_type H. unfold black_scholes, black_scholes_body.
  assert (G : Rleb S 0 || Rleb K 0 || Rleb T 0 || Rleb sigma 0 = true).
  { destruct H as [H | [H | [H | H]]]; apply Rleb_true in H; rewrite H;
      rewrite ?orb_true_r; reflexivity. }
  rewrite G. reflexivity.
Qed.

Lemma closed_form_parity :
  call S K T r sigma - put S K T r sigma = S - K * exp (- (r * T)).
Proof. unfold call, put. rewrite !NormalCdf.Phi_opp. ring. Qed.

End BlackScholesFacts.

(** ** Two worked inputs

    A deep out-of-the-money put ([S = K = 100], [T = 4], [r = 0.26],
    [sigma = 0.2], so [d1 = 2.8] and [d2 = 2.4]) and an at-the-money
    quote ([S = K = 100], [T = 1], [r = 0.02], [sigma = 0.2], so [d2 = 0]). *)

Module Worked.

Import BlackScholesSpec.

Lemma sqrt_4 : sqrt 4 = 2.
Proof. replace 4 with (2 * 2) by ring. apply sqrt_square. lra. Qed.

Lemma ln_unit_ratio : ln (100 / 100) = 0.
Proof. replace (100 / 100) with 1 by field. apply ln_1. Qed.

Lemma deep_d1 : d1 100 100 4 0.26 0.2 = 14 / 5.
Proof. unfold d1. rewrite ln_unit_ratio, sqrt_4. lra. Qed.

Lemma deep_d2 : d2 100 100 4 0.26 0.2 = 12 / 5.
Proof. unfold d2. rewrite deep_d1, sqrt_4. lra. Qed.

Lemma deep_itm_probability : NormalCdf.Phi (- d2 100 100 4 0.26 0.2) < 0.01.
Proof.
  rewrite deep_d2. generalize NormalCdf.Phi_at_minus_12_5. lra.
Qed.

Lemma deep_put_closed_form_pos : 0 < put 100 100 4 0.26 0.2.
Proof.
  unfold put. rewrite deep_d1, deep_d2.
  replace (- (0.26 * 4)) with (- (26 / 25)) by lra.
  destruct NormalCdf.Phi_at_minus_12_5 as [H1 _].
  generalize NormalCdf.Phi_at_minus_14_5 NormalCdf.exp_minus_26_25_lower.
  intros H2 H3.
  set (e := exp (- (26 / 25))) in *.
  set (p2 := NormalCdf.Phi (- (12 / 5))) in *.
  set (p1 := NormalCdf.Phi (- (14 / 5))) in *.
  clearbody e p1 p2. nra.
Qed.

Lemma deep_put_floored :
  black_scholes 100 100 4 0.26 0.2 "put" = Returned (Some 0).
Proof.
  rewrite black_scholes_valid by lra.
  unfold black_scholes_value. cbn [String.eqb Ascii.eqb Bool.eqb andb].
  assert (H : Rltb (NormalCdf.Phi (- d2 100 100 4 0.26 0.2)) 0.01 = true).
  { apply Rltb_true. exact deep_itm_probability. }
  rewrite H. reflexivity.
Qed.

Lemma deep_call :
  black_scholes 100 100 4 0.26 0.2 "call"
  = Returned (Some (call 100 100 4 0.26 0.2)).
Proof.
  rewrite black_scholes_valid by lra. reflexivity.
Qed.

Lemma gauss_primitive_0 : NormalCdf.gauss_primitive 0 = 0.
Proof. unfold NormalCdf.gauss_primitive. ring. Qed.

Lemma Phi_0 : NormalCdf.Phi 0 = 1 / 2.
Proof.
  unfold NormalCdf.Phi. rewrite gauss_primitive_0.
  generalize NormalCdf.sqrt_2PI_pos. intro. field. lra.
Qed.

Lemma atm_d2 : d2 100 100 1 0.02 0.2 = 0.
Proof. unfold d2, d1. rewrite ln_unit_ratio, sqrt_1. lra. Qed.

Lemma atm_itm_probability : 0.01 <= NormalCdf.Phi (- d2 100 100 1 0.02 0.2).
Proof. rewrite atm_d2, Ropp_0, Phi_0. lra. Qed.

End Worked.

(** ** Complex numbers

    Python's [complex] and numpy's complex functions, as pairs of reals.
    Division is multiplication by the inverse; [Csqrt] and [Cln] take the
    principal branch, with the cut along the negative real axis. *)

Definition C : Type := (R * R)%type.

Definition RtoC (x : R) : C := (x, 0).
Definition Ci : C := (0, 1).
Definition Cre (z : C) : R := fst z.
Definition Cim (z : C) : R := snd z.

Definition Cadd (z w : C) : C := (fst z + fst w, snd z + snd w).
Definition Copp (z : C) : C := (- fst z, - snd z).
Definition Csub (z w : C) : C := (fst z - fst w, snd z - snd w).
Definition Cmul (z w : C) : C :=
  (fst z * fst w - snd z * snd w, fst z * snd w + snd z * fst w).
Definition Cinv (z : C) : C :=
  (fst z / (fst z ^ 2 + snd z ^ 2), - snd z / (fst z ^ 2 + snd z ^ 2)).
Definition Cdiv (z w : C) : C := Cmul z (Cinv w).
Fixpoint Cpow (z : C) (n : nat) : C :=
  match n with
  | O => RtoC 1
  | S k => Cmul z (Cpow z k)
  end.

Definition Cmod (z : C) : R := sqrt (fst z ^ 2 + snd z ^ 2).
Definition Cnorm2 (z : C) : R := fst z ^ 2 + snd z ^ 2.

Definition Carg (z : C) : R :=
  let (x, y) := z in
  if Rltb 0 x then atan (y / x)
  else if Rltb x 0 then
    (if Rleb 0 y then atan (y / x) + PI else atan (y / x) - PI)
  else if Rltb 0 y then PI / 2
  else if Rltb y 0 then - (PI / 2)
  else 0.

Definition Cexp (z : C) : C := (exp (fst z) * cos (snd z), exp (fst z) * sin (snd z)).
Definition Cln (z : C) : C := (ln (Cmod z), Carg z).
Definition Csqrt (z : C) : C :=
  let m := Cmod z in
  (sqrt ((m + fst z) / 2),
   (if Rltb (snd z) 0 then -1 else 1) * sqrt ((m - fst z) / 2)).

Declare Scope C_scope.
Delimit Scope C_scope with C.
Bind Scope C_scope with C.
Infix "+" := Cadd : C_scope.
Infix "-" := Csub : C_scope.
Infix "*" := Cmul : C_scope.
Infix "/" := Cdiv : C_scope.
Notation "- z" := (Copp z) : C_scope.
Notation "z ^ n" := (Cpow z n) : C_scope.

Lemma C_ring_theory :
  ring_theory (RtoC 0) (RtoC 1) Cadd Cmul Csub Copp (@eq C).
Proof.
  constructor; intros; repeat match goal with z : C |- _ => destruct z end;
    unfold RtoC, Cadd, Cmul, Csub, Copp; cbn [fst snd]; f_equal; ring.
Qed.

Add Ring C_ring : C_ring_theory.

(** ** scripts/heston_model.py: characteristic function and integrand *)

Definition heston_cf (phi S T r kappa theta sigma rho v0 : R) (j : Z) : C :=
  let i := Ci in
  let u := if (j =? 1)%Z then 0.5 else -0.5 in
  let b := if (j =? 1)%Z then kappa - rho * sigma else kappa in
  let d := Csqrt ((RtoC (rho * sigma) * i * RtoC phi - RtoC b) ^ 2
                  - RtoC (sigma ^ 2)
                    * (RtoC (2 * u) * i * RtoC phi - RtoC (phi ^ 2)))%C in
  let g := ((RtoC b - RtoC (rho * sigma) * i * RtoC phi + d)
            / (RtoC b - RtoC (rho * sigma) * i * RtoC phi - d))%C in
  let C_ := (RtoC r * i * RtoC phi * RtoC T
             + RtoC (kappa * theta / sigma ^ 2)
               * ((RtoC b - RtoC (rho * sigma) * i * RtoC phi + d) * RtoC T
                  - RtoC 2 * Cln ((RtoC 1 - g * Cexp (d * RtoC T))
                                  / (RtoC 1 - g))))%C in
  let D := (((RtoC b - RtoC (rho * sigma) * i * RtoC phi + d)
             / RtoC (sigma ^ 2))
            * ((RtoC 1 - Cexp (d * RtoC T))
               / (RtoC 1 - g * Cexp (d * RtoC T))))%C in
  Cexp (C_ + D * RtoC v0 + i * RtoC phi * RtoC (np_log S))%C.

Definition integrand (phi S K T r kappa theta sigma rho v0 : R) (j : Z) : R :=
  let i := Ci in
  if negb (Reqb phi 0)
  then Cre (Cexp (- i * RtoC phi * RtoC (np_log K))
            * heston_cf phi S T r kappa theta sigma rho v0 j
            / (i * RtoC phi))%C
  else 0.

(** *** Division by zero

    The two functions are compiled by numba, whose default error model is
    Python's: a float or complex division by zero raises
    [ZeroDivisionError].  [heston_cf] and [integrand] above give the value
    computed when no division raises; [heston_cf_py] and [integrand_py] are
    the same computations with each division checked, in the order in which
    Python evaluates them. *)

Definition Ceq0b (z : C) : bool := Reqb (fst z) 0 && Reqb (snd z) 0.

Definition Cdiv_py (z w : C) : outcome C :=
  if Ceq0b w then Raised ZeroDivisionError else Returned (z / w)%C.

Definition heston_cf_py (phi S T r kappa theta sigma rho v0 : R) (j : Z)
    : outcome C :=
  let i := Ci in
  let u := if (j =? 1)%Z then 0.5 else -0.5 in
  let b := if (j =? 1)%Z then kappa - rho * sigma else kappa in
  let d := Csqrt ((RtoC (rho * sigma) * i * RtoC phi - RtoC b) ^ 2
                  - RtoC (sigma ^ 2)
                    * (RtoC (2 * u) * i * RtoC phi - RtoC (phi ^ 2)))%C in
  g <- Cdiv_py (RtoC b - RtoC (rho * sigma) * i * RtoC phi + d)%C
               (RtoC b - RtoC (rho * sigma) * i * RtoC phi - d)%C ;;
  c0 <- py_div (kappa * theta) (sigma ^ 2) ;;
  q <- Cdiv_py (RtoC 1 - g * Cexp (d * RtoC T))%C (RtoC 1 - g)%C ;;
  let C_ := (RtoC r * i * RtoC phi * RtoC T
             + RtoC c0
               * ((RtoC b - RtoC (rho * sigma) * i * RtoC phi + d) * RtoC T
                  - RtoC 2 * Cln q))%C in
  e0 <- Cdiv_py (RtoC b - RtoC (rho * sigma) * i * RtoC phi + d)%C
                (RtoC (sigma ^ 2)) ;;
  e1 <- Cdiv_py (RtoC 1 - Cexp (d * RtoC T))%C
                (RtoC 1 - g * Cexp (d * RtoC T))%C ;;
  let D := (e0 * e1)%C in
  Returned (Cexp (C_ + D * RtoC v0 + i * RtoC phi * RtoC (np_log S)))%C.

Definition integrand_py (phi S K T r kappa theta sigma rho v0 : R) (j : Z)
    : outcome R :=
  let i := Ci in
  if negb (Reqb phi 0)
  then
    cf <- heston_cf_py phi S T r kappa theta sigma rho v0 j ;;
    q <- Cdiv_py (Cexp (- i * RtoC phi * RtoC (np_log K)) * cf)%C
                 (i * RtoC phi)%C ;;
    Returned (Cre q)
  else Returned 0.

(** The characteristic function as the specification words it. *)
Module HestonSpec.

Inductive branch : Type := Branch1 | Branch2.

Definition branch_b (kappa sigma rho : R) (br : branch) : R :=
  match br with
  | Branch1 => kappa - rho * sigma
  | Branch2 => kappa
  end.

Definition branch_weight (br : branch) : R :=
  match br with
  | Branch1 => 1 / 2
  | Branch2 => - (1 / 2)
  end.

Section Formulas.

Variables (u S T r kappa theta sigma rho v0 : R) (br : branch).

Let b : C := RtoC (branch_b kappa sigma rho br).
Let w : C := RtoC (branch_weight br).
Let rsiu : C := (RtoC (rho * sigma) * Ci * RtoC u)%C.
Let sigma2 : C := RtoC (sigma * sigma).

Definition d : C :=
  Csqrt ((rsiu - b) * (rsiu - b)
         - sigma2 * (RtoC 2 * w * Ci * RtoC u - RtoC (u * u)))%C.

Definition g : C := ((b - rsiu + d) / (b - rsiu - d))%C.

Definition C_term : C :=
  (RtoC r * Ci * RtoC u * RtoC T
   + RtoC (kappa * theta / (sigma * sigma))
     * ((b - rsiu + d) * RtoC T
        - RtoC 2 * Cln ((RtoC 1 - g * Cexp (d * RtoC T)) / (RtoC 1 - g))))%C.

Definition D_term : C :=
  (((b - rsiu + d) / sigma2)
   * (RtoC 1 - Cexp (d * RtoC T))
   / (RtoC 1 - g * Cexp (d * RtoC T)))%C.

Definition phi : C :=
  Cexp (C_term + D_term * RtoC v0 + Ci * RtoC u * RtoC (ln S))%C.

(** The integrand of [P_j] for a given value of the characteristic
    function: [Re (e^(-i u ln K) value / (i u))], and [0] at [u = 0]. *)
Definition integrand_at (K : R) (value : C) : R :=
  if Req_dec_T u 0 then 0
  else Cre (Cexp (- (Ci * RtoC u * RtoC (ln K))) * value / (Ci * RtoC u))%C.

End Formulas.

End HestonSpec.

(** ** The characteristic function against its specification *)

Lemma RtoC_mult : forall x y, RtoC (x * y) = (RtoC x * RtoC y)%C.
Proof. intros. unfold RtoC, Cmul; cbn [fst snd]. f_equal; ring. Qed.

Lemma Cpow_2 : forall z : C, (z ^ 2)%C = (z * z)%C.
Proof. intro z. cbn [Cpow]. ring. Qed.

Lemma half_literal : 0.5 = 1 / 2.
Proof. lra. Qed.

Lemma minus_half_literal : -0.5 = - (1 / 2).
Proof. lra. Qed.

Lemma heston_cf_branch :
  forall phi S T r kappa theta sigma rho v0 j br,
    (j = 1%Z /\ br = HestonSpec.Branch1) \/ (j <> 1%Z /\ br = HestonSpec.Branch2) ->
    heston_cf phi S T r kappa theta sigma rho v0 j
    = HestonSpec.phi phi S T r kappa theta sigma rho v0 br.
Proof.
  intros phi S T r kappa theta sigma rho v0 j br Hj.
  unfold heston_cf, HestonSpec.phi.
  set (u := if (j =? 1)%Z then 0.5 else -0.5).
  set (b := if (j =? 1)%Z then kappa - rho * sigma else kappa).
  assert (Hu : u = HestonSpec.branch_weight br).
  { unfold u. destruct Hj as [[-> ->] | [Hn ->]]; cbn [HestonSpec.branch_weight].
    - rewrite Z.eqb_refl. apply half_literal.
    - apply Z.eqb_neq in Hn. rewrite Hn. apply minus_half_literal. }
  assert (Hb : b = HestonSpec.branch_b kappa sigma rho br).
  { unfold b. destruct Hj as [[-> ->] | [Hn ->]]; cbn [HestonSpec.branch_b].
    - now rewrite Z.eqb_refl.
    - apply Z.eqb_neq in Hn. now rewrite Hn. }
  clearbody u b. subst u b.
  set (bb := RtoC (HestonSpec.branch_b kappa sigma rho br)).
  set (x := (RtoC (rho * sigma) * Ci * RtoC phi)%C).
  assert (Hd : Csqrt ((x - bb) ^ 2
                      - RtoC (sigma ^ 2)
                        * (RtoC (2 * HestonSpec.branch_weight br) * Ci * RtoC phi
                           - RtoC (phi ^ 2)))%C
               = HestonSpec.d phi kappa sigma rho br).
  { unfold HestonSpec.d. fold bb. fold x. f_equal.
    rewrite Cpow_2, RtoC_mult.
    replace (sigma ^ 2) with (sigma * sigma) by ring.
    replace (phi ^ 2) with (phi * phi) by ring. reflexivity. }
  rewrite Hd. set (dd := HestonSpec.d phi kappa sigma rho br).
  assert (Hg : ((bb - x + dd) / (bb - x - dd))%C
               = HestonSpec.g phi kappa sigma rho br) by reflexivity.
  rewrite Hg. set (gg := HestonSpec.g phi kappa sigma rho br).
  assert (HC : (RtoC r * Ci * RtoC phi * RtoC T
                + RtoC (kappa * theta / sigma ^ 2)
                  * ((bb - x + dd) * RtoC T
                     - RtoC 2 * Cln ((RtoC 1 - gg * Cexp (dd * RtoC T))
                                     / (RtoC 1 - gg))))%C
               = HestonSpec.C_term phi T r kappa theta sigma rho br).
  { unfold HestonSpec.C_term. fold bb x dd gg.
    replace (sigma ^ 2) with (sigma * sigma) by ring. reflexivity. }
  assert (HD : ((bb - x + dd) / RtoC (sigma ^ 2)
                * ((RtoC 1 - Cexp (dd * RtoC T))
                   / (RtoC 1 - gg * Cexp (dd * RtoC T))))%C
               = HestonSpec.D_term phi T kappa sigma rho br).
  { unfold HestonSpec.D_term. fold bb x dd gg.
    replace (sigma ^ 2) with (sigma * sigma) by ring.
    unfold Cdiv. ring. }
  rewrite HC, HD. reflexivity.
Qed.

(** ** Strings: [str.lower] and [str.strip]

    A string is a sequence of code points below 256 (Latin-1 text).
    [str.lower] maps [A-Z] and the accented capitals U+00C0-U+00DE (except
    the multiplication sign U+00D7) to the letter 32 places further;
    [str.strip] removes the characters for which [str.isspace] holds: tab to
    carriage return, the separators U+001C-U+001F, the space, U+0085 and
    U+00A0. *)

Definition lower_char (c : ascii) : ascii :=
  let n := nat_of_ascii c in
  if ((65 <=? n)%nat && (n <=? 90)%nat)
     || ((192 <=? n)%nat && (n <=? 222)%nat && negb (n =? 215)%nat)
  then ascii_of_nat (n + 32) else c.

Fixpoint py_lower (s : string) : string :=
  match s with
  | EmptyString => EmptyString
  | String c t => String (lower_char c) (py_lower t)
  end.

Definition is_space (c : ascii) : bool :=
  let n := nat_of_ascii c in
  ((9 <=? n)%nat && (n <=? 13)%nat) || ((28 <=? n)%nat && (n <=? 32)%nat)
  || (n =? 133)%nat || (n =? 160)%nat.

Fixpoint lstrip (s : string) : string :=
  match s with
  | EmptyString => EmptyString
  | String c t => if is_space c then lstrip t else s
  end.

Fixpoint rstrip (s : string) : string :=
  match s with
  | EmptyString => EmptyString
  | String c t =>
      match rstrip t with
      | EmptyString => if is_space c then EmptyString else String c EmptyString
      | t' => String c t'
      end
  end.

Definition py_strip (s : string) : string := rstrip (lstrip s).

(** ** scripts/heston_model.py: pricing, calibration objective, clean-up *)

(** Python's [max(a, b)]: the first argument unless the second is larger. *)
Definition py_max (a b : R) : R := if Rgtb b a then b else a.

(** One row of the data frame read from the database. *)
Record quote : Type := {
  instrument_name : string;
  spot_price : R;
  strike_price : R;
  T_years : R;
  option_type : string;
  real_market_price : R;
  implied_volatility : R
}.

(** A row once the [heston_price] column is attached; [None] is NaN. *)
Record priced : Type := {
  base : quote;
  heston_price_col : option R
}.

(** [pandas.Series.quantile] with linear interpolation, at [q = num / den]:
    missing values are skipped, the position is [q * (n - 1)] in the sorted
    values, and the result on an empty column is NaN. *)
Fixpoint insert_sorted (x : R) (l : list R) : list R :=
  match l with
  | [] => [x]
  | y :: t => if Rleb x y then x :: y :: t else y :: insert_sorted x t
  end.

Definition sort_values (l : list R) : list R := fold_right insert_sorted [] l.

Fixpoint finite_values (col : list (option R)) : list R :=
  match col with
  | [] => []
  | Some x :: t => x :: finite_values t
  | None :: t => finite_values t
  end.

Definition quantile (num den : nat) (col : list (option R)) : option R :=
  let vals := sort_values (finite_values col) in
  match vals with
  | [] => None
  | _ :: _ =>
      let n := List.length vals in
      let h := (num * (n - 1))%nat in
      let lo := (h / den)%nat in
      let hi := Nat.min (lo + 1) (n - 1) in
      let frac := INR (h mod den) / INR den in
      Some (nth lo vals 0 + (nth hi vals 0 - nth lo vals 0) * frac)
  end.

(** The first exception among the results of successive calls. *)
Fixpoint first_raised {A : Type} (results : list (outcome A)) : option exn :=
  match results with
  | [] => None
  | Returned _ :: rest => first_raised rest
  | Raised e :: _ => Some e
  end.

Definition returned_or {A : Type} (default : A) (result : outcome A) : A :=
  match result with
  | Returned a => a
  | Raised _ => default
  end.

Section Heston.

(** [quad f a b] is [scipy.integrate.quad(f, a, b, ...)[0]], the value of the
    integral of [f] over [[a, b]]. *)
Variable quad : (R -> R) -> R -> R -> R.

(** [nodes f a b] lists the points at which [quad] evaluates [f], in the
    order of evaluation. *)
Variable nodes : (R -> R) -> R -> R -> list R.

Definition heston_price
    (S K T r kappa theta sigma rho v0 : R) (option_type : string) : option R :=
  let phi_max := 85 in
  let P1 := 0.5 + (1 / PI)
                  * quad (fun phi => integrand phi S K T r kappa theta sigma rho v0 1)
                         0 phi_max in
  let P2 := 0.5 + (1 / PI)
                  * quad (fun phi => integrand phi S K T r kappa theta sigma rho v0 2)
                         0 phi_max in
  if (option_type =? "call")%string
  then Some (py_max (S * P1 - K * np_exp (- r * T) * P2) 0)
  else if (option_type =? "put")%string
  then Some (py_max (K * np_exp (- r * T) * (1 - P2) - S * (1 - P1)) 0)
  else None.

(** [quad] called on a Python function: an exception raised by the integrand at one
    of the evaluation points propagates. *)
Definition quad_py (f : R -> outcome R) (a b : R) : outcome R :=
  let values := fun x => returned_or 0 (f x) in
  match first_raised (map f (nodes values a b)) with
  | Some e => Raised e
  | None => Returned (quad values a b)
  end.

(** [heston_price] as Python runs it: the two integrals are computed, and
    may raise, before the kind is looked at. *)
Definition heston_price_py
    (S K T r kappa theta sigma rho v0 : R) (option_type : string)
    : outcome (option R) :=
  let phi_max := 85 in
  I1 <- quad_py (fun phi => integrand_py phi S K T r kappa theta sigma rho v0 1)
                0 phi_max ;;
  let P1 := 0.5 + (1 / PI) * I1 in
  I2 <- quad_py (fun phi => integrand_py phi S K T r kappa theta sigma rho v0 2)
                0 phi_max ;;
  let P2 := 0.5 + (1 / PI) * I2 in
  if (option_type =? "call")%string
  then Returned (Some (py_max (S * P1 - K * np_exp (- r * T) * P2) 0))
  else if (option_type =? "put")%string
  then Returned (Some (py_max (K * np_exp (- r * T) * (1 - P2)
                               - S * (1 - P1)) 0))
  else Returned None.

(** [model_price - market_price]: subtracting from [None] raises. *)
Definition py_sub (model_price : option R) (market_price : R) : outcome R :=
  match model_price with
  | Some p => Returned (p - market_price)
  | None => Raised TypeError
  end.

(** The loop of [calibration_objective]: every row is priced before its
    market price is tested. *)
Fixpoint objective_loop
    (kappa theta rho v0 r_fixed : R) (data : list quote) (error : R)
    : outcome R :=
  match data with
  | [] => Returned error
  | row :: rest =>
      let S := spot_price row in
      let K := strike_price row in
      let T := T_years row in
      let kind := py_strip (py_lower (option_type row)) in
      let market_price := real_market_price row in
      let sigma := implied_volatility row in
      model_price <-
        heston_price_py S K T r_fixed kappa theta sigma rho v0 kind ;;
      if Rgtb market_price 0
      then
        diff <- py_sub model_price market_price ;;
        rel <- py_div diff market_price ;;
        objective_loop kappa theta rho v0 r_fixed rest (error + rel ^ 2)
      else objective_loop kappa theta rho v0 r_fixed rest error
  end.

Definition calibration_objective
    (params : R * R * R * R) (data : list quote) (r_fixed : R) : outcome R :=
  let '(kappa, theta, rho, v0) := params in
  objective_loop kappa theta rho v0 r_fixed data 0.

(** The pricing pass ([df.apply] with the conditional expression): the market
    price is tested first, and [heston_price] is called on the rows that
    pass the test only; the second component lists those rows.  The price
    of a row is the value of the call when it returns. *)
Definition price_row (kappa theta rho v0 r_fixed : R) (row : quote)
    : priced * list quote :=
  if Rgtb (real_market_price row) 0
  then ({| base := row;
           heston_price_col :=
             heston_price (spot_price row) (strike_price row) (T_years row)
                          r_fixed kappa theta (implied_volatility row) rho v0
                          (option_type row) |},
        [row])
  else ({| base := row; heston_price_col := None |}, []).

Fixpoint price_pass (kappa theta rho v0 r_fixed : R) (df : list quote)
    : list priced * list quote :=
  match df with
  | [] => ([], [])
  | row :: rest =>
      let (p, calls) := price_row kappa theta rho v0 r_fixed row in
      let (ps, calls') := price_pass kappa theta rho v0 r_fixed rest in
      (p :: ps, calls ++ calls')
  end.

End Heston.

(** Deep out-of-the-money correction ([np.where]). *)
Definition dampen_row (p : priced) : priced :=
  {| base := base p;
     heston_price_col :=
       if Rgtb (strike_price (base p)) (spot_price (base p) * 1.5)
       then option_map (fun h => h * 0.95) (heston_price_col p)
       else heston_price_col p |}.

Definition dampen (df : list priced) : list priced := map dampen_row df.

(** The [error_heston] column. *)
Definition error_heston (p : priced) : option R :=
  option_map (fun h => Rabs (h - real_market_price (base p)))
             (heston_price_col p).

(** A comparison with NaN on either side is false. *)
Definition nan_ltb (x y : option R) : bool :=
  match x, y with
  | Some a, Some b => Rltb a b
  | _, _ => false
  end.

Definition remove_outliers (df : list priced) : list priced :=
  let threshold := quantile 975 1000 (map error_heston df) in
  filter (fun p => nan_ltb (error_heston p) threshold) df.

Definition has_price (p : priced) : bool :=
  match heston_price_col p with
  | Some _ => true
  | None => false
  end.

Definition dropna (df : list priced) : list priced := filter has_price df.

(** Lines 119-133 of the script, from the pricing pass to the last drop. *)
Definition post_process
    (quad : (R -> R) -> R -> R -> R)
    (kappa theta rho v0 r_fixed : R) (df : list quote) : list priced :=
  dropna
    (remove_outliers
       (dampen (fst (price_pass quad kappa theta rho v0 r_fixed df)))).

(** ** Quantities of the specification *)

(** [P_j = 0.5 + (1/PI) * integral over [0, 85] of the integrand], as the
    specification words it. *)
Definition probability
    (quad : (R -> R) -> R -> R -> R) (S K T r kappa theta sigma rho v0 : R)
    (br : HestonSpec.branch) : R :=
  1 / 2 + 1 / PI
          * quad (fun u => HestonSpec.integrand_at u K
                             (HestonSpec.phi u S T r kappa theta sigma rho v0 br))
                 0 85.

(** The calibration loss. *)
Definition normalized_kind (row : quote) : string :=
  py_strip (py_lower (option_type row)).


(** The call of [heston_price] made for one row of the calibration set. *)
Definition quote_price
    (quad : (R -> R) -> R -> R -> R) (nodes : (R -> R) -> R -> R -> list R)
    (params : R * R * R * R) (r_fixed : R) (row : quote)
    : outcome (option R) :=
  let '(kappa, theta, rho, v0) := params in
  heston_price_py quad nodes (spot_price row) (strike_price row) (T_years row)
    r_fixed kappa theta (implied_volatility row) rho v0 (normalized_kind row).

Definition squared_relative_error (model_price market_price : R) : R :=
  ((model_price - market_price) / market_price) ^ 2.

(** A row the objective gets past: pricing it returns, with a price when its
    market price is strictly positive. *)
Definition priceable
    (quad : (R -> R) -> R -> R -> R) (nodes : (R -> R) -> R -> R -> list R)
    (params : R * R * R * R) (r_fixed : R) (row : quote) : Prop :=
  exists p,
    quote_price quad nodes params r_fixed row = Returned p
    /\ (real_market_price row > 0 -> p <> None).

(** The value of [quad] depends only on the integrand at its nodes. *)
Definition quad_local
    (quad : (R -> R) -> R -> R -> R) (nodes : (R -> R) -> R -> R -> list R)
    : Prop :=
  forall f g a b,
    (forall x, In x (nodes f a b) -> f x = g x) -> quad f a b = quad g a b.

(** QUADPACK evaluates the integrand at interior points of the interval, and
    at least once. *)
Definition interior_nodes (nodes : (R -> R) -> R -> R -> list R) : Prop :=
  forall f a b,
    a < b -> nodes f a b <> [] /\ forall x, In x (nodes f a b) -> a < x < b.

Definition sum_list (l : list R) : R := fold_right Rplus 0 l.

(** Outlier rejection: ranks and thresholds. *)

(** [ceil (num * (n - 1) / den)]: the rank of the percentile among [n]
    sorted values. *)
Definition percentile_rank (num den n : nat) : nat :=
  let h := (num * (n - 1))%nat in
  (h / den + (if (h mod den =? 0)%nat then 0 else 1))%nat.

(** [below t x]: the value [x] is strictly below the threshold [t]. *)
Definition below (t : R) (x : R) : bool := Rltb x t.

(** The interpolated percentile of a non-empty sorted list. *)
Definition interpolate (num den : nat) (vals : list R) : R :=
  let n := List.length vals in
  let h := (num * (n - 1))%nat in
  let lo := (h / den)%nat in
  let hi := Nat.min (lo + 1) (n - 1) in
  let frac := INR (h mod den) / INR den in
  nth lo vals 0 + (nth hi vals 0 - nth lo vals 0) * frac.

(** ** Sample data for worked instances *)

Module Samples.

(** A one-point (midpoint) integrator and a null integrator. *)
Definition midpoint_quad (f : R -> R) (a b : R) : R := (b - a) * f ((a + b) / 2).
Definition null_quad (f : R -> R) (a b : R) : R := 0.

(** The one point at which the midpoint integrator evaluates. *)
Definition midpoint_nodes (f : R -> R) (a b : R) : list R := [(a + b) / 2].

Definition traded_call : quote :=
  {| instrument_name := "BTC-28MAR25-100-C";
     spot_price := 100; strike_price := 100; T_years := 1;
     option_type := " Call ";
     real_market_price := 2; implied_volatility := 0.5 |}.

Definition unquoted : quote :=
  {| instrument_name := "BTC-28MAR25-100-X";
     spot_price := 100; strike_price := 100; T_years := 1;
     option_type := "swap";
     real_market_price := 0; implied_volatility := 0.5 |}.

(** A row with a zero implied volatility and no positive market price. *)
Definition zero_vol : quote :=
  {| instrument_name := "BTC-28MAR25-100-P";
     spot_price := 100; strike_price := 100; T_years := 1;
     option_type := "put";
     real_market_price := 0; implied_volatility := 0 |}.

Definition traded_call_price : R :=
  Rmax (100 * probability midpoint_quad 100 100 1 0.045 2 0.04 0.5 (-0.7) 0.04
                HestonSpec.Branch1
        - 100 * exp (- (0.045 * 1))
          * probability midpoint_quad 100 100 1 0.045 2 0.04 0.5 (-0.7) 0.04
              HestonSpec.Branch2) 0.

Definition quoted (market : R) : quote :=
  {| instrument_name := "BTC-28MAR25-90-C";
     spot_price := 100; strike_price := 90; T_years := 1;
     option_type := "call";
     real_market_price := market; implied_volatility := 0.5 |}.

(** Model price [5] against market prices [4] and [2]: errors [1] and [3]. *)
Definition near : priced := {| base := quoted 4; heston_price_col := Some 5 |}.
Definition far : priced := {| base := quoted 2; heston_price_col := Some 5 |}.

(** A row without a market quote, hence without a Heston price. *)
Definition dead_row : priced := {| base := unquoted; heston_price_col := None |}.

(** A traded row whose kind is not an option kind. *)
Definition mislabelled : quote :=
  {| instrument_name := "BTC-PERPETUAL";
     spot_price := 100; strike_price := 100; T_years := 1;
     option_type := "future";
     real_market_price := 2; implied_volatility := 0.5 |}.

End Samples.

(** ** Kinds the pricers recognise *)

Definition recognised (kind : string) : bool :=
  ((kind =? "call") || (kind =? "put"))%string.

(** ** The scripts around the pricers *)

(** One row of the query result: options joined with spot prices and the
    Deribit quotes.  The last two columns come from a left join and may be
    missing. *)
Record db_row : Type := {
  db_instrument_name : string;
  db_strike_price : R;
  db_expiration_date : R;
  db_option_type : string;
  db_symbol : string;
  db_spot_price : R;
  db_real_market_price : option R;
  db_implied_volatility : option R
}.

Definition seconds_per_year : R := 365 * 24 * 60 * 60.

(** [(expiration_date - current_time).total_seconds() / (365*24*60*60)],
    both instants in seconds since the epoch. *)
Definition time_to_expiry (current_time : R) (row : db_row) : R :=
  (db_expiration_date row - current_time) / seconds_per_year.

(** *** heston_model.py, lines 51-58: the rows that reach calibration *)

Definition expires_late (current_time : R) (row : db_row) : bool :=
  Rgtb (time_to_expiry current_time row) (14 / 365).

(** [dropna(subset=["real_market_price", "implied_volatility"])]: a row with
    both values present becomes a quote, any other row is dropped. *)
Definition quote_of (current_time : R) (row : db_row) : option quote :=
  match db_real_market_price row, db_implied_volatility row with
  | Some market, Some vol =>
      Some {| instrument_name := db_instrument_name row;
              spot_price := db_spot_price row;
              strike_price := db_strike_price row;
              T_years := time_to_expiry current_time row;
              option_type := db_option_type row;
              real_market_price := market;
              implied_volatility := vol |}
  | _, _ => None
  end.

Fixpoint dropna_quotes (current_time : R) (df : list db_row) : list quote :=
  match df with
  | [] => []
  | row :: rest =>
      match quote_of current_time row with
      | Some q => q :: dropna_quotes current_time rest
      | None => dropna_quotes current_time rest
      end
  end.

Definition in_moneyness_window (q : quote) : bool :=
  Rltb (strike_price q) (2.5 * spot_price q)
  && Rgtb (strike_price q) (0.4 * spot_price q).

Definition heston_prepare (current_time : R) (df : list db_row) : list quote :=
  filter in_moneyness_window
    (dropna_quotes current_time (filter (expires_late current_time) df)).

(** Lines 112-117: the optimiser's result, or the default parameters. *)
Module OptimizeResult.

Record optimize_result : Type := {
  success : bool;
  x : R * R * R * R
}.

End OptimizeResult.

Definition chosen_parameters (result : OptimizeResult.optimize_result)
    : R * R * R * R :=
  if OptimizeResult.success result then OptimizeResult.x result
  else (2.0, 0.04, -0.7, 0.04).

(** Lines 51-58 and 119-133 together. *)
Definition heston_frame
    (quad : (R -> R) -> R -> R -> R)
    (result : OptimizeResult.optimize_result)
    (current_time : R) (df : list db_row) : list priced :=
  let '(kappa, theta, rho, v0) := chosen_parameters result in
  post_process quad kappa theta rho v0 0.045 (heston_prepare current_time df).

(** *** black_scholes.py, lines 77-140: the pricing run *)

(** A value of the [black_scholes_price] column as [apply] collects it: a
    number, a float NaN, or Python's [None]. *)
Inductive cell : Type :=
  | Num (value : R)
  | NaN
  | PyNone.

(** [black_scholes] on a row whose [sigma] may be NaN.  With a NaN [sigma]
    the comparison [sigma <= 0] is false, so the guard only tests [S], [K]
    and [T]; [sigma_sqrt_T], [d1] and [d2] are NaN, the comparisons on them
    are false, and the call and put formulas give NaN. *)
Definition black_scholes_cell
    (S K T r : R) (sigma : option R) (option_type : string) : outcome cell :=
  match sigma with
  | Some s =>
      v <- black_scholes S K T r s option_type ;;
      Returned (match v with Some price => Num price | None => PyNone end)
  | None =>
      if Rleb S 0 || Rleb K 0 || Rleb T 0 then Returned PyNone
      else if (option_type =? "call")%string then Returned NaN
      else if (option_type =? "put")%string then Returned NaN
      else Returned PyNone
  end.

(** [Series.median()] skips missing values and is the 0.5-quantile. *)
Definition median (col : list (option R)) : option R := quantile 1 2 col.

Definition fillna (fill : option R) (value : option R) : option R :=
  match value with
  | Some v => Some v
  | None => fill
  end.

Definition strike_below_cap (row : db_row) : bool :=
  Rltb (db_strike_price row) (1.5 * db_spot_price row).

(** The frame after the two filters, with the [sigma] column filled from the
    median of the implied volatilities of the whole query result. *)
Definition black_scholes_rows (current_time : R) (df : list db_row)
    : list (db_row * option R) :=
  let fill := median (map db_implied_volatility df) in
  map (fun row => (row, fillna fill (db_implied_volatility row)))
      (filter strike_below_cap (filter (expires_late current_time) df)).

Definition price_cell (current_time : R) (entry : db_row * option R)
    : outcome cell :=
  let (row, sigma) := entry in
  black_scholes_cell (db_spot_price row) (db_strike_price row)
    (time_to_expiry current_time row) 0.045 sigma (db_option_type row).

Fixpoint price_column (current_time : R) (rows : list (db_row * option R))
    : outcome (list cell) :=
  match rows with
  | [] => Returned []
  | entry :: rest =>
      c <- price_cell current_time entry ;;
      cs <- price_column current_time rest ;;
      Returned (c :: cs)
  end.

Definition is_pynone (c : cell) : bool :=
  match c with
  | PyNone => true
  | _ => false
  end.

(** The update loop: a column that holds only [None] keeps them as objects
    and [np.isnan(None)] raises; otherwise [None] has become NaN and the rows
    with NaN are skipped. *)
Fixpoint updates (rows : list (db_row * option R)) (cells : list cell)
    : list (string * R) :=
  match rows, cells with
  | (row, _) :: rows', Num price :: cells' =>
      (db_instrument_name row, price) :: updates rows' cells'
  | _ :: rows', _ :: cells' => updates rows' cells'
  | _, _ => []
  end.

Inductive script_error : Type :=
  | Propagated (e : exn)
  | ValueError
  | IsnanTypeError.

Inductive script_result : Type :=
  | Exited
  | Crashed (e : script_error)
  | Completed (written : list (string * R)).

(** Lines 105-124: the log loop over the rows drawn by [df.sample(100)].  A
    row read back from the frame holds Python floats, so the quotient
    [S / K] raises on a zero strike; the numpy calls and the division by the
    numpy float [sigma_sqrt_T] give inf or NaN instead of raising. *)
Definition log_row (entry : db_row * option R) : outcome unit :=
  let (row, _) := entry in
  q <- py_div (db_spot_price row) (db_strike_price row) ;;
  Returned tt.

Fixpoint log_loop (df_sample : list (db_row * option R)) : outcome unit :=
  match df_sample with
  | [] => Returned tt
  | entry :: rest =>
      u <- log_row entry ;;
      log_loop rest
  end.

(** The run, lines 77-140.  [sample] is the random draw made by
    [df.sample(100)] on a frame of at least 100 rows; on a shorter frame the
    call raises [ValueError] (on a frame left empty by the filters the
    assignment of the result of [apply] already does).  [Propagated] carries
    an exception of the pricing or of the log loop. *)
Definition black_scholes_script
    (sample : list (db_row * option R) -> list (db_row * option R))
    (current_time : R) (df : list db_row) : script_result :=
  match df with
  | [] => Exited
  | _ :: _ =>
      let rows := black_scholes_rows current_time df in
      match price_column current_time rows with
      | Raised e => Crashed (Propagated e)
      | Returned cells =>
          if (List.length rows <? 100)%nat then Crashed ValueError
          else
            match log_loop (sample rows) with
            | Raised e => Crashed (Propagated e)
            | Returned _ =>
                if forallb is_pynone cells then Crashed IsnanTypeError
                else Completed (updates rows cells)
            end
      end
  end.

(** ** The plotting scripts: matching expiries

    [heston_vis.py] and [black_scholes_vis.py] read the stored expiry of the
    model rows and of the market rows, divide both by [1000] (lines 72-73),
    join the two frames on symbol, strike and kind, and keep the pairs whose
    expiries differ by at most [tolerance] (lines 86-93, resp. 89-95).  The
    stored values are whole seconds: [fetch_crypto_options.py] (line 54) and
    [fetch_deribit_options.py] (line 51) divide the exchange's milliseconds
    by [1000] before storing. *)

Definition vis_expiration (expiration_date : Z) : Z :=
  (expiration_date / 1000)%Z.

Definition tolerance : Z := (3 * 60 * 60)%Z.

Definition within_tolerance (expiration_date_model expiration_date_real : Z)
    : bool :=
  (Z.abs (vis_expiration expiration_date_model
          - vis_expiration expiration_date_real) <=? tolerance)%Z.

(** * Properties *)

(** ** Black-Scholes *)

(** C1 (as amended).  For [S, K, T, sigma > 0] and any [r], a call is priced
    at [S Phi(d1) - K e^(-rT) Phi(d2)]; a put is priced at
    [K e^(-rT) Phi(-d2) - S Phi(-d1)] when [Phi(-d2)] is at least [0.01],
    with [d1 = (ln(S/K) + (r + sigma^2/2) T) / (sigma sqrt T)] and
    [d2 = d1 - sigma sqrt T]. *)
Theorem black_scholes_closed_form :
  forall S K T r sigma,
    0 < S -> 0 < K -> 0 < T -> 0 < sigma ->
    black_scholes S K T r sigma "call"
    = Returned (Some (BlackScholesSpec.call S K T r sigma))
    /\ (0.01 <= NormalCdf.Phi (- BlackScholesSpec.d2 S K T r sigma) ->
        black_scholes S K T r sigma "put"
        = Returned (Some (BlackScholesSpec.put S K T r sigma))).
Proof.
  intros S K T r sigma HS HK HT Hsig. split.
  - rewrite black_scholes_valid by assumption. reflexivity.
  - intro Hp. rewrite black_scholes_valid by assumption.
    unfold black_scholes_value. cbn [String.eqb Ascii.eqb Bool.eqb andb].
    apply Rltb_false in Hp. rewrite Hp. reflexivity.
Qed.

Lemma black_scholes_closed_form_witness :
  black_scholes 100 100 1 0.02 0.2 "call"
  = Returned (Some (BlackScholesSpec.call 100 100 1 0.02 0.2))
  /\ black_scholes 100 100 1 0.02 0.2 "put"
     = Returned (Some (BlackScholesSpec.put 100 100 1 0.02 0.2)).
Proof.
  destruct (black_scholes_closed_form 100 100 1 0.02 0.2) as [Hc Hp];
    [lra | lra | lra | lra |].
  split; [exact Hc | apply Hp; exact Worked.atm_itm_probability].
Defined.

(** C1 as stated fails on a deep out-of-the-money put: with [S = K = 100],
    [T = 4], [r = 0.26], [sigma = 0.2] the function returns [0] while the
    closed form is positive. *)
Lemma black_scholes_closed_form_put_counterexample :
  0 < 100 /\ 0 < 4 /\ 0 < 0.2
  /\ black_scholes 100 100 4 0.26 0.2 "put" = Returned (Some 0)
  /\ 0 < BlackScholesSpec.put 100 100 4 0.26 0.2
  /\ black_scholes 100 100 4 0.26 0.2 "put"
     <> Returned (Some (BlackScholesSpec.put 100 100 4 0.26 0.2)).
Proof.
  repeat split; try lra.
  - exact Worked.deep_put_floored.
  - exact Worked.deep_put_closed_form_pos.
  - rewrite Worked.deep_put_floored. intro H. injection H as H.
    generalize Worked.deep_put_closed_form_pos. lra.
Qed.

(** C5 (as amended).  Put-call parity: for [S, K, T, sigma > 0] and any [r],
    when the put is not floored ([Phi(-d2) >= 0.01]) the call price minus the
    put price is [S - K e^(-rT)]. *)
Theorem put_call_parity :
  forall S K T r sigma,
    0 < S -> 0 < K -> 0 < T -> 0 < sigma ->
    0.01 <= NormalCdf.Phi (- BlackScholesSpec.d2 S K T r sigma) ->
    exists c p,
      black_scholes S K T r sigma "call" = Returned (Some c)
      /\ black_scholes S K T r sigma "put" = Returned (Some p)
      /\ c - p = S - K * exp (- (r * T)).
Proof.
  intros S K T r sigma HS HK HT Hsig Hp.
  exists (BlackScholesSpec.call S K T r sigma),
         (BlackScholesSpec.put S K T r sigma).
  split; [| split].
  - rewrite black_scholes_valid by assumption. reflexivity.
  - rewrite black_scholes_valid by assumption.
    unfold black_scholes_value. cbn [String.eqb Ascii.eqb Bool.eqb andb].
    apply Rltb_false in Hp. rewrite Hp. reflexivity.
  - apply closed_form_parity.
Qed.

Lemma put_call_parity_witness :
  exists c p,
    black_scholes 100 100 1 0.02 0.2 "call" = Returned (Some c)
    /\ black_scholes 100 100 1 0.02 0.2 "put" = Returned (Some p)
    /\ c - p = 100 - 100 * exp (- (0.02 * 1)).
Proof.
  apply (put_call_parity 100 100 1 0.02 0.2); try lra.
  exact Worked.atm_itm_probability.
Defined.

(** C5 as stated fails on the deep out-of-the-money input: the put is
    floored to [0], and the call alone is not [S - K e^(-rT)]. *)
Lemma put_call_parity_counterexample :
  0 < 100 /\ 0 < 4 /\ 0 < 0.2
  /\ black_scholes 100 100 4 0.26 0.2 "call"
     = Returned (Some (BlackScholesSpec.call 100 100 4 0.26 0.2))
  /\ black_scholes 100 100 4 0.26 0.2 "put" = Returned (Some 0)
  /\ BlackScholesSpec.call 100 100 4 0.26 0.2 - 0
     <> 100 - 100 * exp (- (0.26 * 4)).
Proof.
  repeat split; try lra.
  - exact Worked.deep_call.
  - exact Worked.deep_put_floored.
  - intro H.
    generalize (closed_form_parity 100 100 4 0.26 0.2).
    generalize Worked.deep_put_closed_form_pos. lra.
Qed.

(** C6.  For [S, K, T, sigma > 0], a put whose in-the-money probability
    [Phi(-d2)] is below [0.01] is priced at exactly [0]; a call is priced by
    the closed form whatever [Phi(-d2)] is. *)
Theorem black_scholes_put_floor :
  forall S K T r sigma,
    0 < S -> 0 < K -> 0 < T -> 0 < sigma ->
    (NormalCdf.Phi (- BlackScholesSpec.d2 S K T r sigma) < 0.01 ->
     black_scholes S K T r sigma "put" = Returned (Some 0))
    /\ black_scholes S K T r sigma "call"
       = Returned (Some (BlackScholesSpec.call S K T r sigma)).
Proof.
  intros S K T r sigma HS HK HT Hsig. split.
  - intro Hp. rewrite black_scholes_valid by assumption.
    unfold black_scholes_value. cbn [String.eqb Ascii.eqb Bool.eqb andb].
    apply Rltb_true in Hp. rewrite Hp. reflexivity.
  - rewrite black_scholes_valid by assumption. reflexivity.
Qed.

Lemma black_scholes_put_floor_witness :
  NormalCdf.Phi (- BlackScholesSpec.d2 100 100 4 0.26 0.2) < 0.01
  /\ black_scholes 100 100 4 0.26 0.2 "put" = Returned (Some 0)
  /\ black_scholes 100 100 4 0.26 0.2 "call"
     = Returned (Some (BlackScholesSpec.call 100 100 4 0.26 0.2)).
Proof.
  destruct (black_scholes_put_floor 100 100 4 0.26 0.2) as [Hp Hc];
    [lra | lra | lra | lra |].
  split; [exact Worked.deep_itm_probability |].
  split; [apply Hp; exact Worked.deep_itm_probability | exact Hc].
Defined.

(** *** Python floats *)

Module PyFloatFacts.

Import PyFloat.

Lemma fle_zero_false :
  forall x, fle x (Finite 0) = false <-> positive_or_nan x.
Proof.
  intros [a | | |]; cbn [fle positive_or_nan].
  - apply Rleb_false.
  - tauto.
  - split; [discriminate | tauto].
  - tauto.
Qed.

Lemma invalid_false :
  forall S K T sigma,
    invalid S K T sigma = false <->
    positive_or_nan S /\ positive_or_nan K /\ positive_or_nan T
    /\ positive_or_nan sigma.
Proof.
  intros S K T sigma. unfold invalid.
  rewrite !orb_false_iff, !fle_zero_false. tauto.
Qed.

Lemma py_truediv_returns :
  forall x y, positive_or_nan y -> py_truediv x y = Returned (np_truediv x y).
Proof.
  intros x [b | | |] H; cbn [py_truediv positive_or_nan] in *;
    try reflexivity; try contradiction.
  assert (E : Reqb b 0 = false) by (apply Reqb_false; lra).
  now rewrite E.
Qed.

Lemma np_sqrt_positive :
  forall x, positive_or_nan x -> positive_or_nan (np_sqrt x).
Proof.
  intros [a | | |] H; cbn [np_sqrt positive_or_nan] in *; try tauto.
  assert (E : Rleb 0 a = true) by (apply Rleb_true; lra).
  rewrite E. cbn. now apply sqrt_lt_R0.
Qed.

Lemma fmul_positive :
  forall x y,
    positive_or_nan x -> positive_or_nan y -> positive_or_nan (fmul x y).
Proof.
  intros [a | | |] [b | | |] Hx Hy;
    cbn [fmul positive_or_nan scale_inf] in *; try tauto.
  - now apply Rmult_lt_0_compat.
  - unfold scale_inf. assert (E : Rltb 0 a = true) by now apply Rltb_true.
    now rewrite E.
  - unfold scale_inf. assert (E : Rltb 0 b = true) by now apply Rltb_true.
    now rewrite E.
Qed.

Lemma py_pow2_outcome :
  forall x,
    (overflows x = true /\ py_pow2 x = Raised OverflowError)
    \/ (overflows x = false /\ exists v, py_pow2 x = Returned v).
Proof.
  intros [a | | |]; cbn [py_pow2 overflows].
  - destruct (Rltb float_max (a ^ 2)); [left | right]; eauto.
  - right; eauto.
  - right; eauto.
  - right; eauto.
Qed.

(** The outcome of the body: it raises exactly on an overflow of [sigma**2]
    behind the guard, and otherwise returns [None] exactly on an invalid
    input or an unrecognised kind. *)
Lemma black_scholes_body_outcome :
  forall S K T r sigma option_type,
    (invalid S K T sigma = true
     /\ black_scholes_body S K T r sigma option_type = Returned None)
    \/ (invalid S K T sigma = false /\ overflows sigma = true
        /\ black_scholes_body S K T r sigma option_type
           = Raised OverflowError)
    \/ (invalid S K T sigma = false /\ overflows sigma = false
        /\ recognised option_type = false
        /\ black_scholes_body S K T r sigma option_type = Returned None)
    \/ (invalid S K T sigma = false /\ overflows sigma = false
        /\ recognised option_type = true
        /\ exists price,
             black_scholes_body S K T r sigma option_type
             = Returned (Some price)).
Proof.
  intros S K T r sigma option_type.
  destruct (invalid S K T sigma) eqn:Hinv.
  - left. split; [reflexivity |].
    unfold black_scholes_body. cbv zeta. unfold invalid in Hinv.
    now rewrite Hinv.
  - right. assert (Hpos := proj1 (invalid_false S K T sigma) Hinv).
    destruct Hpos as (HS & HK & HT & Hsig).
    assert (Hssq : fle (fmul sigma (np_sqrt T)) (Finite 0) = false).
    { apply fle_zero_false, fmul_positive; [exact Hsig |].
      now apply np_sqrt_positive. }
    unfold black_scholes_body. cbv zeta. unfold invalid in Hinv.
    rewrite Hinv, (py_truediv_returns S K HK). cbn [bind]. rewrite Hssq.
    destruct (py_pow2_outcome sigma) as [[Hov Hp] | [Hov [v Hp]]];
      rewrite Hp; cbn [bind].
    + left. auto.
    + right. unfold recognised.
      destruct (option_type =? "put")%string eqn:Hput;
        destruct (option_type =? "call")%string eqn:Hcall;
        cbn [andb orb].
      * right. repeat split; try assumption.
        destruct (flt _ _); eexists; reflexivity.
      * right. repeat split; try assumption.
        destruct (flt _ _); eexists; reflexivity.
      * right. repeat split; try assumption. eexists; reflexivity.
      * left. auto.
Qed.

Lemma float_max_large : 1 <= float_max.
Proof.
  unfold float_max.
  assert (H1 : 1 <= 2 ^ 1023) by (apply pow_R1_Rle; lra).
  assert (H2 : / 2 ^ 52 <= 1).
  { rewrite <- Rinv_1. apply Rinv_le_contravar; [lra |].
    apply pow_R1_Rle. lra. }
  nra.
Qed.

Lemma square_overflows : overflows (Finite (2 ^ 600)) = true.
Proof.
  cbn [overflows]. apply Rltb_true. unfold float_max.
  rewrite <- pow_mult.
  apply Rlt_trans with (2 * 2 ^ 1023).
  - assert (0 < 2 ^ 1023) by (apply pow_lt; lra).
    assert (0 < / 2 ^ 52) by (apply Rinv_0_lt_compat, pow_lt; lra).
    nra.
  - change (2 * 2 ^ 1023) with (2 ^ 1024). apply Rlt_pow; [lra | lia].
Qed.

End PyFloatFacts.

Module PyFloatSamples.

Import PyFloat.

(** [sigma = 2^600]: the guard passes, [sigma**2] raises [OverflowError], and
    the handler turns it into [None]. *)
Lemma overflow_caught :
  black_scholes_body (Finite 100) (Finite 100) (Finite 1) (Finite 0.05)
    (Finite (2 ^ 600)) "call"
  = Raised OverflowError
  /\ black_scholes (Finite 100) (Finite 100) (Finite 1) (Finite 0.05)
       (Finite (2 ^ 600)) "call"
     = Returned None.
Proof.
  assert (Hbody :
    black_scholes_body (Finite 100) (Finite 100) (Finite 1) (Finite 0.05)
      (Finite (2 ^ 600)) "call" = Raised OverflowError).
  { assert (Hvalid : invalid (Finite 100) (Finite 100) (Finite 1)
                        (Finite (2 ^ 600)) = false).
    { apply PyFloatFacts.invalid_false. cbn [positive_or_nan].
      repeat split; lra. }
    destruct (PyFloatFacts.black_scholes_body_outcome (Finite 100)
                (Finite 100) (Finite 1) (Finite 0.05) (Finite (2 ^ 600))
                "call")
      as [[Hinv _] | [(_ & _ & H) | [(_ & Hov & _) | (_ & Hov & _)]]].
    - rewrite Hvalid in Hinv. discriminate.
    - exact H.
    - rewrite PyFloatFacts.square_overflows in Hov. discriminate.
    - rewrite PyFloatFacts.square_overflows in Hov. discriminate. }
  split; [exact Hbody |]. unfold black_scholes. now rewrite Hbody.
Qed.

(** A NaN spot passes the guard and gives a NaN price. *)
Lemma nan_spot :
  black_scholes FNaN (Finite 100) (Finite 1) (Finite 0.05) (Finite 0.2) "call"
  = Returned (Some FNaN).
Proof.
  unfold black_scholes, black_scholes_body. cbv zeta.
  assert (G : fle FNaN (Finite 0) || fle (Finite 100) (Finite 0)
              || fle (Finite 1) (Finite 0) || fle (Finite 0.2) (Finite 0)
              = false).
  { cbn [fle orb].
    assert (H1 : Rleb 100 0 = false) by (apply Rleb_false; lra).
    assert (H2 : Rleb 1 0 = false) by (apply Rleb_false; lra).
    assert (H3 : Rleb 0.2 0 = false) by (apply Rleb_false; lra).
    now rewrite H1, H2, H3. }
  rewrite G. cbn [py_truediv].
  assert (D : Reqb 100 0 = false) by (apply Reqb_false; lra).
  rewrite D. cbn [bind np_truediv np_log np_sqrt].
  assert (Q : Rleb 0 1 = true) by (apply Rleb_true; lra).
  rewrite Q. cbn [fmul fle].
  assert (P : Rleb (0.2 * sqrt 1) 0 = false).
  { apply Rleb_false. rewrite sqrt_1. lra. }
  rewrite P. cbn [py_pow2].
  assert (O : Rltb float_max (0.2 ^ 2) = false).
  { apply Rltb_false. generalize PyFloatFacts.float_max_large. lra. }
  rewrite O. cbn [bind fadd fmul np_truediv fsub fneg norm_cdf flt andb].
  reflexivity.
Qed.

End PyFloatSamples.

(** On finite inputs whose square does not overflow, the function on floats
    is the function on reals. *)
Lemma black_scholes_float_agrees :
  forall S K T r sigma option_type,
    sigma ^ 2 <= PyFloat.float_max ->
    exists v,
      black_scholes S K T r sigma option_type = Returned v
      /\ PyFloat.black_scholes (PyFloat.Finite S) (PyFloat.Finite K)
           (PyFloat.Finite T) (PyFloat.Finite r) (PyFloat.Finite sigma)
           option_type
         = Returned (option_map PyFloat.Finite v).
Proof.
  intros S K T r sigma option_type Hov.
  unfold black_scholes, PyFloat.black_scholes, black_scholes_body,
    PyFloat.black_scholes_body. cbv zeta. cbn [PyFloat.fle].
  destruct (Rleb S 0 || Rleb K 0 || Rleb T 0 || Rleb sigma 0) eqn:G.
  - exists None. split; reflexivity.
  - apply orb_false_iff in G. destruct G as [G G4].
    apply orb_false_iff in G. destruct G as [G G3].
    apply orb_false_iff in G. destruct G as [G1 G2].
    apply Rleb_false in G1, G2, G3, G4.
    assert (D : Reqb K 0 = false) by (apply Reqb_false; lra).
    unfold py_div. cbn [PyFloat.py_truediv]. rewrite D.
    cbn [bind PyFloat.np_truediv]. rewrite D.
    assert (Q : 0 < S / K) by (apply Rdiv_lt_0_compat; lra).
    cbn [PyFloat.np_log PyFloat.np_sqrt].
    assert (L : Rltb 0 (S / K) = true) by now apply Rltb_true.
    assert (R0 : Rleb 0 T = true) by (apply Rleb_true; lra).
    rewrite L, R0. cbn [PyFloat.fmul PyFloat.fle]. unfold np_sqrt.
    assert (Hs : 0 < sigma * sqrt T).
    { apply Rmult_lt_0_compat; [lra | apply sqrt_lt_R0; lra]. }
    assert (P : Rleb (sigma * sqrt T) 0 = false) by (apply Rleb_false; lra).
    assert (Z : Reqb (sigma * sqrt T) 0 = false) by (apply Reqb_false; lra).
    rewrite P, Z. cbn [bind PyFloat.py_pow2].
    assert (O : Rltb PyFloat.float_max (sigma ^ 2) = false)
      by now apply Rltb_false.
    rewrite O.
    cbn [bind PyFloat.fadd PyFloat.fmul PyFloat.np_truediv PyFloat.fsub
         PyFloat.fneg PyFloat.norm_cdf PyFloat.flt PyFloat.np_exp].
    rewrite Z. unfold PyFloat.fsub.
    cbn [PyFloat.fadd PyFloat.fmul PyFloat.fneg PyFloat.norm_cdf PyFloat.flt
         PyFloat.np_exp].
    unfold norm_cdf, np_log, np_exp, Rminus.
    destruct ((option_type =? "put")%string && Rltb _ 0.01).
    + exists (Some 0). split; reflexivity.
    + destruct (option_type =? "call")%string.
      * eexists. split; reflexivity.
      * destruct (option_type =? "put")%string.
        -- eexists. split; reflexivity.
        -- exists None. split; reflexivity.
Qed.

(** C9.  On Python floats, infinities and NaN included, and for every kind,
    [black_scholes] returns: what it returns is [None] exactly when the guard
    rejects the input, when [sigma**2] overflows, or when the kind is neither
    ["call"] nor ["put"], and a float otherwise.  The only exception raised
    inside is the [OverflowError] of [sigma**2], and the handler turns it
    into [None]. *)
Theorem black_scholes_total :
  forall S K T r sigma option_type,
    exists result,
      PyFloat.black_scholes S K T r sigma option_type = Returned result
      /\ (result = None <->
          PyFloat.invalid S K T sigma = true
          \/ PyFloat.overflows sigma = true
          \/ recognised option_type = false)
      /\ (forall e,
            PyFloat.black_scholes_body S K T r sigma option_type = Raised e ->
            e = OverflowError /\ result = None).
Proof.
  intros S K T r sigma option_type. unfold PyFloat.black_scholes.
  destruct (PyFloatFacts.black_scholes_body_outcome S K T r sigma option_type)
    as [(Hinv & H) | [(Hinv & Hov & H) | [(Hinv & Hov & Hkind & H)
                                         | (Hinv & Hov & Hkind & price & H)]]];
    rewrite H; cbn [try_except].
  - exists None. split; [reflexivity |]. split; [tauto | discriminate].
  - exists None. split; [reflexivity |]. split; [tauto |].
    intros e He. injection He as <-. split; reflexivity.
  - exists None. split; [reflexivity |]. split; [tauto | discriminate].
  - exists (Some price). split; [reflexivity |]. split; [| discriminate].
    split; [discriminate |].
    intros [H1 | [H1 | H1]]; congruence.
Qed.

(** ** Heston characteristic function and pricer *)

(** C2.  Branch 1 uses [b = kappa - rho sigma] and weight [+0.5], branch 2
    uses [b = kappa] and weight [-0.5]; for [j = 1] and [j = 2], [heston_cf]
    is [exp (C + D v0 + i u ln S)] with [d], [g], [C], [D] as the
    specification defines them. *)
Theorem heston_cf_formula :
  forall u S T r kappa theta sigma rho v0,
    (HestonSpec.branch_b kappa sigma rho HestonSpec.Branch1 = kappa - rho * sigma
     /\ HestonSpec.branch_weight HestonSpec.Branch1 = 0.5)
    /\ (HestonSpec.branch_b kappa sigma rho HestonSpec.Branch2 = kappa
        /\ HestonSpec.branch_weight HestonSpec.Branch2 = -0.5)
    /\ heston_cf u S T r kappa theta sigma rho v0 1
       = Cexp (HestonSpec.C_term u T r kappa theta sigma rho HestonSpec.Branch1
               + HestonSpec.D_term u T kappa sigma rho HestonSpec.Branch1
                 * RtoC v0
               + Ci * RtoC u * RtoC (ln S))%C
    /\ heston_cf u S T r kappa theta sigma rho v0 2
       = Cexp (HestonSpec.C_term u T r kappa theta sigma rho HestonSpec.Branch2
               + HestonSpec.D_term u T kappa sigma rho HestonSpec.Branch2
                 * RtoC v0
               + Ci * RtoC u * RtoC (ln S))%C.
Proof.
  intros u S T r kappa theta sigma rho v0.
  split; [| split; [| split]].
  - split; [reflexivity | cbn; lra].
  - split; [reflexivity | cbn; lra].
  - rewrite (heston_cf_branch u S T r kappa theta sigma rho v0 1
               HestonSpec.Branch1) by (left; split; reflexivity).
    reflexivity.
  - rewrite (heston_cf_branch u S T r kappa theta sigma rho v0 2
               HestonSpec.Branch2) by (right; split; [discriminate | reflexivity]).
    reflexivity.
Qed.

Lemma py_max_Rmax : forall a b, py_max a b = Rmax a b.
Proof.
  intros a b. unfold py_max, Rmax.
  destruct (Rle_dec a b) as [Hle | Hgt].
  - destruct (Rgtb b a) eqn:E; [reflexivity |].
    apply Rgtb_false in E. lra.
  - destruct (Rgtb b a) eqn:E; [| reflexivity].
    apply Rgtb_true in E. lra.
Qed.

Lemma integrand_spec :
  forall u S K T r kappa theta sigma rho v0 j br,
    (j = 1%Z /\ br = HestonSpec.Branch1) \/ (j <> 1%Z /\ br = HestonSpec.Branch2) ->
    integrand u S K T r kappa theta sigma rho v0 j
    = HestonSpec.integrand_at u K
        (HestonSpec.phi u S T r kappa theta sigma rho v0 br).
Proof.
  intros u S K T r kappa theta sigma rho v0 j br Hj.
  unfold integrand, HestonSpec.integrand_at.
  rewrite (heston_cf_branch u S T r kappa theta sigma rho v0 j br Hj).
  unfold Reqb. destruct (Req_dec_T u 0); cbn [negb]; [reflexivity |].
  f_equal. f_equal. f_equal. f_equal. unfold np_log. ring.
Qed.

Section HestonPriceFacts.

Variable quad : (R -> R) -> R -> R -> R.
Variables S K T r kappa theta sigma rho v0 : R.

Lemma code_P1 :
  0.5 + 1 / PI
        * quad (fun phi => integrand phi S K T r kappa theta sigma rho v0 1) 0 85
  = probability quad S K T r kappa theta sigma rho v0 HestonSpec.Branch1.
Proof.
  unfold probability. rewrite half_literal. f_equal. f_equal. f_equal.
  apply functional_extensionality. intro u.
  apply integrand_spec. left. split; reflexivity.
Qed.

Lemma code_P2 :
  0.5 + 1 / PI
        * quad (fun phi => integrand phi S K T r kappa theta sigma rho v0 2) 0 85
  = probability quad S K T r kappa theta sigma rho v0 HestonSpec.Branch2.
Proof.
  unfold probability. rewrite half_literal. f_equal. f_equal. f_equal.
  apply functional_extensionality. intro u.
  apply integrand_spec. right. split; [discriminate | reflexivity].
Qed.

Lemma heston_price_call :
  heston_price quad S K T r kappa theta sigma rho v0 "call"
  = Some (Rmax (S * probability quad S K T r kappa theta sigma rho v0 HestonSpec.Branch1
                - K * exp (- (r * T)) * probability quad S K T r kappa theta sigma rho v0 HestonSpec.Branch2) 0).
Proof.
  unfold heston_price. cbn [String.eqb Ascii.eqb Bool.eqb].
  rewrite code_P1, code_P2, code_discount_eq, py_max_Rmax. reflexivity.
Qed.

Lemma heston_price_put :
  heston_price quad S K T r kappa theta sigma rho v0 "put"
  = Some (Rmax (K * exp (- (r * T)) * (1 - probability quad S K T r kappa theta sigma rho v0 HestonSpec.Branch2)
                - S * (1 - probability quad S K T r kappa theta sigma rho v0 HestonSpec.Branch1)) 0).
Proof.
  unfold heston_price. cbn [String.eqb Ascii.eqb Bool.eqb].
  rewrite code_P1, code_P2, code_discount_eq, py_max_Rmax. reflexivity.
Qed.

Lemma heston_price_unknown :
  forall option_type,
    option_type <> "call"%string -> option_type <> "put"%string ->
    heston_price quad S K T r kappa theta sigma rho v0 option_type = None.
Proof.
  intros option_type Hc Hp. unfold heston_price.
  apply String.eqb_neq in Hc, Hp. rewrite Hc, Hp. reflexivity.
Qed.

Lemma heston_price_known :
  forall option_type,
    option_type = "call"%string \/ option_type = "put"%string ->
    exists p, heston_price quad S K T r kappa theta sigma rho v0 option_type
              = Some p /\ 0 <= p.
Proof.
  intros option_type [-> | ->].
  - rewrite heston_price_call. eexists; split; [reflexivity | apply Rmax_r].
  - rewrite heston_price_put. eexists; split; [reflexivity | apply Rmax_r].
Qed.

End HestonPriceFacts.

(** C3.  For a call [heston_price] returns [max (S P1 - K e^(-rT) P2, 0)] and
    for a put [max (K e^(-rT) (1 - P2) - S (1 - P1), 0)], where
    [P_j = 0.5 + (1/PI) * integral over [0, 85]] of the real-part integrand,
    which is [0] at [u = 0]; both prices are non-negative. *)
Theorem heston_price_formula :
  forall quad S K T r kappa theta sigma rho v0,
    let P1 := probability quad S K T r kappa theta sigma rho v0 HestonSpec.Branch1 in
    let P2 := probability quad S K T r kappa theta sigma rho v0 HestonSpec.Branch2 in
    let call := Rmax (S * P1 - K * exp (- (r * T)) * P2) 0 in
    let put := Rmax (K * exp (- (r * T)) * (1 - P2) - S * (1 - P1)) 0 in
    heston_price quad S K T r kappa theta sigma rho v0 "call" = Some call
    /\ heston_price quad S K T r kappa theta sigma rho v0 "put" = Some put
    /\ 0 <= call /\ 0 <= put
    /\ HestonSpec.integrand_at 0 K
         (HestonSpec.phi 0 S T r kappa theta sigma rho v0 HestonSpec.Branch1) = 0
    /\ HestonSpec.integrand_at 0 K
         (HestonSpec.phi 0 S T r kappa theta sigma rho v0 HestonSpec.Branch2) = 0.
Proof.
  intros quad S K T r kappa theta sigma rho v0 P1 P2 call put.
  split; [apply heston_price_call |].
  split; [apply heston_price_put |].
  split; [apply Rmax_r |]. split; [apply Rmax_r |].
  unfold HestonSpec.integrand_at.
  destruct (Req_dec_T 0 0) as [_ | Hne]; [split; reflexivity | now elim Hne].
Qed.

(** C7.  Invalid input yields no price: [black_scholes] returns [None] when
    [S], [K], [T] or [sigma] is not positive, and both [black_scholes] and
    [heston_price] return [None] for a kind other than call and put. *)
Theorem invalid_input_fails :
  forall quad S K T r sigma kappa theta vol rho v0 option_type,
    (S <= 0 \/ K <= 0 \/ T <= 0 \/ sigma <= 0 ->
     black_scholes S K T r sigma option_type = Returned None)
    /\ (option_type <> "call"%string -> option_type <> "put"%string ->
        black_scholes S K T r sigma option_type = Returned None
        /\ heston_price quad S K T r kappa theta vol rho v0 option_type = None).
Proof.
  intros quad S K T r sigma kappa theta vol rho v0 option_type. split.
  - apply black_scholes_invalid.
  - intros Hc Hp. split; [| now apply heston_price_unknown].
    destruct (Rle_dec S 0); [apply black_scholes_invalid; tauto |].
    destruct (Rle_dec K 0); [apply black_scholes_invalid; tauto |].
    destruct (Rle_dec T 0); [apply black_scholes_invalid; tauto |].
    destruct (Rle_dec sigma 0); [apply black_scholes_invalid; tauto |].
    rewrite black_scholes_valid by lra.
    unfold black_scholes_value.
    apply String.eqb_neq in Hc, Hp. rewrite Hc, Hp. reflexivity.
Qed.

Lemma invalid_input_fails_witness :
  black_scholes (-1) 100 1 0.05 0.2 "call" = Returned None
  /\ black_scholes 100 100 1 0.05 0.2 "straddle" = Returned None
  /\ heston_price (fun _ _ _ => 0) 100 100 1 0.05 2 0.04 0.2 (-0.7) 0.04
       "straddle" = None.
Proof.
  destruct (invalid_input_fails (fun _ _ _ => 0) (-1) 100 1 0.05 0.2
              2 0.04 0.2 (-0.7) 0.04 "call") as [H1 _].
  destruct (invalid_input_fails (fun _ _ _ => 0) 100 100 1 0.05 0.2
              2 0.04 0.2 (-0.7) 0.04 "straddle") as [_ H2].
  split; [apply H1; left; lra |].
  apply H2; discriminate.
Defined.

(** ** When the Heston functions raise, and when they return *)

Lemma Cdiv_py_value :
  forall z w v, Cdiv_py z w = Returned v -> v = (z / w)%C.
Proof.
  intros z w v H. unfold Cdiv_py in H.
  destruct (Ceq0b w); [discriminate | now injection H].
Qed.

Lemma py_div_value :
  forall x y v, py_div x y = Returned v -> v = x / y.
Proof.
  intros x y v H. unfold py_div in H.
  destruct (Reqb y 0); [discriminate | now injection H].
Qed.

Lemma heston_cf_py_value :
  forall phi S T r kappa theta sigma rho v0 j v,
    heston_cf_py phi S T r kappa theta sigma rho v0 j = Returned v ->
    v = heston_cf phi S T r kappa theta sigma rho v0 j.
Proof.
  intros phi S T r kappa theta sigma rho v0 j v H.
  unfold heston_cf_py in H. cbv zeta in H.
  destruct (Cdiv_py _ _) as [g |] eqn:Eg in H; cbn [bind] in H; [| discriminate].
  destruct (py_div _ _) as [c0 |] eqn:Ec in H; cbn [bind] in H; [| discriminate].
  destruct (Cdiv_py _ (RtoC 1 - g)%C) as [q |] eqn:Eq in H; cbn [bind] in H;
    [| discriminate].
  destruct (Cdiv_py _ (RtoC (sigma ^ 2))) as [e0 |] eqn:E0 in H;
    cbn [bind] in H; [| discriminate].
  destruct (Cdiv_py _ _) as [e1 |] eqn:E1 in H; cbn [bind] in H;
    [| discriminate].
  injection H as <-.
  apply Cdiv_py_value in Eg, Eq, E0, E1. apply py_div_value in Ec.
  subst. reflexivity.
Qed.

Lemma integrand_py_value :
  forall phi S K T r kappa theta sigma rho v0 j v,
    integrand_py phi S K T r kappa theta sigma rho v0 j = Returned v ->
    v = integrand phi S K T r kappa theta sigma rho v0 j.
Proof.
  intros phi S K T r kappa theta sigma rho v0 j v H.
  unfold integrand_py, integrand in *. cbv zeta in *.
  destruct (negb (Reqb phi 0)); [| now injection H].
  destruct (heston_cf_py _ _ _ _ _ _ _ _ _ _) as [cf |] eqn:Ecf;
    cbn [bind] in H; [| discriminate].
  destruct (Cdiv_py _ _) as [q |] eqn:Eq; cbn [bind] in H; [| discriminate].
  injection H as <-.
  apply heston_cf_py_value in Ecf. apply Cdiv_py_value in Eq. now subst.
Qed.

Lemma Cnorm2_mul : forall z w, Cnorm2 (z * w)%C = Cnorm2 z * Cnorm2 w.
Proof. intros [a b] [c d]. unfold Cnorm2, Cmul; cbn [fst snd]. ring. Qed.

Lemma Cnorm2_inv : forall w, Cnorm2 w <> 0 -> Cnorm2 (Cinv w) = / Cnorm2 w.
Proof.
  intros [c d] H. unfold Cnorm2, Cinv in *; cbn [fst snd] in *.
  field. exact H.
Qed.

Lemma Cnorm2_exp : forall w, Cnorm2 (Cexp w) = exp (fst w) ^ 2.
Proof.
  intros [a b]. unfold Cnorm2, Cexp; cbn [fst snd].
  generalize (sin2_cos2 b). unfold Rsqr. intro H.
  replace ((exp a * cos b) ^ 2 + (exp a * sin b) ^ 2)
    with (exp a ^ 2 * (sin b * sin b + cos b * cos b)) by ring.
  rewrite H. ring.
Qed.

Lemma Cnorm2_nonneg : forall z, 0 <= Cnorm2 z.
Proof. intros [a b]. unfold Cnorm2; cbn [fst snd]. nra. Qed.

Lemma Ceq0b_true : forall w, Ceq0b w = true <-> w = (0, 0).
Proof.
  intros [c d]. unfold Ceq0b; cbn [fst snd].
  rewrite andb_true_iff, !Reqb_true. split.
  - intros [-> ->]. reflexivity.
  - intro H. injection H as -> ->. split; reflexivity.
Qed.

Lemma Ceq0b_false : forall w, Cnorm2 w <> 0 -> Ceq0b w = false.
Proof.
  intros w H. destruct (Ceq0b w) eqn:E; [| reflexivity].
  apply Ceq0b_true in E. subst w. elim H. unfold Cnorm2; cbn. ring.
Qed.

Lemma one_minus_nonzero :
  forall w, 1 < Cnorm2 w -> Ceq0b (RtoC 1 - w)%C = false.
Proof.
  intros [a b] H. destruct (Ceq0b _) eqn:E; [| reflexivity].
  apply Ceq0b_true in E. unfold RtoC, Csub in E; cbn [fst snd] in E.
  injection E as Ha Hb. unfold Cnorm2 in H; cbn [fst snd] in H.
  assert (a = 1) by lra. assert (b = 0) by lra. subst. lra.
Qed.

(** The principal square root. *)
Lemma Cmod_bound : forall z, - Cmod z <= fst z <= Cmod z.
Proof.
  intros [x y]. unfold Cmod; cbn [fst snd].
  assert (H : Rabs x <= sqrt (x ^ 2 + y ^ 2)).
  { rewrite <- sqrt_Rsqr_abs. apply sqrt_le_1_alt. unfold Rsqr. nra. }
  generalize (Rle_abs x) (Rle_abs (- x)). rewrite Rabs_Ropp. lra.
Qed.

Lemma Csqrt_re_sqr :
  forall z, fst (Csqrt z) ^ 2 = (Cmod z + fst z) / 2.
Proof.
  intro z. unfold Csqrt; cbn [fst]. rewrite pow2_sqrt; [reflexivity |].
  generalize (Cmod_bound z). lra.
Qed.

Lemma Csqrt_im_sqr :
  forall z, snd (Csqrt z) ^ 2 = (Cmod z - fst z) / 2.
Proof.
  intro z. unfold Csqrt; cbn [snd].
  assert (Hp : 0 <= (Cmod z - fst z) / 2).
  { generalize (Cmod_bound z). lra. }
  rewrite Rpow_mult_distr, pow2_sqrt by exact Hp.
  destruct (Rltb (snd z) 0); lra.
Qed.

Lemma Csqrt_re_pos : forall z, 0 < fst z -> 0 < fst (Csqrt z).
Proof.
  intros z H. unfold Csqrt; cbn [fst]. apply sqrt_lt_R0.
  generalize (Cmod_bound z). lra.
Qed.

Lemma Csqrt_im_nonneg : forall z, 0 <= snd z -> 0 <= snd (Csqrt z).
Proof.
  intros z H. unfold Csqrt; cbn [snd].
  assert (E : Rltb (snd z) 0 = false) by (apply Rltb_false; lra).
  rewrite E. rewrite Rmult_1_l. apply sqrt_pos.
Qed.

Section Returns.

Variables phi S T r kappa theta sigma rho v0 : R.
Variable j : Z.

Let u : R := if (j =? 1)%Z then 0.5 else -0.5.
Let b : R := if (j =? 1)%Z then kappa - rho * sigma else kappa.

Hypothesis phi_pos : 0 < phi.
Hypothesis sigma_pos : 0 < sigma.
Hypothesis rho_range : -1 <= rho <= 0.
Hypothesis T_nonneg : 0 <= T.
Hypothesis b_pos : 0 < b.
Hypothesis tilt : b * rho + u * sigma <= 0.

Let bp : C := (RtoC b - RtoC (rho * sigma) * Ci * RtoC phi)%C.
Let z : C :=
  ((RtoC (rho * sigma) * Ci * RtoC phi - RtoC b) ^ 2
   - RtoC (sigma ^ 2) * (RtoC (2 * u) * Ci * RtoC phi - RtoC (phi ^ 2)))%C.
Let d : C := Csqrt z.
Let g : C := ((bp + d) / (bp - d))%C.
Let e : C := Cexp (d * RtoC T)%C.

Lemma bp_components : fst bp = b /\ snd bp = - (rho * sigma * phi).
Proof.
  unfold bp, RtoC, Ci, Csub, Cmul; cbn [fst snd]. split; ring.
Qed.

Lemma z_components :
  fst z = b ^ 2 + sigma ^ 2 * phi ^ 2 * (1 - rho ^ 2)
  /\ snd z = - (2 * sigma * phi * (b * rho + u * sigma)).
Proof.
  cbv [z RtoC Ci Csub Cmul Cpow fst snd]. split; ring.
Qed.

Lemma d_facts :
  0 < fst d /\ 0 <= snd d /\ fst d ^ 2 - snd d ^ 2 = fst z.
Proof.
  destruct z_components as [Hx Hy]. unfold d.
  assert (Hxpos : 0 < fst z).
  { rewrite Hx. assert (0 <= sigma ^ 2 * phi ^ 2 * (1 - rho ^ 2)).
    { apply Rmult_le_pos; [nra | nra]. }
    nra. }
  assert (Hypos : 0 <= snd z).
  { rewrite Hy. assert (0 < sigma * phi) by nra. nra. }
  split; [now apply Csqrt_re_pos |].
  split; [now apply Csqrt_im_nonneg |].
  rewrite Csqrt_re_sqr, Csqrt_im_sqr. lra.
Qed.

Lemma denominator_nonzero : Cnorm2 (bp - d)%C <> 0.
Proof.
  destruct bp_components as [Hb1 Hb2]. destruct z_components as [Hx _].
  destruct d_facts as (Hd1 & Hd2 & Hd3).
  unfold Cnorm2, Csub; cbn [fst snd]. rewrite Hb1, Hb2.
  intro H.
  assert (S1 : (b - fst d) ^ 2 = 0).
  { generalize (pow2_ge_0 (b - fst d))
               (pow2_ge_0 (- (rho * sigma * phi) - snd d)). lra. }
  assert (S2 : (- (rho * sigma * phi) - snd d) ^ 2 = 0).
  { generalize (pow2_ge_0 (b - fst d)). lra. }
  assert (H1 : b - fst d = 0) by nra.
  assert (H2 : - (rho * sigma * phi) - snd d = 0) by nra.
  assert (E1 : fst d = b) by lra.
  assert (E2 : snd d = - (rho * sigma * phi)) by lra.
  rewrite E1, E2, Hx in Hd3.
  assert (0 < sigma ^ 2 * phi ^ 2) by (apply Rmult_lt_0_compat; nra).
  nra.
Qed.

Lemma g_norm : 1 < Cnorm2 g.
Proof.
  destruct bp_components as [Hb1 Hb2].
  destruct d_facts as (Hd1 & Hd2 & _).
  assert (Hden := denominator_nonzero).
  assert (Hpos : 0 < Cnorm2 (bp - d)%C).
  { generalize (Cnorm2_nonneg (bp - d)%C). lra. }
  unfold g, Cdiv. rewrite Cnorm2_mul, Cnorm2_inv by exact Hden.
  assert (Hgt : Cnorm2 (bp - d)%C < Cnorm2 (bp + d)%C).
  { unfold Cnorm2, Csub, Cadd in *; cbn [fst snd] in *. rewrite Hb1, Hb2.
    assert (0 < b * fst d) by nra.
    assert (0 <= - (rho * sigma * phi) * snd d).
    { apply Rmult_le_pos; [| exact Hd2].
      assert (0 < sigma * phi) by nra. nra. }
    nra. }
  apply Rmult_lt_reg_r with (Cnorm2 (bp - d)%C); [exact Hpos |].
  rewrite Rmult_assoc, Rinv_l by exact Hden. lra.
Qed.

Lemma e_norm : 1 <= Cnorm2 e.
Proof.
  destruct d_facts as (Hd1 & _ & _).
  unfold e. rewrite Cnorm2_exp.
  assert (Hf : fst (d * RtoC T)%C = fst d * T).
  { unfold Cmul, RtoC; cbn [fst snd]. ring. }
  rewrite Hf.
  assert (H1 : 1 <= exp (fst d * T)).
  { rewrite <- exp_0. destruct (Req_dec (fst d * T) 0) as [-> | Hne].
    - lra.
    - left. apply exp_increasing. nra. }
  nra.
Qed.

Lemma ge_norm : 1 < Cnorm2 (g * e)%C.
Proof.
  rewrite Cnorm2_mul. generalize g_norm e_norm. intros. nra.
Qed.

(** Under these conditions no division of [heston_cf] has a zero divisor. *)
Lemma heston_cf_py_returns :
  heston_cf_py phi S T r kappa theta sigma rho v0 j
  = Returned (heston_cf phi S T r kappa theta sigma rho v0 j).
Proof.
  assert (H1 : Ceq0b (bp - d)%C = false)
    by (apply Ceq0b_false; exact denominator_nonzero).
  assert (H2 : Reqb (sigma ^ 2) 0 = false)
    by (apply Reqb_false, pow_nonzero; lra).
  assert (H3 : Ceq0b (RtoC 1 - g)%C = false)
    by (apply one_minus_nonzero; exact g_norm).
  assert (H4 : Ceq0b (RtoC (sigma ^ 2)) = false).
  { apply Ceq0b_false. unfold Cnorm2, RtoC; cbn [fst snd].
    assert (0 < sigma ^ 2) by nra. assert (0 < (sigma ^ 2) ^ 2) by nra. lra. }
  assert (H5 : Ceq0b (RtoC 1 - g * e)%C = false)
    by (apply one_minus_nonzero; exact ge_norm).
  unfold heston_cf_py, heston_cf. cbv zeta.
  fold u b. fold z. fold d. fold bp.
  unfold Cdiv_py at 1. rewrite H1. cbn [bind].
  unfold py_div. rewrite H2. cbn [bind].
  fold g. fold e.
  unfold Cdiv_py at 1. rewrite H3. cbn [bind].
  unfold Cdiv_py at 1. rewrite H4. cbn [bind].
  unfold Cdiv_py at 1. rewrite H5. cbn [bind].
  reflexivity.
Qed.

End Returns.

Lemma heston_cf_py_zero_vol :
  forall phi S T r kappa theta rho v0 j,
    heston_cf_py phi S T r kappa theta 0 rho v0 j = Raised ZeroDivisionError.
Proof.
  intros. unfold heston_cf_py. cbv zeta.
  unfold Cdiv_py at 1. destruct (Ceq0b _); cbn [bind]; [reflexivity |].
  unfold py_div.
  assert (H : Reqb (0 ^ 2) 0 = true) by (apply Reqb_true; ring).
  rewrite H. reflexivity.
Qed.

Lemma integrand_py_zero_vol :
  forall phi S K T r kappa theta rho v0 j,
    phi <> 0 ->
    integrand_py phi S K T r kappa theta 0 rho v0 j = Raised ZeroDivisionError.
Proof.
  intros phi S K T r kappa theta rho v0 j Hphi. unfold integrand_py. cbv zeta.
  assert (H : Reqb phi 0 = false) by now apply Reqb_false.
  rewrite H. cbn [negb]. rewrite heston_cf_py_zero_vol. reflexivity.
Qed.

Lemma integrand_py_returns :
  forall phi S K T r kappa theta sigma rho v0 j,
    0 <= phi -> 0 < sigma -> -1 <= rho <= 0 -> 0 <= T ->
    0 < (if (j =? 1)%Z then kappa - rho * sigma else kappa) ->
    (if (j =? 1)%Z then kappa - rho * sigma else kappa) * rho
    + (if (j =? 1)%Z then 0.5 else -0.5) * sigma <= 0 ->
    integrand_py phi S K T r kappa theta sigma rho v0 j
    = Returned (integrand phi S K T r kappa theta sigma rho v0 j).
Proof.
  intros phi S K T r kappa theta sigma rho v0 j Hphi Hs Hr HT Hb Htilt.
  unfold integrand_py, integrand. cbv zeta.
  destruct (Reqb phi 0) eqn:E; cbn [negb]; [reflexivity |].
  apply Reqb_false in E.
  rewrite heston_cf_py_returns by (try assumption; lra).
  cbn [bind]. unfold Cdiv_py.
  assert (H : Ceq0b (Ci * RtoC phi)%C = false).
  { apply Ceq0b_false. cbv [Cnorm2 Ci RtoC Cmul fst snd].
    assert (0 < phi ^ 2) by nra. nra. }
  rewrite H. reflexivity.
Qed.

Section QuadFacts.

Variable quad : (R -> R) -> R -> R -> R.
Variable nodes : (R -> R) -> R -> R -> list R.

Lemma first_raised_none :
  forall (A : Type) (results : list (outcome A)),
    first_raised results = None <->
    forall x, In x results -> exists a, x = Returned a.
Proof.
  intros A results. induction results as [| [a | e] rest IH]; cbn.
  - split; [intros _ x [] | reflexivity].
  - rewrite IH. split.
    + intros H x [<- | Hin]; [now exists a | now apply H].
    + intros H x Hin. apply H. now right.
  - split; [discriminate |].
    intro H. destruct (H (Raised e) (or_introl eq_refl)) as [a Ha].
    discriminate.
Qed.

Lemma first_raised_all :
  forall (A : Type) (results : list (outcome A)) (e : exn),
    results <> [] ->
    (forall x, In x results -> x = Raised e) ->
    first_raised results = Some e.
Proof.
  intros A [| x rest] e Hne Hall; [congruence |].
  rewrite (Hall x (or_introl eq_refl)). reflexivity.
Qed.

Lemma quad_py_returns :
  forall f a b,
    (forall x, In x (nodes (fun x => returned_or 0 (f x)) a b) ->
               exists v, f x = Returned v) ->
    quad_py quad nodes f a b
    = Returned (quad (fun x => returned_or 0 (f x)) a b).
Proof.
  intros f a b H. unfold quad_py. cbv zeta.
  assert (E : first_raised
                (map f (nodes (fun x => returned_or 0 (f x)) a b)) = None).
  { apply first_raised_none. intros x Hin. apply in_map_iff in Hin.
    destruct Hin as (y & <- & Hy). exact (H y Hy). }
  now rewrite E.
Qed.

Lemma quad_py_returned :
  forall f a b v,
    quad_py quad nodes f a b = Returned v ->
    v = quad (fun x => returned_or 0 (f x)) a b
    /\ forall x, In x (nodes (fun x => returned_or 0 (f x)) a b) ->
                 exists w, f x = Returned w.
Proof.
  intros f a b v H. unfold quad_py in H. cbv zeta in H.
  destruct (first_raised _) as [e |] eqn:E; [discriminate |].
  injection H as <-. split; [reflexivity |].
  intros x Hin.
  apply (proj1 (first_raised_none _ _) E (f x)).
  apply in_map_iff. now exists x.
Qed.

Lemma quad_py_raises :
  forall f a b e,
    nodes (fun x => returned_or 0 (f x)) a b <> [] ->
    (forall x, In x (nodes (fun x => returned_or 0 (f x)) a b) ->
               f x = Raised e) ->
    quad_py quad nodes f a b = Raised e.
Proof.
  intros f a b e Hne Hall. unfold quad_py. cbv zeta.
  rewrite (first_raised_all _ _ e).
  - reflexivity.
  - intro E. apply map_eq_nil in E. contradiction.
  - intros x Hin. apply in_map_iff in Hin.
    destruct Hin as (y & <- & Hy). exact (Hall y Hy).
Qed.

(** With a zero volatility the first division of the characteristic
    function raises, at whatever point the integrand is evaluated. *)
Lemma heston_price_py_zero_vol :
  forall S K T r kappa theta rho v0 kind,
    interior_nodes nodes ->
    heston_price_py quad nodes S K T r kappa theta 0 rho v0 kind
    = Raised ZeroDivisionError.
Proof.
  intros S K T r kappa theta rho v0 kind Hnodes. unfold heston_price_py.
  cbv zeta.
  destruct (Hnodes
              (fun x => returned_or 0
                          (integrand_py x S K T r kappa theta 0 rho v0 1))
              0 85 ltac:(lra)) as [Hne Hin].
  rewrite (quad_py_raises _ 0 85 ZeroDivisionError).
  - reflexivity.
  - exact Hne.
  - intros x Hx. apply Hin in Hx. apply integrand_py_zero_vol. lra.
Qed.

(** A recognised kind is priced, any other kind gets [None], once the two
    integrals have returned. *)
Lemma heston_price_py_kind :
  forall S K T r kappa theta sigma rho v0 kind p,
    heston_price_py quad nodes S K T r kappa theta sigma rho v0 kind
    = Returned p ->
    (recognised kind = true -> exists h, p = Some h /\ 0 <= h)
    /\ (recognised kind = false -> p = None).
Proof.
  intros S K T r kappa theta sigma rho v0 kind p H.
  unfold heston_price_py in H. cbv zeta in H.
  destruct (quad_py _ _ _ _ _) as [I1 |]; cbn [bind] in H; [| discriminate].
  destruct (quad_py _ _ _ _ _) as [I2 |]; cbn [bind] in H; [| discriminate].
  unfold recognised.
  destruct (kind =? "call")%string.
  - injection H as <-. split; [| discriminate]. intros _.
    eexists. split; [reflexivity |]. rewrite py_max_Rmax. apply Rmax_r.
  - destruct (kind =? "put")%string.
    + injection H as <-. split; [| discriminate]. intros _.
      eexists. split; [reflexivity |]. rewrite py_max_Rmax. apply Rmax_r.
    + injection H as <-. split; [discriminate | reflexivity].
Qed.

(** When the integrator looks at the integrand at its nodes only, a call
    that returns returns the value of the model without exceptions. *)
Lemma integral_value :
  forall S K T r kappa theta sigma rho v0 j v,
    quad_local quad nodes ->
    quad_py quad nodes
      (fun phi => integrand_py phi S K T r kappa theta sigma rho v0 j) 0 85
    = Returned v ->
    v = quad (fun phi => integrand phi S K T r kappa theta sigma rho v0 j)
             0 85.
Proof.
  intros S K T r kappa theta sigma rho v0 j v Hlocal H.
  apply quad_py_returned in H. destruct H as [-> Hnodes].
  apply Hlocal. intros x Hx. destruct (Hnodes x Hx) as [w Hw].
  rewrite Hw. cbn [returned_or]. now apply integrand_py_value.
Qed.

Lemma heston_price_py_value :
  forall S K T r kappa theta sigma rho v0 kind p,
    quad_local quad nodes ->
    heston_price_py quad nodes S K T r kappa theta sigma rho v0 kind
    = Returned p ->
    p = heston_price quad S K T r kappa theta sigma rho v0 kind.
Proof.
  intros S K T r kappa theta sigma rho v0 kind p Hlocal H.
  unfold heston_price_py in H. cbv zeta in H.
  destruct (quad_py quad nodes
              (fun phi => integrand_py phi S K T r kappa theta sigma rho v0 1)
              0 85) as [I1 |] eqn:E1; cbn [bind] in H; [| discriminate].
  destruct (quad_py quad nodes
              (fun phi => integrand_py phi S K T r kappa theta sigma rho v0 2)
              0 85) as [I2 |] eqn:E2; cbn [bind] in H; [| discriminate].
  apply integral_value in E1; [| exact Hlocal].
  apply integral_value in E2; [| exact Hlocal].
  subst I1 I2. unfold heston_price. cbv zeta.
  destruct (kind =? "call")%string; [now injection H |].
  destruct (kind =? "put")%string; now injection H.
Qed.

End QuadFacts.

Section WellPosed.

Variable quad : (R -> R) -> R -> R -> R.
Variable nodes : (R -> R) -> R -> R -> list R.
Hypothesis quad_is_local : quad_local quad nodes.
Hypothesis nodes_are_interior : interior_nodes nodes.

Variables S K T r kappa theta sigma rho v0 : R.
Hypothesis sigma_pos : 0 < sigma.
Hypothesis rho_range : -1 <= rho <= 0.
Hypothesis T_nonneg : 0 <= T.
Hypothesis kappa_pos : 0 < kappa.
Hypothesis tilt : (kappa - rho * sigma) * rho + 0.5 * sigma <= 0.

Lemma integral_returns :
  forall j,
    j = 1%Z \/ j = 2%Z ->
    quad_py quad nodes
      (fun phi => integrand_py phi S K T r kappa theta sigma rho v0 j) 0 85
    = Returned
        (quad (fun phi => integrand phi S K T r kappa theta sigma rho v0 j)
              0 85).
Proof.
  intros j Hj.
  assert (Hret : forall x, 0 < x ->
            integrand_py x S K T r kappa theta sigma rho v0 j
            = Returned (integrand x S K T r kappa theta sigma rho v0 j)).
  { intros x Hx. apply integrand_py_returns; try assumption; try lra.
    - destruct Hj as [-> | ->]; cbn [Z.eqb Pos.eqb]; [nra | lra].
    - destruct Hj as [-> | ->]; cbn [Z.eqb Pos.eqb]; [lra | nra]. }
  destruct (nodes_are_interior
              (fun x => returned_or 0
                          (integrand_py x S K T r kappa theta sigma rho v0 j))
              0 85 ltac:(lra)) as [_ Hin].
  rewrite quad_py_returns.
  - f_equal. apply quad_is_local. intros x Hx.
    rewrite Hret by (apply Hin in Hx; lra). reflexivity.
  - intros x Hx. eexists. apply Hret. apply Hin in Hx. lra.
Qed.

(** For parameters in this range [heston_price] returns, with the value of
    the model without exceptions. *)
Lemma heston_price_py_well_posed :
  forall kind,
    heston_price_py quad nodes S K T r kappa theta sigma rho v0 kind
    = Returned (heston_price quad S K T r kappa theta sigma rho v0 kind).
Proof.
  intro kind. unfold heston_price_py, heston_price. cbv zeta.
  rewrite !integral_returns by tauto. cbn [bind].
  destruct (kind =? "call")%string; [reflexivity |].
  destruct (kind =? "put")%string; reflexivity.
Qed.

End WellPosed.

(** ** Calibration objective *)

Section ObjectiveFacts.

Variable quad : (R -> R) -> R -> R -> R.
Variable nodes : (R -> R) -> R -> R -> list R.
Variables kappa theta rho v0 r_fixed : R.

Let loop := objective_loop quad nodes kappa theta rho v0 r_fixed.
Let price_of := quote_price quad nodes (kappa, theta, rho, v0) r_fixed.

Lemma loop_step_raised :
  forall row rest error e,
    price_of row = Raised e -> loop (row :: rest) error = Raised e.
Proof.
  intros row rest error e H. unfold loop. cbn [objective_loop].
  unfold price_of, quote_price, normalized_kind in H. now rewrite H.
Qed.

Lemma loop_step_skipped :
  forall row rest error p,
    price_of row = Returned p ->
    real_market_price row <= 0 ->
    loop (row :: rest) error = loop rest error.
Proof.
  intros row rest error p H Hle. unfold loop. cbn [objective_loop].
  unfold price_of, quote_price, normalized_kind in H. rewrite H. cbn [bind].
  assert (Hg : Rgtb (real_market_price row) 0 = false) by now apply Rgtb_false.
  now rewrite Hg.
Qed.

Lemma loop_step_priced :
  forall row rest error h,
    price_of row = Returned (Some h) ->
    real_market_price row > 0 ->
    loop (row :: rest) error
    = loop rest (error + squared_relative_error h (real_market_price row)).
Proof.
  intros row rest error h H Hpos. unfold loop. cbn [objective_loop].
  unfold price_of, quote_price, normalized_kind in H. rewrite H. cbn [bind].
  assert (Hg : Rgtb (real_market_price row) 0 = true) by now apply Rgtb_true.
  rewrite Hg. cbn [py_sub bind]. unfold py_div.
  assert (Hm : Reqb (real_market_price row) 0 = false)
    by (apply Reqb_false; lra).
  rewrite Hm. reflexivity.
Qed.

Lemma loop_step_unpriced :
  forall row rest error,
    price_of row = Returned None ->
    real_market_price row > 0 ->
    loop (row :: rest) error = Raised TypeError.
Proof.
  intros row rest error H Hpos. unfold loop. cbn [objective_loop].
  unfold price_of, quote_price, normalized_kind in H. rewrite H. cbn [bind].
  assert (Hg : Rgtb (real_market_price row) 0 = true) by now apply Rgtb_true.
  now rewrite Hg.
Qed.

Lemma squared_relative_error_nonneg :
  forall h m, 0 <= squared_relative_error h m.
Proof. intros. unfold squared_relative_error. apply pow2_ge_0. Qed.


Lemma loop_returns :
  forall data error,
    Forall (priceable quad nodes (kappa, theta, rho, v0) r_fixed) data ->
    exists total, error <= total /\ loop data error = Returned total.
Proof.
  induction data as [| row rest IH]; intros error Hall.
  - exists error. split; [lra | reflexivity].
  - inversion Hall as [| ? ? Hrow Hrest]; subst.
    destruct Hrow as (p & Hp & Hsome).
    destruct (Rle_lt_dec (real_market_price row) 0) as [Hle | Hlt].
    + rewrite (loop_step_skipped row rest error p Hp Hle). now apply IH.
    + destruct p as [h |]; [| elim (Hsome Hlt); reflexivity].
      rewrite (loop_step_priced row rest error h Hp Hlt).
      destruct (IH (error + squared_relative_error h (real_market_price row))
                   Hrest) as (total & Ht & Hr).
      exists total. split; [| exact Hr].
      generalize (squared_relative_error_nonneg h (real_market_price row)).
      lra.
Qed.

Lemma loop_raises :
  forall data error,
    ~ Forall (priceable quad nodes (kappa, theta, rho, v0) r_fixed) data ->
    exists e, loop data error = Raised e.
Proof.
  induction data as [| row rest IH]; intros error Hnot.
  - elim Hnot. constructor.
  - destruct (price_of row) as [p | e] eqn:Hp.
    + destruct (Rle_lt_dec (real_market_price row) 0) as [Hle | Hlt].
      * rewrite (loop_step_skipped row rest error p Hp Hle). apply IH.
        intro Hrest. apply Hnot. constructor; [| exact Hrest].
        exists p. split; [exact Hp | intro; lra].
      * destruct p as [h |].
        -- rewrite (loop_step_priced row rest error h Hp Hlt). apply IH.
           intro Hrest. apply Hnot. constructor; [| exact Hrest].
           exists (Some h). split; [exact Hp | discriminate].
        -- exists TypeError. now apply loop_step_unpriced.
    + exists e. now apply loop_step_raised.
Qed.

Lemma loop_shift :
  forall data e1 e2 total,
    loop data e1 = Returned total ->
    loop data e2 = Returned (e2 + (total - e1)).
Proof.
  induction data as [| row rest IH]; intros e1 e2 total Ht.
  - cbn in Ht. injection Ht as <-. cbn. f_equal. ring.
  - destruct (price_of row) as [p | e] eqn:Hp.
    2:{ rewrite (loop_step_raised row rest e1 e Hp) in Ht. discriminate. }
    destruct (Rle_lt_dec (real_market_price row) 0) as [Hle | Hlt].
    + rewrite (loop_step_skipped row rest e1 p Hp Hle) in Ht.
      rewrite (loop_step_skipped row rest e2 p Hp Hle). now apply IH.
    + destruct p as [h |].
      * rewrite (loop_step_priced row rest e1 h Hp Hlt) in Ht.
        rewrite (loop_step_priced row rest e2 h Hp Hlt).
        rewrite (IH _ (e2 + squared_relative_error h (real_market_price row))
                    _ Ht).
        f_equal. ring.
      * rewrite (loop_step_unpriced row rest e1 Hp Hlt) in Ht. discriminate.
Qed.

Lemma loop_app :
  forall d1 d2 error,
    loop (d1 ++ d2) error = bind (loop d1 error) (fun e => loop d2 e).
Proof.
  induction d1 as [| row rest IH]; intros d2 error; [reflexivity |].
  unfold loop in *. cbn [app objective_loop].
  destruct (heston_price_py _ _ _ _ _ _ _ _ _ _ _ _) as [p | e];
    cbn [bind]; [| reflexivity].
  destruct (Rgtb (real_market_price row) 0); [| apply IH].
  destruct (py_sub _ _) as [diff |]; cbn [bind]; [| reflexivity].
  destruct (py_div _ _) as [rel |]; cbn [bind]; [| reflexivity].
  apply IH.
Qed.


End ObjectiveFacts.

(** Rows the objective gets past, by their fields: a positive implied
    volatility, a time to expiry that is not negative, parameters in the
    range where no division of the characteristic function is by zero, and
    an option kind on the rows with a positive market price. *)
Lemma well_posed_priceable :
  forall quad nodes kappa theta rho v0 r_fixed row,
    quad_local quad nodes ->
    interior_nodes nodes ->
    0 < kappa ->
    -1 <= rho <= 0 ->
    0 < implied_volatility row ->
    0 <= T_years row ->
    (kappa - rho * implied_volatility row) * rho
    + 0.5 * implied_volatility row <= 0 ->
    (real_market_price row > 0 -> recognised (normalized_kind row) = true) ->
    priceable quad nodes (kappa, theta, rho, v0) r_fixed row.
Proof.
  intros quad nodes kappa theta rho v0 r_fixed row Hlocal Hnodes Hkappa Hrho
    Hsigma HT Htilt Hkind.
  unfold priceable, quote_price. eexists. split.
  - apply heston_price_py_well_posed; assumption.
  - intros Hpos. specialize (Hkind Hpos). unfold recognised in Hkind.
    unfold heston_price. cbv zeta.
    destruct (normalized_kind row =? "call")%string; [discriminate |].
    destruct (normalized_kind row =? "put")%string; [discriminate |].
    discriminate Hkind.
Qed.

(** A no-break space after the kind is stripped as a space is, and the kind
    then is an option kind. *)
Lemma strip_no_break_space :
  py_strip (py_lower (String.append "PUT" (String (ascii_of_nat 160) EmptyString)))
  = "put"%string
  /\ recognised
       (py_strip
          (py_lower (String.append "PUT" (String (ascii_of_nat 160) EmptyString))))
     = true.
Proof.
  split; reflexivity.
Qed.

(** The sample integrator and the sample calibration rows. *)
Module CalibrationSample.

Import Samples.

Lemma midpoint_local : quad_local midpoint_quad midpoint_nodes.
Proof.
  intros f g a b H. unfold midpoint_quad. f_equal. apply H. now left.
Qed.

Lemma midpoint_interior : interior_nodes midpoint_nodes.
Proof.
  intros f a b Hab. unfold midpoint_nodes. split; [discriminate |].
  intros x [<- | []]. lra.
Qed.

Lemma midpoint_price :
  forall S K T kind,
    0 <= T ->
    heston_price_py midpoint_quad midpoint_nodes S K T 0.045
      2 0.04 0.5 (-0.7) 0.04 kind
    = Returned (heston_price midpoint_quad S K T 0.045
                  2 0.04 0.5 (-0.7) 0.04 kind).
Proof.
  intros S K T kind HT.
  apply heston_price_py_well_posed;
    [exact midpoint_local | exact midpoint_interior | lra .. ].
Qed.


Lemma traded_call_quote :
  quote_price midpoint_quad midpoint_nodes (2, 0.04, -0.7, 0.04) 0.045
    traded_call
  = Returned (Some traded_call_price).
Proof.
  unfold quote_price.
  replace (normalized_kind traded_call) with "call"%string by reflexivity.
  cbn [spot_price strike_price T_years implied_volatility traded_call].
  rewrite midpoint_price by lra. rewrite heston_price_call. reflexivity.
Qed.

Lemma unquoted_quote :
  quote_price midpoint_quad midpoint_nodes (2, 0.04, -0.7, 0.04) 0.045
    unquoted
  = Returned None.
Proof.
  unfold quote_price.
  replace (normalized_kind unquoted) with "swap"%string by reflexivity.
  cbn [spot_price strike_price T_years implied_volatility unquoted].
  rewrite midpoint_price by lra. reflexivity.
Qed.

Lemma zero_vol_quote :
  quote_price midpoint_quad midpoint_nodes (2, 0.04, -0.7, 0.04) 0.045
    zero_vol
  = Raised ZeroDivisionError.
Proof.
  unfold quote_price.
  cbn [spot_price strike_price T_years implied_volatility zero_vol].
  apply heston_price_py_zero_vol. exact midpoint_interior.
Qed.


End CalibrationSample.

(** Further sample rows and the objective on them. *)
Module MoreSamples.

Import Samples.

Lemma mislabelled_quote :
  quote_price midpoint_quad midpoint_nodes (2, 0.04, -0.7, 0.04) 0.045
    mislabelled
  = Returned None.
Proof.
  unfold quote_price.
  replace (normalized_kind mislabelled) with "future"%string by reflexivity.
  cbn [spot_price strike_price T_years implied_volatility mislabelled].
  rewrite CalibrationSample.midpoint_price by lra. reflexivity.
Qed.

Lemma traded_call_priceable :
  priceable midpoint_quad midpoint_nodes (2, 0.04, -0.7, 0.04) 0.045
    traded_call.
Proof.
  exists (Some traded_call_price).
  split; [exact CalibrationSample.traded_call_quote | discriminate].
Qed.

Lemma unquoted_priceable :
  priceable midpoint_quad midpoint_nodes (2, 0.04, -0.7, 0.04) 0.045 unquoted.
Proof.
  exists None. split; [exact CalibrationSample.unquoted_quote |].
  intro H. cbn in H. lra.
Qed.

Lemma sample_objective :
  calibration_objective midpoint_quad midpoint_nodes (2, 0.04, -0.7, 0.04)
    [traded_call; unquoted] 0.045
  = Returned (sum_list [((traded_call_price - 2) / 2) ^ 2]).
Proof.
  unfold calibration_objective.
  rewrite (loop_step_priced _ _ _ _ _ _ _ traded_call [unquoted] 0
             traded_call_price CalibrationSample.traded_call_quote)
    by (cbn; lra).
  rewrite (loop_step_skipped _ _ _ _ _ _ _ unquoted [] _ None
             CalibrationSample.unquoted_quote) by (cbn; lra).
  cbn [objective_loop sum_list fold_right real_market_price traded_call].
  unfold squared_relative_error. f_equal. ring.
Qed.

Lemma unquoted_objective :
  calibration_objective midpoint_quad midpoint_nodes (2, 0.04, -0.7, 0.04)
    [unquoted] 0.045 = Returned 0.
Proof.
  unfold calibration_objective.
  rewrite (loop_step_skipped _ _ _ _ _ _ _ unquoted [] 0 None
             CalibrationSample.unquoted_quote) by (cbn; lra).
  reflexivity.
Qed.

Lemma mislabelled_objective :
  forall rest,
    calibration_objective midpoint_quad midpoint_nodes (2, 0.04, -0.7, 0.04)
      (mislabelled :: rest) 0.045 = Raised TypeError.
Proof.
  intro rest. unfold calibration_objective.
  apply loop_step_unpriced; [exact mislabelled_quote | cbn; lra].
Qed.

End MoreSamples.




(** ** Outlier rejection and the final drop *)

Lemma insert_sorted_In :
  forall x y l, In y (insert_sorted x l) <-> y = x \/ In y l.
Proof.
  intros x y l. induction l as [| z t IH]; cbn [insert_sorted].
  - cbn. intuition.
  - destruct (Rleb x z); cbn [In] in *; rewrite ?IH; intuition.
Qed.

Lemma sort_values_In : forall y l, In y (sort_values l) <-> In y l.
Proof.
  intros y l. induction l as [| x t IH]; [reflexivity |].
  unfold sort_values in *. cbn [fold_right].
  rewrite insert_sorted_In, IH. cbn. intuition.
Qed.

Lemma finite_values_In :
  forall x col, In x (finite_values col) <-> In (Some x) col.
Proof.
  intros x col. induction col as [| [v |] t IH]; cbn [finite_values In].
  - reflexivity.
  - rewrite IH. split; intros [H | H]; auto; left; congruence.
  - rewrite IH. split; [auto | intros [H | H]; [discriminate | exact H]].
Qed.

Lemma fraction_bounds :
  forall h den : nat, (0 < den)%nat -> 0 <= INR (h mod den) / INR den <= 1.
Proof.
  intros h den Hden.
  assert (Hd : 0 < INR den) by now apply lt_0_INR.
  assert (Hm : INR (h mod den) <= INR den).
  { apply le_INR. apply Nat.lt_le_incl. apply Nat.mod_upper_bound. lia. }
  assert (Hp : 0 <= INR (h mod den)) by apply pos_INR.
  split.
  - apply Rmult_le_pos; [exact Hp | left; now apply Rinv_0_lt_compat].
  - apply Rmult_le_reg_r with (INR den); [exact Hd |].
    unfold Rdiv. rewrite Rmult_assoc, Rinv_l; lra.
Qed.

Lemma remove_outliers_In :
  forall df p,
    In p (remove_outliers df) <->
    In p df
    /\ exists e q,
         error_heston p = Some e
         /\ quantile 975 1000 (map error_heston df) = Some q
         /\ e < q.
Proof.
  intros df p. unfold remove_outliers. rewrite filter_In.
  split; intros [Hin H]; (split; [exact Hin |]).
  - unfold nan_ltb in H.
    destruct (error_heston p) as [e |]; [| discriminate].
    destruct (quantile 975 1000 (map error_heston df)) as [q |];
      [| discriminate].
    exists e, q. apply Rltb_true in H. auto.
  - destruct H as (e & q & He & Hq & Hlt). rewrite He, Hq. cbn.
    now apply Rltb_true.
Qed.

(** *** Counting the rows below the percentile *)

Lemma insert_sorted_perm :
  forall x l, Permutation (x :: l) (insert_sorted x l).
Proof.
  intros x l. induction l as [| y t IH]; cbn [insert_sorted].
  - apply Permutation_refl.
  - destruct (Rleb x y); [apply Permutation_refl |].
    apply perm_trans with (y :: x :: t); [apply perm_swap |].
    now apply perm_skip.
Qed.

Lemma sort_values_perm : forall l, Permutation l (sort_values l).
Proof.
  induction l as [| x t IH]; [apply perm_nil |].
  unfold sort_values in *. cbn [fold_right].
  apply perm_trans with (x :: fold_right insert_sorted [] t).
  - now apply perm_skip.
  - apply insert_sorted_perm.
Qed.

Lemma insert_sorted_sorted :
  forall x l, Sorted Rle l -> Sorted Rle (insert_sorted x l).
Proof.
  intros x l Hs. induction l as [| y t IH]; cbn [insert_sorted].
  - repeat constructor.
  - destruct (Rleb x y) eqn:E.
    + apply Rleb_true in E. constructor; [exact Hs | now constructor].
    + apply Rleb_false in E. inversion Hs as [| ? ? Ht Hhd]; subst.
      constructor; [now apply IH |].
      destruct t as [| z t']; cbn [insert_sorted].
      * constructor. lra.
      * inversion Hhd; subst. destruct (Rleb x z); constructor; lra.
Qed.

Lemma sort_values_sorted : forall l, StronglySorted Rle (sort_values l).
Proof.
  intro l. apply Sorted_StronglySorted.
  - intros a b c. apply Rle_trans.
  - induction l as [| x t IH]; [constructor |].
    unfold sort_values in *. cbn [fold_right]. now apply insert_sorted_sorted.
Qed.

Lemma strongly_sorted_nth :
  forall l i j,
    StronglySorted Rle l -> (i <= j < List.length l)%nat ->
    nth i l 0 <= nth j l 0.
Proof.
  induction l as [| x t IH]; intros i j Hs [Hij Hj]; [cbn in Hj; lia |].
  inversion Hs as [| ? ? Ht Hall]; subst.
  destruct i as [| i'], j as [| j']; cbn [nth]; try lra; try lia.
  - rewrite Forall_forall in Hall. apply Hall. apply nth_In.
    cbn in Hj. lia.
  - apply IH; [exact Ht | cbn in Hj; lia].
Qed.

Lemma filter_length_perm :
  forall (A : Type) (f : A -> bool) (l l' : list A),
    Permutation l l' ->
    List.length (filter f l) = List.length (filter f l').
Proof.
  intros A f l l' H. induction H; cbn [filter].
  - reflexivity.
  - destruct (f x); cbn [List.length]; lia.
  - destruct (f x), (f y); reflexivity.
  - lia.
Qed.

(** In a list whose entries from index [k] on are at least [t], at most [k]
    entries are below [t]. *)
Lemma below_count_upper :
  forall t l k,
    (forall i, (k <= i < List.length l)%nat -> t <= nth i l 0) ->
    (List.length (filter (below t) l) <= k)%nat.
Proof.
  intros t l. induction l as [| x rest IH]; intros k H; [cbn; lia |].
  cbn [filter]. destruct k as [| k'].
  - assert (Hx : below t x = false).
    { apply Rltb_false. apply (H 0%nat). cbn. lia. }
    rewrite Hx. apply IH. intros i Hi. apply (H (S i)). cbn. lia.
  - assert (Hrest : (List.length (filter (below t) rest) <= k')%nat).
    { apply IH. intros i Hi. apply (H (S i)). cbn. lia. }
    destruct (below t x); cbn [List.length]; lia.
Qed.

(** In a list whose first [k] entries are below [t], at least [k] entries are
    below [t]. *)
Lemma below_count_lower :
  forall t l k,
    (k <= List.length l)%nat ->
    (forall i, (i < k)%nat -> nth i l 0 < t) ->
    (k <= List.length (filter (below t) l))%nat.
Proof.
  intros t l. induction l as [| x rest IH]; intros k Hk H.
  - cbn in *. lia.
  - destruct k as [| k']; [lia |]. cbn [filter].
    assert (Hx : below t x = true).
    { apply Rltb_true. apply (H 0%nat). lia. }
    rewrite Hx. cbn [List.length]. apply le_n_S. apply IH.
    + cbn in Hk. lia.
    + intros i Hi. apply (H (S i)). lia.
Qed.

(** The rows that survive are as many as the finite errors below the
    threshold. *)
Lemma kept_rows_count :
  forall q df,
    List.length (filter (fun p => nan_ltb (error_heston p) (Some q)) df)
    = List.length (filter (below q) (finite_values (map error_heston df))).
Proof.
  intros q df. induction df as [| p rest IH]; [reflexivity |].
  cbn [map filter finite_values].
  destruct (error_heston p) as [e |]; cbn [nan_ltb finite_values filter].
  - unfold below at 1. destruct (Rltb e q); cbn [List.length]; now rewrite IH.
  - exact IH.
Qed.

Lemma finite_values_length :
  forall col, (List.length (finite_values col) <= List.length col)%nat.
Proof.
  induction col as [| [x |] t IH]; cbn [finite_values List.length]; lia.
Qed.

Section PercentileRank.

Variables num den : nat.
Hypothesis den_pos : (0 < den)%nat.
Hypothesis num_le_den : (num <= den)%nat.

Variable vals : list R.
Hypothesis vals_sorted : StronglySorted Rle vals.
Hypothesis vals_nonempty : (0 < List.length vals)%nat.

Let n := List.length vals.
Let h := (num * (n - 1))%nat.
Let lo := (h / den)%nat.
Let hi := Nat.min (lo + 1) (n - 1).
Let frac := INR (h mod den) / INR den.
Let q := nth lo vals 0 + (nth hi vals 0 - nth lo vals 0) * frac.

Lemma lo_in_range : (lo < n)%nat.
Proof.
  unfold lo. apply Nat.Div0.div_lt_upper_bound. unfold h. fold n in vals_nonempty.
  nia.
Qed.

Lemma lo_not_last : (h mod den <> 0)%nat -> (lo + 1 < n)%nat.
Proof.
  intro Hmod. generalize lo_in_range; intro Hlo.
  destruct (Nat.eq_dec (lo + 1) n) as [E |]; [| lia].
  exfalso. apply Hmod.
  generalize (Nat.div_mod_eq h den). fold lo. intro Hdm.
  assert (Hh : (h <= den * (n - 1))%nat) by (unfold h; nia).
  assert (Hl : lo = (n - 1)%nat) by lia.
  rewrite Hl in Hdm. lia.
Qed.

Lemma frac_zero : (h mod den = 0)%nat -> frac = 0.
Proof. intro H. unfold frac. rewrite H. cbn. unfold Rdiv. ring. Qed.

Lemma frac_pos : (h mod den <> 0)%nat -> 0 < frac.
Proof.
  intro H. unfold frac. apply Rdiv_lt_0_compat.
  - apply lt_0_INR. lia.
  - now apply lt_0_INR.
Qed.

Lemma percentile_le_from_rank :
  forall i, (percentile_rank num den n <= i < n)%nat -> q <= nth i vals 0.
Proof.
  intros i [Hrank Hi]. unfold percentile_rank in Hrank. fold h lo in Hrank.
  destruct (h mod den =? 0)%nat eqn:E.
  - apply Nat.eqb_eq in E. unfold q. rewrite (frac_zero E), Rmult_0_r, Rplus_0_r.
    apply strongly_sorted_nth; [exact vals_sorted | fold n; lia].
  - apply Nat.eqb_neq in E.
    assert (Hlo := lo_not_last E).
    assert (Hhi : hi = (lo + 1)%nat) by (unfold hi; lia).
    apply Rle_trans with (nth hi vals 0).
    + assert (Hord : nth lo vals 0 <= nth hi vals 0).
      { apply strongly_sorted_nth; [exact vals_sorted | fold n; lia]. }
      generalize (fraction_bounds h den den_pos). fold frac. intro Hf.
      unfold q. nra.
    + apply strongly_sorted_nth; [exact vals_sorted | fold n; lia].
Qed.

Lemma below_percentile_upper :
  (List.length (filter (below q) vals) <= percentile_rank num den n)%nat.
Proof.
  apply below_count_upper. intros i Hi. apply percentile_le_from_rank.
  exact Hi.
Qed.

Hypothesis vals_distinct : NoDup vals.

Lemma strictly_sorted_nth :
  forall i j, (i < j < n)%nat -> nth i vals 0 < nth j vals 0.
Proof.
  intros i j Hij.
  assert (Hle : nth i vals 0 <= nth j vals 0).
  { apply strongly_sorted_nth; [exact vals_sorted | fold n; lia]. }
  destruct Hle as [Hlt | Heq]; [exact Hlt |].
  exfalso. apply (proj1 (NoDup_nth vals 0) vals_distinct) in Heq;
    fold n; lia.
Qed.

Lemma percentile_gt_before_rank :
  forall i, (i < percentile_rank num den n)%nat -> nth i vals 0 < q.
Proof.
  intros i Hi. unfold percentile_rank in Hi. fold h lo in Hi.
  generalize lo_in_range; intro Hlo.
  destruct (h mod den =? 0)%nat eqn:E.
  - apply Nat.eqb_eq in E. unfold q. rewrite (frac_zero E), Rmult_0_r, Rplus_0_r.
    apply strictly_sorted_nth. lia.
  - apply Nat.eqb_neq in E.
    assert (Hlo' := lo_not_last E).
    assert (Hhi : hi = (lo + 1)%nat) by (unfold hi; lia).
    assert (Hstep : nth lo vals 0 < nth hi vals 0).
    { apply strictly_sorted_nth. lia. }
    assert (Hf := frac_pos E).
    assert (Hq : nth lo vals 0 < q) by (unfold q; nra).
    destruct (Nat.eq_dec i lo) as [-> | Hne]; [exact Hq |].
    apply Rlt_trans with (nth lo vals 0); [| exact Hq].
    apply strictly_sorted_nth. lia.
Qed.

Lemma rank_in_range : (percentile_rank num den n <= n)%nat.
Proof.
  unfold percentile_rank. fold h lo. generalize lo_in_range; intro Hlo.
  destruct (h mod den =? 0)%nat eqn:E; [lia |].
  apply Nat.eqb_neq in E. generalize (lo_not_last E). lia.
Qed.

Lemma below_percentile_exact :
  List.length (filter (below q) vals) = percentile_rank num den n.
Proof.
  apply Nat.le_antisymm.
  - apply below_percentile_upper.
  - apply below_count_lower.
    + apply rank_in_range.
    + apply percentile_gt_before_rank.
Qed.

End PercentileRank.

Lemma quantile_interpolate :
  forall num den col,
    quantile num den col =
    match sort_values (finite_values col) with
    | [] => None
    | _ :: _ => Some (interpolate num den (sort_values (finite_values col)))
    end.
Proof. intros num den col. unfold quantile. reflexivity. Qed.

Lemma nan_threshold_keeps_nothing :
  forall df, filter (fun p => nan_ltb (error_heston p) None) df = [].
Proof.
  induction df as [| p rest IH]; [reflexivity |].
  cbn [filter]. unfold nan_ltb at 1. now destruct (error_heston p).
Qed.

Lemma percentile_rank_0 : forall num den, percentile_rank num den 0 = 0%nat.
Proof.
  intros num den. unfold percentile_rank. cbn [Nat.sub].
  rewrite Nat.mul_0_r. destruct den as [| d]; [reflexivity |].
  rewrite Nat.Div0.div_0_l, Nat.Div0.mod_0_l. reflexivity.
Qed.

Lemma remove_outliers_count :
  forall df,
    let errors := finite_values (map error_heston df) in
    (List.length (remove_outliers df)
     <= percentile_rank 975 1000 (List.length errors))%nat
    /\ (NoDup errors ->
        List.length (remove_outliers df)
        = percentile_rank 975 1000 (List.length errors)).
Proof.
  intros df errors. unfold remove_outliers. rewrite quantile_interpolate.
  fold errors.
  assert (Hperm := sort_values_perm errors).
  assert (Hsorted := sort_values_sorted errors).
  assert (Hlen := Permutation_length Hperm).
  destruct (sort_values errors) as [| v rest] eqn:Hvals.
  - rewrite nan_threshold_keeps_nothing.
    cbn [List.length] in *. rewrite Hlen, percentile_rank_0. split; auto.
  - assert (Hne : (0 < List.length (v :: rest))%nat) by (cbn; lia).
    rewrite kept_rows_count. fold errors.
    rewrite (filter_length_perm _ _ _ _ Hperm), Hlen.
    split.
    + apply below_percentile_upper; [lia | lia | exact Hsorted | exact Hne].
    + intro Hnd.
      apply below_percentile_exact; [lia | lia | exact Hsorted | exact Hne |].
      exact (Permutation_NoDup Hperm Hnd).
Qed.

Lemma percentile_rank_975_bound :
  forall n N, (n <= N)%nat -> (percentile_rank 975 1000 n <= N - 1)%nat.
Proof.
  intros n N Hn. unfold percentile_rank.
  set (h := (975 * (n - 1))%nat).
  generalize (Nat.div_mod_eq h 1000).
  generalize (Nat.mod_upper_bound h 1000 ltac:(lia)).
  intros Hm Hd.
  destruct (h mod 1000 =? 0)%nat eqn:E.
  - unfold h in *. lia.
  - apply Nat.eqb_neq in E. unfold h in *. lia.
Qed.

(** C8 (as amended).  Outlier rejection keeps exactly the quotes whose
    absolute pricing error is strictly below the 97.5th percentile of the
    errors over the whole set, so a quote whose error equals or exceeds the
    percentile is dropped.  With [M] finite errors the output has at most
    [ceil (0.975 (M - 1))] quotes, exactly that many when the finite errors
    are pairwise distinct, and this is at most [N - 1] for a set of size
    [N]. *)
Theorem outlier_rejection :
  forall df,
    let errors := finite_values (map error_heston df) in
    (forall p,
        In p (remove_outliers df) <->
        In p df
        /\ exists e q,
             error_heston p = Some e
             /\ quantile 975 1000 (map error_heston df) = Some q
             /\ e < q)
    /\ (List.length (remove_outliers df)
        <= percentile_rank 975 1000 (List.length errors))%nat
    /\ (NoDup errors ->
        List.length (remove_outliers df)
        = percentile_rank 975 1000 (List.length errors))
    /\ (percentile_rank 975 1000 (List.length errors)
        <= List.length df - 1)%nat.
Proof.
  intros df errors.
  split; [apply remove_outliers_In |].
  destruct (remove_outliers_count df) as [Hle Heq].
  split; [exact Hle |]. split; [exact Heq |].
  apply percentile_rank_975_bound.
  unfold errors.
  apply Nat.le_trans with (List.length (map error_heston df)).
  - apply finite_values_length.
  - now rewrite length_map.
Qed.


Module PricedSamples.

Import Samples.

Lemma near_error : error_heston near = Some 1.
Proof.
  unfold error_heston, near. cbn. f_equal.
  replace (5 - 4) with 1 by lra. apply Rabs_R1.
Qed.

Lemma far_error : error_heston far = Some 3.
Proof.
  unfold error_heston, far. cbn. f_equal.
  replace (5 - 2) with 3 by lra. apply Rabs_pos_eq. lra.
Qed.

Lemma single_threshold : quantile 975 1000 [Some 1] = Some 1.
Proof. unfold quantile. cbn. f_equal. lra. Qed.

Lemma pair_threshold : quantile 975 1000 [Some 1; Some 3] = Some 2.95.
Proof.
  unfold quantile. cbn [finite_values sort_values fold_right insert_sorted].
  assert (H : Rleb 1 3 = true) by (apply Rleb_true; lra).
  rewrite H.
  cbn [List.length Nat.sub Nat.mul Nat.add].
  replace (975 / 1000)%nat with 0%nat by reflexivity.
  replace (975 mod 1000)%nat with 975%nat by reflexivity.
  cbn [Nat.add Nat.min nth]. f_equal.
  rewrite !INR_IZR_INZ. cbn [Z.of_nat Pos.of_succ_nat Pos.succ]. lra.
Qed.

Lemma single_rejected : remove_outliers [near] = [].
Proof.
  unfold remove_outliers. cbn [map filter].
  rewrite near_error, single_threshold. cbn [nan_ltb].
  assert (H : Rltb 1 1 = false) by (apply Rltb_false; lra).
  now rewrite H.
Qed.

Lemma pair_rejected : remove_outliers [near; far] = [near].
Proof.
  unfold remove_outliers. cbn [map filter].
  rewrite near_error, far_error, pair_threshold. cbn [nan_ltb].
  assert (H1 : Rltb 1 2.95 = true) by (apply Rltb_true; lra).
  assert (H2 : Rltb 3 2.95 = false) by (apply Rltb_false; lra).
  now rewrite H1, H2.
Qed.

End PricedSamples.

Lemma outlier_rejection_witness :
  List.length (remove_outliers [Samples.near; Samples.far])
  = percentile_rank 975 1000
      (List.length
         (finite_values (map error_heston [Samples.near; Samples.far]))).
Proof.
  apply (outlier_rejection [Samples.near; Samples.far]).
  cbn [map]. rewrite PricedSamples.near_error, PricedSamples.far_error.
  cbn [finite_values].
  constructor; [| constructor; [intros [] | constructor]].
  intros [H | []]. lra.
Defined.

(** C8 as stated fails.  A set of one quote: its error [1] equals the
    percentile [1], so it does not exceed it, yet it is dropped and the output
    is empty, below [0.975 * 1].  A set of two quotes with errors [1] and [3]:
    one quote is kept, below [0.975 * 2]. *)
Lemma outlier_rejection_counterexample :
  (error_heston Samples.near = Some 1
   /\ quantile 975 1000 (map error_heston [Samples.near]) = Some 1
   /\ ~ 1 > 1
   /\ remove_outliers [Samples.near] = []
   /\ INR (List.length (remove_outliers [Samples.near]))
      < 0.975 * INR (List.length [Samples.near]))
  /\ (remove_outliers [Samples.near; Samples.far]
      = [Samples.near]
      /\ INR (List.length
                (remove_outliers [Samples.near; Samples.far]))
         < 0.975 * INR (List.length [Samples.near; Samples.far])).
Proof.
  split.
  - split; [exact PricedSamples.near_error |].
    split. { cbn [map]. rewrite PricedSamples.near_error.
             exact PricedSamples.single_threshold. }
    split; [lra |].
    split; [exact PricedSamples.single_rejected |].
    rewrite PricedSamples.single_rejected. cbn. lra.
  - split; [exact PricedSamples.pair_rejected |].
    rewrite PricedSamples.pair_rejected. cbn. lra.
Qed.

(** ** The pricing pass and the rows it leaves unpriced *)

Section PipelineFacts.

Variable quad : (R -> R) -> R -> R -> R.
Variables kappa theta rho v0 r_fixed : R.

Let price_one := price_row quad kappa theta rho v0 r_fixed.
Let price_all := price_pass quad kappa theta rho v0 r_fixed.

Lemma price_pass_rows :
  forall df, fst (price_all df) = map (fun row => fst (price_one row)) df.
Proof.
  induction df as [| row rest IH]; [reflexivity |].
  unfold price_all, price_one in *. cbn [price_pass map].
  destruct (price_row quad kappa theta rho v0 r_fixed row) as [p calls].
  destruct (price_pass quad kappa theta rho v0 r_fixed rest) as [ps calls'].
  cbn [fst] in *. now rewrite IH.
Qed.

Lemma price_pass_calls :
  forall df, snd (price_all df) = flat_map (fun row => snd (price_one row)) df.
Proof.
  induction df as [| row rest IH]; [reflexivity |].
  unfold price_all, price_one in *. cbn [price_pass flat_map].
  destruct (price_row quad kappa theta rho v0 r_fixed row) as [p calls].
  destruct (price_pass quad kappa theta rho v0 r_fixed rest) as [ps calls'].
  cbn [snd] in *. now rewrite IH.
Qed.

Lemma price_row_base : forall row, base (fst (price_one row)) = row.
Proof.
  intro row. unfold price_one, price_row.
  now destruct (Rgtb (real_market_price row) 0).
Qed.

Lemma price_row_unpriced :
  forall row,
    real_market_price row <= 0 -> heston_price_col (fst (price_one row)) = None.
Proof.
  intros row H. unfold price_one, price_row.
  apply Rgtb_false in H. now rewrite H.
Qed.

Lemma price_row_called :
  forall row called,
    In called (snd (price_one row)) ->
    called = row /\ real_market_price row > 0.
Proof.
  intros row called. unfold price_one, price_row.
  destruct (Rgtb (real_market_price row) 0) eqn:H; cbn [snd In]; [| tauto].
  intros [<- | []]. split; [reflexivity | now apply Rgtb_true].
Qed.

Lemma heston_called_on_positive_only :
  forall df, Forall (fun row => real_market_price row > 0) (snd (price_all df)).
Proof.
  intro df. rewrite price_pass_calls. apply Forall_forall. intros called Hin.
  apply in_flat_map in Hin. destruct Hin as (row & _ & Hin).
  apply price_row_called in Hin. destruct Hin as [-> Hpos]. exact Hpos.
Qed.

Lemma unquoted_rows_unpriced :
  forall df p,
    In p (fst (price_all df)) ->
    real_market_price (base p) <= 0 -> heston_price_col p = None.
Proof.
  intros df p Hin Hle. rewrite price_pass_rows in Hin.
  apply in_map_iff in Hin. destruct Hin as (row & <- & _).
  rewrite price_row_base in Hle. now apply price_row_unpriced.
Qed.

Lemma dampen_keeps_unpriced :
  forall df p,
    In p (dampen (fst (price_all df))) ->
    real_market_price (base p) <= 0 -> heston_price_col p = None.
Proof.
  intros df p Hin Hle. unfold dampen in Hin.
  apply in_map_iff in Hin. destruct Hin as (p0 & <- & Hin0).
  cbn [dampen_row base heston_price_col] in *.
  rewrite (unquoted_rows_unpriced df p0 Hin0 Hle).
  now destruct (Rgtb _ _).
Qed.

Lemma dropna_priced :
  forall rows p, In p (dropna rows) -> heston_price_col p <> None.
Proof.
  intros rows p Hin. unfold dropna in Hin. apply filter_In in Hin.
  destruct Hin as [_ H]. unfold has_price in H.
  now destruct (heston_price_col p).
Qed.

Lemma post_process_positive :
  forall df p,
    In p (post_process quad kappa theta rho v0 r_fixed df) ->
    real_market_price (base p) > 0.
Proof.
  intros df p Hin. unfold post_process in Hin.
  assert (Hprice := dropna_priced _ _ Hin).
  unfold dropna in Hin. apply filter_In in Hin. destruct Hin as [Hin _].
  unfold remove_outliers in Hin. apply filter_In in Hin.
  destruct Hin as [Hin _].
  destruct (Rle_lt_dec (real_market_price (base p)) 0) as [Hle | Hlt];
    [| exact Hlt].
  elim Hprice. exact (dampen_keeps_unpriced df p Hin Hle).
Qed.

End PipelineFacts.

Lemma filter_implied :
  forall (A : Type) (f g : A -> bool) (l : list A),
    (forall x, In x l -> g x = true -> f x = true) ->
    filter f (filter g l) = filter g l.
Proof.
  intros A f g l H. induction l as [| x t IH]; [reflexivity |].
  cbn [filter]. destruct (g x) eqn:Hg.
  - cbn [filter]. rewrite (H x (or_introl eq_refl) Hg). f_equal.
    apply IH. intros y Hy. apply H. now right.
  - apply IH. intros y Hy. apply H. now right.
Qed.

Lemma kept_row_has_price :
  forall threshold p,
    nan_ltb (error_heston p) threshold = true -> has_price p = true.
Proof.
  intros threshold p H. unfold error_heston, has_price in *.
  now destruct (heston_price_col p).
Qed.

Lemma dropna_remove_outliers :
  forall df, dropna (remove_outliers df) = remove_outliers df.
Proof.
  intro df. unfold dropna, remove_outliers. apply filter_implied.
  intros p _ H. exact (kept_row_has_price _ p H).
Qed.

Lemma outliers_drop_unpriced :
  forall df p,
    heston_price_col p = None -> ~ In p (remove_outliers df).
Proof.
  intros df p Hnone Hin. unfold remove_outliers in Hin.
  apply filter_In in Hin. destruct Hin as [_ H].
  unfold error_heston in H. rewrite Hnone in H. discriminate H.
Qed.

(** C10 (as amended).  In the pricing pass [heston_price] is called only on
    rows whose market price is strictly positive; a row whose market price is
    not positive gets no Heston price and keeps none through the damping
    step.  It is the outlier filter that removes it (its error is NaN, and
    NaN is not below the threshold); the final drop of unpriced rows then
    removes nothing, and no such row is in the returned set. *)
Theorem unquoted_rows_removed :
  forall quad kappa theta rho v0 r_fixed df,
    Forall (fun row => real_market_price row > 0)
           (snd (price_pass quad kappa theta rho v0 r_fixed df))
    /\ (forall p,
           In p (fst (price_pass quad kappa theta rho v0 r_fixed df)) ->
           real_market_price (base p) <= 0 -> heston_price_col p = None)
    /\ (forall p,
           In p (dampen (fst (price_pass quad kappa theta rho v0 r_fixed df))) ->
           real_market_price (base p) <= 0 ->
           heston_price_col p = None
           /\ ~ In p (remove_outliers
                        (dampen (fst (price_pass quad kappa theta rho v0
                                        r_fixed df)))))
    /\ dropna (remove_outliers
                 (dampen (fst (price_pass quad kappa theta rho v0 r_fixed df))))
       = remove_outliers
           (dampen (fst (price_pass quad kappa theta rho v0 r_fixed df)))
    /\ (forall p,
           In p (post_process quad kappa theta rho v0 r_fixed df) ->
           real_market_price (base p) > 0).
Proof.
  intros quad kappa theta rho v0 r_fixed df.
  split; [apply heston_called_on_positive_only |].
  split; [apply unquoted_rows_unpriced |].
  split; [| split; [apply dropna_remove_outliers | apply post_process_positive]].
  intros p Hin Hle.
  assert (Hnone := dampen_keeps_unpriced quad kappa theta rho v0 r_fixed df p
                     Hin Hle).
  split; [exact Hnone | now apply outliers_drop_unpriced].
Qed.

(** A worked pass: a null integrator makes [P1 = P2 = 1/2], and with
    [r_fixed = 0] the call struck at [90] on spot [100] is priced at [5]. *)
Module PipelineSample.

Import Samples PricedSamples.

Lemma sample_price :
  forall market,
    heston_price null_quad (spot_price (quoted market))
      (strike_price (quoted market)) (T_years (quoted market)) 0
      2 0.04 (implied_volatility (quoted market)) (-0.7) 0.04
      (option_type (quoted market))
    = Some 5.
Proof.
  intro market. cbn [quoted spot_price strike_price T_years implied_volatility
                     option_type].
  rewrite heston_price_call. f_equal.
  unfold probability, null_quad.
  replace (- (0 * 1)) with 0 by ring. rewrite exp_0.
  replace (100 * (1 / 2 + 1 / PI * 0) - 90 * 1 * (1 / 2 + 1 / PI * 0))
    with 5 by (generalize PI_neq0; intro; field; assumption).
  unfold Rmax. destruct (Rle_dec 5 0); lra.
Qed.

Lemma sample_pass :
  price_pass null_quad 2 0.04 (-0.7) 0.04 0 [quoted 4; quoted 2; unquoted]
  = ([near; far; dead_row], [quoted 4; quoted 2]).
Proof.
  cbn [price_pass]. unfold price_row.
  assert (H4 : Rgtb (real_market_price (quoted 4)) 0 = true)
    by (apply Rgtb_true; cbn; lra).
  assert (H2 : Rgtb (real_market_price (quoted 2)) 0 = true)
    by (apply Rgtb_true; cbn; lra).
  assert (H0 : Rgtb (real_market_price unquoted) 0 = false)
    by (apply Rgtb_false; cbn; lra).
  rewrite H4, H2, H0, !sample_price. reflexivity.
Qed.

Lemma sample_dampen : dampen [near; far; dead_row] = [near; far; dead_row].
Proof.
  unfold dampen. cbn [map]. unfold dampen_row.
  assert (Hn : Rgtb (strike_price (base near)) (spot_price (base near) * 1.5)
               = false) by (apply Rgtb_false; cbn; lra).
  assert (Hf : Rgtb (strike_price (base far)) (spot_price (base far) * 1.5)
               = false) by (apply Rgtb_false; cbn; lra).
  assert (Hd : Rgtb (strike_price (base dead_row))
                    (spot_price (base dead_row) * 1.5)
               = false) by (apply Rgtb_false; cbn; lra).
  rewrite Hn, Hf, Hd. reflexivity.
Qed.

Lemma sample_outliers : remove_outliers [near; far; dead_row] = [near].
Proof.
  unfold remove_outliers. cbn [map filter].
  rewrite near_error, far_error.
  change (error_heston dead_row) with (@None R).
  change (quantile 975 1000 [Some 1; Some 3; None])
    with (quantile 975 1000 [Some 1; Some 3]).
  rewrite pair_threshold. cbn [nan_ltb].
  assert (H1 : Rltb 1 2.95 = true) by (apply Rltb_true; lra).
  assert (H2 : Rltb 3 2.95 = false) by (apply Rltb_false; lra).
  now rewrite H1, H2.
Qed.

Lemma sample_post_process :
  post_process null_quad 2 0.04 (-0.7) 0.04 0 [quoted 4; quoted 2; unquoted]
  = [near].
Proof.
  unfold post_process. rewrite sample_pass. cbn [fst].
  rewrite sample_dampen, sample_outliers. reflexivity.
Qed.

End PipelineSample.

Lemma unquoted_rows_removed_witness :
  (heston_price_col Samples.dead_row = None
   /\ ~ In Samples.dead_row
          (remove_outliers [Samples.near; Samples.far; Samples.dead_row]))
  /\ real_market_price (base Samples.near) > 0.
Proof.
  destruct (unquoted_rows_removed Samples.null_quad 2 0.04 (-0.7) 0.04 0
              [Samples.quoted 4; Samples.quoted 2;
               Samples.unquoted])
    as (_ & _ & Hout & _ & Hpos).
  rewrite PipelineSample.sample_post_process in Hpos.
  rewrite PipelineSample.sample_pass in Hout. cbn [fst] in Hout.
  rewrite PipelineSample.sample_dampen in Hout.
  split.
  - apply Hout; [cbn; tauto | cbn; lra].
  - apply Hpos. cbn; tauto.
Defined.

(** On the sample pass the row without a market quote is still in the frame
    after the damping step and is gone after the outlier filter: the final
    drop receives [[near]] and returns it unchanged, so it is not the final
    drop that removes the row. *)
Lemma unquoted_rows_removed_counterexample :
  real_market_price (base Samples.dead_row) <= 0
  /\ In Samples.dead_row
        (dampen (fst (price_pass Samples.null_quad 2 0.04 (-0.7) 0.04 0
                        [Samples.quoted 4; Samples.quoted 2;
                         Samples.unquoted])))
  /\ remove_outliers
       (dampen (fst (price_pass Samples.null_quad 2 0.04 (-0.7) 0.04 0
                       [Samples.quoted 4; Samples.quoted 2;
                        Samples.unquoted])))
     = [Samples.near]
  /\ ~ In Samples.dead_row [Samples.near]
  /\ dropna [Samples.near] = [Samples.near].
Proof.
  rewrite PipelineSample.sample_pass. cbn [fst].
  rewrite PipelineSample.sample_dampen, PipelineSample.sample_outliers.
  split; [cbn; lra |].
  split; [cbn; tauto |].
  split; [reflexivity |].
  split.
  - intros [H | []]. discriminate H.
  - reflexivity.
Qed.

(** * Further properties of the pricers *)

(** ** Scaling spot and strike together *)

Lemma black_scholes_value_scale :
  forall lambda S K T r sigma option_type,
    0 < lambda -> 0 < K ->
    black_scholes_value (lambda * S) (lambda * K) T r sigma option_type
    = option_map (Rmult lambda) (black_scholes_value S K T r sigma option_type).
Proof.
  intros lambda S K T r sigma option_type Hl HK.
  assert (Hd1 : BlackScholesSpec.d1 (lambda * S) (lambda * K) T r sigma
                = BlackScholesSpec.d1 S K T r sigma).
  { unfold BlackScholesSpec.d1.
    replace (lambda * S / (lambda * K)) with (S / K) by (field; lra).
    reflexivity. }
  assert (Hd2 : BlackScholesSpec.d2 (lambda * S) (lambda * K) T r sigma
                = BlackScholesSpec.d2 S K T r sigma).
  { unfold BlackScholesSpec.d2. now rewrite Hd1. }
  unfold black_scholes_value, BlackScholesSpec.call, BlackScholesSpec.put.
  rewrite Hd1, Hd2.
  destruct ((option_type =? "put")%string
            && Rltb (NormalCdf.Phi (- BlackScholesSpec.d2 S K T r sigma)) 0.01).
  - cbn [option_map]. f_equal. ring.
  - destruct (option_type =? "call")%string; [cbn [option_map]; f_equal; ring |].
    destruct (option_type =? "put")%string; [cbn [option_map]; f_equal; ring |].
    reflexivity.
Qed.

(** X1.  The Black-Scholes price is homogeneous of degree one in spot and
    strike: multiplying both by [lambda > 0] multiplies the returned price by
    [lambda], and an input without a price stays without one. *)
Theorem black_scholes_homogeneous :
  forall lambda S K T r sigma option_type,
    0 < lambda ->
    exists v,
      black_scholes S K T r sigma option_type = Returned v
      /\ black_scholes (lambda * S) (lambda * K) T r sigma option_type
         = Returned (option_map (Rmult lambda) v).
Proof.
  intros lambda S K T r sigma option_type Hl.
  destruct (Rle_dec S 0) as [HS | HS].
  { exists None. split; apply black_scholes_invalid; left; [exact HS | nra]. }
  destruct (Rle_dec K 0) as [HK | HK].
  { exists None. split; apply black_scholes_invalid; right; left;
      [exact HK | nra]. }
  destruct (Rle_dec T 0) as [HT | HT].
  { exists None. split; apply black_scholes_invalid; tauto. }
  destruct (Rle_dec sigma 0) as [Hs | Hs].
  { exists None. split; apply black_scholes_invalid; tauto. }
  exists (black_scholes_value S K T r sigma option_type). split.
  - apply black_scholes_valid; lra.
  - rewrite black_scholes_valid; [| nra | nra | lra | lra].
    f_equal. apply black_scholes_value_scale; lra.
Qed.

Lemma black_scholes_homogeneous_witness :
  exists v,
    black_scholes 100 90 1 0.05 0.2 "call" = Returned v
    /\ black_scholes (1000 * 100) (1000 * 90) 1 0.05 0.2 "call"
       = Returned (option_map (Rmult 1000) v).
Proof.
  apply (black_scholes_homogeneous 1000 100 90 1 0.05 0.2 "call"). lra.
Defined.

(** ** The floor of the put

    The distribution function is differentiable with the Gaussian density as
    derivative, hence strictly increasing; the floor test
    [norm.cdf(-d2) < 0.01] is therefore a threshold on [d2]. *)

Lemma put_floor_test :
  forall z d, NormalCdf.Phi (- z) = 0.01 ->
    Rltb (NormalCdf.Phi (- d)) 0.01 = true <-> z < d.
Proof.
  intros z d Hz. rewrite Rltb_true, <- Hz, NormalCdfCalculus.Phi_lt_iff. lra.
Qed.

Lemma put_value_floored :
  forall S K T r sigma,
    Rltb (NormalCdf.Phi (- BlackScholesSpec.d2 S K T r sigma)) 0.01 = true ->
    black_scholes_value S K T r sigma "put" = Some 0.
Proof.
  intros S K T r sigma H. unfold black_scholes_value. rewrite H. reflexivity.
Qed.

Lemma put_value_closed_form :
  forall S K T r sigma,
    Rltb (NormalCdf.Phi (- BlackScholesSpec.d2 S K T r sigma)) 0.01 = false ->
    black_scholes_value S K T r sigma "put"
    = Some (BlackScholesSpec.put S K T r sigma).
Proof.
  intros S K T r sigma H. unfold black_scholes_value. rewrite H. reflexivity.
Qed.

(** X14.  The floor of the put is a threshold on [d2]: there is a constant
    [z] between [2.32] and [2.33] (the point with [Phi (- z) = 0.01]) such
    that, for valid inputs, the put is priced [0] when [d2 > z] and by the
    closed form when [d2 <= z]. *)
Theorem put_floor_threshold :
  exists z,
    58 / 25 < z < 233 / 100
    /\ forall S K T r sigma,
         0 < S -> 0 < K -> 0 < T -> 0 < sigma ->
         (z < BlackScholesSpec.d2 S K T r sigma ->
          black_scholes S K T r sigma "put" = Returned (Some 0))
         /\ (BlackScholesSpec.d2 S K T r sigma <= z ->
             black_scholes S K T r sigma "put"
             = Returned (Some (BlackScholesSpec.put S K T r sigma))).
Proof.
  destruct NormalCdfCalculus.one_percent_point as (z & Hz & Hphi).
  exists z. split; [exact Hz |].
  intros S K T r sigma HS HK HT Hsig.
  rewrite black_scholes_valid by assumption.
  split; intro Hd.
  - rewrite put_value_floored; [reflexivity |].
    now apply (put_floor_test z).
  - rewrite put_value_closed_form; [reflexivity |].
    destruct (Rltb _ 0.01) eqn:E; [| reflexivity].
    apply (put_floor_test z) in E; [lra | exact Hphi].
Qed.

Lemma put_floor_threshold_witness :
  black_scholes 100 100 4 0.26 0.2 "put" = Returned (Some 0)
  /\ black_scholes 100 100 1 0.02 0.2 "put"
     = Returned (Some (BlackScholesSpec.put 100 100 1 0.02 0.2)).
Proof.
  destruct put_floor_threshold as (z & Hz & H). split.
  - apply (H 100 100 4 0.26 0.2); try lra. rewrite Worked.deep_d2. lra.
  - apply (H 100 100 1 0.02 0.2); try lra. rewrite Worked.atm_d2. lra.
Defined.

Lemma d2_nonpositive :
  forall S K T r sigma,
    0 < S -> S <= K -> 0 < T -> 0 < sigma -> r <= sigma ^ 2 / 2 ->
    BlackScholesSpec.d2 S K T r sigma <= 0.
Proof.
  intros S K T r sigma HS HSK HT Hsig Hr.
  unfold BlackScholesSpec.d2, BlackScholesSpec.d1.
  assert (Hsq : 0 < sqrt T) by now apply sqrt_lt_R0.
  assert (Hden : 0 < sigma * sqrt T) by now apply Rmult_lt_0_compat.
  assert (Hln : ln (S / K) <= 0).
  { rewrite <- ln_1. destruct (Req_dec S K) as [-> | Hne].
    - right. f_equal. field. lra.
    - left. apply ln_increasing.
      + apply Rdiv_lt_0_compat; lra.
      + apply Rmult_lt_reg_r with K; [lra |].
        unfold Rdiv. rewrite Rmult_assoc, Rinv_l; lra. }
  assert (HT2 : sqrt T * sqrt T = T) by (apply sqrt_sqrt; lra).
  set (a := ln (S / K)) in *. set (q := sqrt T) in *.
  replace ((a + (r + sigma ^ 2 / 2) * T) / (sigma * q) - sigma * q)
    with ((a + (r - sigma ^ 2 / 2) * T) / (sigma * q)).
  2:{ rewrite <- HT2 at 2. rewrite <- HT2 at 1. field. split; lra. }
  assert (Hnum : a + (r - sigma ^ 2 / 2) * T <= 0) by nra.
  assert (Hinv : 0 < / (sigma * q)) by now apply Rinv_0_lt_compat.
  unfold Rdiv. clearbody a q. nra.
Qed.

(** X15.  A put struck at or above the spot is never floored when the rate
    does not exceed [sigma^2 / 2]: [black_scholes] returns the closed-form
    put, and the call minus the put is [S - K e^(-rT)]. *)
Theorem put_at_the_money_not_floored :
  forall S K T r sigma,
    0 < S -> S <= K -> 0 < T -> 0 < sigma -> r <= sigma ^ 2 / 2 ->
    black_scholes S K T r sigma "put"
    = Returned (Some (BlackScholesSpec.put S K T r sigma))
    /\ black_scholes S K T r sigma "call"
       = Returned (Some (BlackScholesSpec.call S K T r sigma))
    /\ BlackScholesSpec.call S K T r sigma - BlackScholesSpec.put S K T r sigma
       = S - K * exp (- (r * T)).
Proof.
  intros S K T r sigma HS HSK HT Hsig Hr.
  assert (Hd := d2_nonpositive S K T r sigma HS HSK HT Hsig Hr).
  rewrite !black_scholes_valid by lra.
  split; [| split].
  - rewrite put_value_closed_form; [reflexivity |].
    apply Rltb_false.
    apply Rle_trans with (NormalCdf.Phi 0).
    + rewrite Worked.Phi_0. lra.
    + apply NormalCdfCalculus.Phi_monotone. lra.
  - reflexivity.
  - apply closed_form_parity.
Qed.

Lemma put_at_the_money_not_floored_witness :
  black_scholes 100 120 1 0.045 0.6 "put"
  = Returned (Some (BlackScholesSpec.put 100 120 1 0.045 0.6))
  /\ black_scholes 100 120 1 0.045 0.6 "call"
     = Returned (Some (BlackScholesSpec.call 100 120 1 0.045 0.6))
  /\ BlackScholesSpec.call 100 120 1 0.045 0.6
     - BlackScholesSpec.put 100 120 1 0.045 0.6
     = 100 - 120 * exp (- (0.045 * 1)).
Proof.
  apply (put_at_the_money_not_floored 100 120 1 0.045 0.6); lra.
Defined.

(** ** Homogeneity of the Heston pricer *)

Lemma RtoC_plus : forall x y, RtoC (x + y) = (RtoC x + RtoC y)%C.
Proof. intros. unfold RtoC, Cadd; cbn [fst snd]. f_equal; ring. Qed.

Lemma Cexp_add : forall z w : C, Cexp (z + w)%C = (Cexp z * Cexp w)%C.
Proof.
  intros [a b] [c d]. unfold Cexp, Cadd, Cmul; cbn [fst snd].
  rewrite exp_plus, cos_plus, sin_plus. f_equal; ring.
Qed.

Lemma heston_cf_some_branch :
  forall j, exists br,
    forall phi S T r kappa theta sigma rho v0,
      heston_cf phi S T r kappa theta sigma rho v0 j
      = HestonSpec.phi phi S T r kappa theta sigma rho v0 br.
Proof.
  intro j. destruct (Z.eq_dec j 1) as [-> | Hne].
  - exists HestonSpec.Branch1. intros. apply heston_cf_branch. now left.
  - exists HestonSpec.Branch2. intros. apply heston_cf_branch. now right.
Qed.

Lemma integrand_scale :
  forall lambda phi S K T r kappa theta sigma rho v0 j,
    0 < lambda -> 0 < S -> 0 < K ->
    integrand phi (lambda * S) (lambda * K) T r kappa theta sigma rho v0 j
    = integrand phi S K T r kappa theta sigma rho v0 j.
Proof.
  intros lambda phi S K T r kappa theta sigma rho v0 j Hl HS HK.
  destruct (heston_cf_some_branch j) as [br Hbr].
  unfold integrand. rewrite !Hbr. unfold np_log.
  destruct (negb (Reqb phi 0)); [| reflexivity].
  f_equal. unfold Cdiv. f_equal. unfold HestonSpec.phi.
  rewrite !ln_mult by assumption. rewrite !RtoC_plus.
  rewrite <- !Cexp_add. f_equal. ring.
Qed.

Lemma py_max_scale :
  forall lambda x, 0 < lambda -> py_max (lambda * x) 0 = lambda * py_max x 0.
Proof.
  intros lambda x Hl. rewrite !py_max_Rmax. unfold Rmax.
  destruct (Rle_dec (lambda * x) 0), (Rle_dec x 0); nra.
Qed.

(** X2.  The Heston price is homogeneous of degree one in spot and strike:
    for positive spot and strike, multiplying both by [lambda > 0] leaves the
    two probabilities unchanged and multiplies the returned price by
    [lambda]. *)
Theorem heston_price_homogeneous :
  forall quad lambda S K T r kappa theta sigma rho v0 option_type,
    0 < lambda -> 0 < S -> 0 < K ->
    heston_price quad (lambda * S) (lambda * K) T r kappa theta sigma rho v0
      option_type
    = option_map (Rmult lambda)
        (heston_price quad S K T r kappa theta sigma rho v0 option_type).
Proof.
  intros quad lambda S K T r kappa theta sigma rho v0 option_type Hl HS HK.
  unfold heston_price.
  replace (fun phi => integrand phi (lambda * S) (lambda * K) T r kappa theta
                        sigma rho v0 1)
    with (fun phi => integrand phi S K T r kappa theta sigma rho v0 1)
    by (apply functional_extensionality; intro phi;
        symmetry; now apply integrand_scale).
  replace (fun phi => integrand phi (lambda * S) (lambda * K) T r kappa theta
                        sigma rho v0 2)
    with (fun phi => integrand phi S K T r kappa theta sigma rho v0 2)
    by (apply functional_extensionality; intro phi;
        symmetry; now apply integrand_scale).
  destruct (option_type =? "call")%string.
  - cbn [option_map]. f_equal. rewrite <- py_max_scale by assumption.
    f_equal. ring.
  - destruct (option_type =? "put")%string; [| reflexivity].
    cbn [option_map]. f_equal. rewrite <- py_max_scale by assumption.
    f_equal. ring.
Qed.

Lemma heston_price_homogeneous_witness :
  heston_price Samples.midpoint_quad (1000 * 100) (1000 * 90) 1 0.045
    2 0.04 0.5 (-0.7) 0.04 "put"
  = option_map (Rmult 1000)
      (heston_price Samples.midpoint_quad 100 90 1 0.045
         2 0.04 0.5 (-0.7) 0.04 "put").
Proof.
  apply (heston_price_homogeneous Samples.midpoint_quad 1000 100 90); lra.
Defined.

(** ** Put-call parity of the Heston pricer *)

(** X3.  When neither Heston price is clamped at zero, the call price minus
    the put price is [S - K e^(-rT)], whatever the integrator returns. *)
Theorem heston_put_call_parity :
  forall quad S K T r kappa theta sigma rho v0,
    let P1 := probability quad S K T r kappa theta sigma rho v0 HestonSpec.Branch1 in
    let P2 := probability quad S K T r kappa theta sigma rho v0 HestonSpec.Branch2 in
    0 <= S * P1 - K * exp (- (r * T)) * P2 ->
    0 <= K * exp (- (r * T)) * (1 - P2) - S * (1 - P1) ->
    exists c p,
      heston_price quad S K T r kappa theta sigma rho v0 "call" = Some c
      /\ heston_price quad S K T r kappa theta sigma rho v0 "put" = Some p
      /\ c - p = S - K * exp (- (r * T)).
Proof.
  intros quad S K T r kappa theta sigma rho v0 P1 P2 Hc Hp.
  rewrite heston_price_call, heston_price_put. fold P1 P2.
  eexists. eexists. split; [reflexivity |]. split; [reflexivity |].
  rewrite !Rmax_left by lra. ring.
Qed.

Lemma heston_put_call_parity_witness :
  exists c p,
    heston_price (fun _ _ _ => PI / 2) 100 90 1 0 2 0.04 0.5 (-0.7) 0.04 "call"
    = Some c
    /\ heston_price (fun _ _ _ => PI / 2) 100 90 1 0 2 0.04 0.5 (-0.7) 0.04 "put"
       = Some p
    /\ c - p = 100 - 90 * exp (- (0 * 1)).
Proof.
  assert (HP : forall br,
             probability (fun _ _ _ => PI / 2) 100 90 1 0 2 0.04 0.5 (-0.7) 0.04 br
             = 1).
  { intro br. unfold probability. generalize PI_neq0. intro. field. assumption. }
  assert (HE : exp (- (0 * 1)) = 1).
  { replace (- (0 * 1)) with 0 by ring. apply exp_0. }
  apply (heston_put_call_parity (fun _ _ _ => PI / 2) 100 90 1 0 2 0.04 0.5
           (-0.7) 0.04); rewrite !HP, HE; lra.
Defined.

(** ** The calibration objective: failure, sign, composition *)


(** X4.  [calibration_objective] returns a loss, and then a non-negative one,
    exactly when [heston_price] returns on every row and returns a price on
    every row with a strictly positive market price.  Otherwise it raises,
    and the first row that fails decides how: the exception of
    [heston_price] when pricing that row raises, whatever its market price,
    and [TypeError] (the subtraction of the market price from [None]) when
    that row has a positive market price and no price. *)
Theorem calibration_objective_outcome :
  forall quad nodes params data r_fixed,
    (Forall (priceable quad nodes params r_fixed) data ->
     exists total,
       0 <= total
       /\ calibration_objective quad nodes params data r_fixed
          = Returned total)
    /\ (~ Forall (priceable quad nodes params r_fixed) data ->
        exists e,
          calibration_objective quad nodes params data r_fixed = Raised e)
    /\ (forall before row after,
          data = before ++ row :: after ->
          Forall (priceable quad nodes params r_fixed) before ->
          (forall e,
              quote_price quad nodes params r_fixed row = Raised e ->
              calibration_objective quad nodes params data r_fixed
              = Raised e)
          /\ (quote_price quad nodes params r_fixed row = Returned None ->
              real_market_price row > 0 ->
              calibration_objective quad nodes params data r_fixed
              = Raised TypeError)).
Proof.
  intros quad nodes [[[kappa theta] rho] v0] data r_fixed.
  unfold calibration_objective. split; [| split].
  - intro Hall. now apply loop_returns.
  - intro Hnot. now apply loop_raises.
  - intros before row after -> Hbefore.
    destruct (loop_returns quad nodes kappa theta rho v0 r_fixed before 0
                Hbefore) as (total & _ & Hb).
    split.
    + intros e He. rewrite loop_app, Hb. cbn [bind].
      now apply loop_step_raised.
    + intros Hnone Hpos. rewrite loop_app, Hb. cbn [bind].
      now apply loop_step_unpriced.
Qed.

Lemma calibration_objective_outcome_witness :
  (exists total,
      0 <= total
      /\ calibration_objective Samples.midpoint_quad Samples.midpoint_nodes
           (2, 0.04, -0.7, 0.04) [Samples.traded_call; Samples.unquoted] 0.045
         = Returned total)
  /\ calibration_objective Samples.midpoint_quad Samples.midpoint_nodes
       (2, 0.04, -0.7, 0.04) [Samples.traded_call; Samples.zero_vol] 0.045
     = Raised ZeroDivisionError
  /\ calibration_objective Samples.midpoint_quad Samples.midpoint_nodes
       (2, 0.04, -0.7, 0.04) [Samples.traded_call; Samples.mislabelled]
       0.045
     = Raised TypeError.
Proof.
  split; [| split].
  - apply (calibration_objective_outcome Samples.midpoint_quad
             Samples.midpoint_nodes (2, 0.04, -0.7, 0.04)
             [Samples.traded_call; Samples.unquoted] 0.045).
    constructor; [exact MoreSamples.traded_call_priceable |].
    constructor; [exact MoreSamples.unquoted_priceable | constructor].
  - apply (calibration_objective_outcome Samples.midpoint_quad
             Samples.midpoint_nodes (2, 0.04, -0.7, 0.04)
             [Samples.traded_call; Samples.zero_vol] 0.045)
      with (before := [Samples.traded_call]) (row := Samples.zero_vol)
           (after := @nil quote).
    + reflexivity.
    + constructor; [exact MoreSamples.traded_call_priceable | constructor].
    + exact CalibrationSample.zero_vol_quote.
  - apply (calibration_objective_outcome Samples.midpoint_quad
             Samples.midpoint_nodes (2, 0.04, -0.7, 0.04)
             [Samples.traded_call; Samples.mislabelled] 0.045)
      with (before := [Samples.traded_call]) (row := Samples.mislabelled)
           (after := @nil quote).
    + reflexivity.
    + constructor; [exact MoreSamples.traded_call_priceable | constructor].
    + exact MoreSamples.mislabelled_quote.
    + cbn. lra.
Defined.

(** X5.  The loss is additive over concatenated quote sets: when both parts
    are priced, the objective of the whole is the sum of the objectives of
    the parts; when the first part raises, so does the whole. *)
Theorem calibration_objective_app :
  forall quad nodes params d1 d2 r_fixed,
    (forall e1 e2,
        calibration_objective quad nodes params d1 r_fixed = Returned e1 ->
        calibration_objective quad nodes params d2 r_fixed = Returned e2 ->
        calibration_objective quad nodes params (d1 ++ d2) r_fixed
        = Returned (e1 + e2))
    /\ (forall e,
           calibration_objective quad nodes params d1 r_fixed = Raised e ->
           calibration_objective quad nodes params (d1 ++ d2) r_fixed
           = Raised e).
Proof.
  intros quad nodes [[[kappa theta] rho] v0] d1 d2 r_fixed.
  unfold calibration_objective. split.
  - intros e1 e2 H1 H2. rewrite loop_app, H1. cbn [bind].
    rewrite (loop_shift quad nodes kappa theta rho v0 r_fixed d2 0 e1 e2 H2).
    f_equal. ring.
  - intros e H1. rewrite loop_app, H1. reflexivity.
Qed.

Lemma calibration_objective_app_witness :
  calibration_objective Samples.midpoint_quad Samples.midpoint_nodes
    (2, 0.04, -0.7, 0.04)
    ([Samples.traded_call; Samples.unquoted] ++ [Samples.unquoted]) 0.045
  = Returned (sum_list [((Samples.traded_call_price - 2) / 2) ^ 2] + 0)
  /\ calibration_objective Samples.midpoint_quad Samples.midpoint_nodes
       (2, 0.04, -0.7, 0.04)
       ([Samples.mislabelled] ++ [Samples.traded_call]) 0.045
     = Raised TypeError.
Proof.
  destruct (calibration_objective_app Samples.midpoint_quad
              Samples.midpoint_nodes (2, 0.04, -0.7, 0.04)
              [Samples.traded_call; Samples.unquoted]
              [Samples.unquoted] 0.045) as [Hsum _].
  destruct (calibration_objective_app Samples.midpoint_quad
              Samples.midpoint_nodes (2, 0.04, -0.7, 0.04)
              [Samples.mislabelled]
              [Samples.traded_call] 0.045) as [_ Hraise].
  split.
  - apply Hsum;
      [exact MoreSamples.sample_objective | exact MoreSamples.unquoted_objective].
  - apply Hraise. exact (MoreSamples.mislabelled_objective []).
Defined.

(** ** What the clean-up passes return *)

Lemma heston_price_some_inv :
  forall quad S K T r kappa theta sigma rho v0 kind h,
    heston_price quad S K T r kappa theta sigma rho v0 kind = Some h ->
    (kind = "call"%string \/ kind = "put"%string) /\ 0 <= h.
Proof.
  intros quad S K T r kappa theta sigma rho v0 kind h H.
  destruct (String.eqb_spec kind "call") as [-> | Hc].
  - rewrite heston_price_call in H. injection H as <-.
    split; [now left | apply Rmax_r].
  - destruct (String.eqb_spec kind "put") as [-> | Hp].
    + rewrite heston_price_put in H. injection H as <-.
      split; [now right | apply Rmax_r].
    + rewrite heston_price_unknown in H by assumption. discriminate.
Qed.

(** X6.  After outlier rejection the final drop of unpriced rows removes
    nothing: every row that survives the percentile filter already has a
    finite Heston price, so the result of the clean-up is the result of the
    outlier rejection. *)
Theorem final_drop_redundant :
  forall quad kappa theta rho v0 r_fixed df,
    dropna (remove_outliers (dampen (fst (price_pass quad kappa theta rho v0
                                            r_fixed df))))
    = remove_outliers (dampen (fst (price_pass quad kappa theta rho v0
                                      r_fixed df)))
    /\ post_process quad kappa theta rho v0 r_fixed df
       = remove_outliers (dampen (fst (price_pass quad kappa theta rho v0
                                         r_fixed df))).
Proof.
  intros. unfold post_process. split; apply dropna_remove_outliers.
Qed.

Lemma dampen_row_price :
  forall p0,
    heston_price_col (dampen_row p0)
    = option_map
        (fun h => if Rgtb (strike_price (base p0)) (spot_price (base p0) * 1.5)
                  then h * 0.95 else h)
        (heston_price_col p0).
Proof.
  intro p0. unfold dampen_row. cbn [heston_price_col].
  destruct (Rgtb _ _); destruct (heston_price_col p0); reflexivity.
Qed.

Lemma post_process_row_facts :
  forall quad kappa theta rho v0 r_fixed df p,
    In p (post_process quad kappa theta rho v0 r_fixed df) ->
    In (base p) df
    /\ real_market_price (base p) > 0
    /\ (option_type (base p) = "call"%string
        \/ option_type (base p) = "put"%string)
    /\ exists h,
         heston_price quad (spot_price (base p)) (strike_price (base p))
           (T_years (base p)) r_fixed kappa theta
           (implied_volatility (base p)) rho v0 (option_type (base p))
         = Some h
         /\ 0 <= h
         /\ heston_price_col p
            = Some (if Rgtb (strike_price (base p)) (spot_price (base p) * 1.5)
                    then h * 0.95 else h).
Proof.
  intros quad kappa theta rho v0 r_fixed df p Hin.
  unfold post_process in Hin. rewrite dropna_remove_outliers in Hin.
  unfold remove_outliers in Hin. apply filter_In in Hin.
  destruct Hin as [Hin Hkept]. apply kept_row_has_price in Hkept.
  unfold dampen in Hin. apply in_map_iff in Hin.
  destruct Hin as (p0 & <- & Hin0).
  rewrite price_pass_rows in Hin0. apply in_map_iff in Hin0.
  destruct Hin0 as (row & <- & Hrow).
  unfold has_price in Hkept. rewrite dampen_row_price in *.
  cbn [dampen_row base] in *.
  unfold price_row in *.
  destruct (Rgtb (real_market_price row) 0) eqn:Hpos;
    cbn [fst base heston_price_col option_map] in *; [| discriminate].
  apply Rgtb_true in Hpos.
  destruct (heston_price quad _ _ _ _ _ _ _ _ _ _) as [h |] eqn:Hh;
    cbn [option_map] in *; [| discriminate].
  destruct (heston_price_some_inv _ _ _ _ _ _ _ _ _ _ _ _ Hh) as [Hk H0].
  split; [exact Hrow |]. split; [exact Hpos |]. split; [exact Hk |].
  exists h. split; [reflexivity |]. split; [exact H0 | reflexivity].
Qed.

(** X7.  Every row returned by the clean-up comes from the input frame, has a
    strictly positive market price and a kind that is exactly ["call"] or
    ["put"], and carries the non-negative price [heston_price] computed for
    it, multiplied by [0.95] when the strike exceeds [1.5] times the spot and
    unchanged otherwise. *)
Theorem post_process_rows :
  forall quad kappa theta rho v0 r_fixed df p,
    In p (post_process quad kappa theta rho v0 r_fixed df) ->
    In (base p) df
    /\ real_market_price (base p) > 0
    /\ (option_type (base p) = "call"%string
        \/ option_type (base p) = "put"%string)
    /\ exists h,
         heston_price quad (spot_price (base p)) (strike_price (base p))
           (T_years (base p)) r_fixed kappa theta
           (implied_volatility (base p)) rho v0 (option_type (base p))
         = Some h
         /\ 0 <= h
         /\ heston_price_col p
            = Some (if Rgtb (strike_price (base p)) (spot_price (base p) * 1.5)
                    then h * 0.95 else h).
Proof. exact post_process_row_facts. Qed.

Lemma post_process_rows_witness :
  In (base Samples.near)
     [Samples.quoted 4; Samples.quoted 2; Samples.unquoted]
  /\ real_market_price (base Samples.near) > 0
  /\ (option_type (base Samples.near) = "call"%string
      \/ option_type (base Samples.near) = "put"%string)
  /\ exists h,
       heston_price Samples.null_quad (spot_price (base Samples.near))
         (strike_price (base Samples.near)) (T_years (base Samples.near)) 0
         2 0.04 (implied_volatility (base Samples.near)) (-0.7) 0.04
         (option_type (base Samples.near)) = Some h
       /\ 0 <= h
       /\ heston_price_col Samples.near
          = Some (if Rgtb (strike_price (base Samples.near))
                          (spot_price (base Samples.near) * 1.5)
                  then h * 0.95 else h).
Proof.
  apply (post_process_rows Samples.null_quad 2 0.04 (-0.7) 0.04 0
           [Samples.quoted 4; Samples.quoted 2; Samples.unquoted] Samples.near).
  rewrite PipelineSample.sample_post_process. now left.
Defined.

(** ** The percentile threshold *)

Lemma interpolation_between :
  forall a b f, a <= b -> 0 <= f <= 1 -> a <= a + (b - a) * f <= b.
Proof. intros a b f Hab [H0 H1]. split; nra. Qed.

(** The percentile lies between two values of the column. *)
Lemma quantile_range :
  forall num den col q,
    (0 < den)%nat -> (num <= den)%nat ->
    quantile num den col = Some q ->
    exists x y, In (Some x) col /\ In (Some y) col /\ x <= q <= y.
Proof.
  intros num den col q Hden Hnum Hq. rewrite quantile_interpolate in Hq.
  assert (Hsorted := sort_values_sorted (finite_values col)).
  assert (Hin : forall k,
             (k < List.length (sort_values (finite_values col)))%nat ->
             In (Some (nth k (sort_values (finite_values col)) 0)) col).
  { intros k Hk. apply finite_values_In, sort_values_In. now apply nth_In. }
  destruct (sort_values (finite_values col)) as [| v rest];
    [discriminate |].
  injection Hq as Hq. unfold interpolate in Hq.
  set (vals := v :: rest) in *. set (n := List.length vals) in *.
  assert (Hn : (0 < n)%nat) by (unfold n, vals; cbn; lia).
  set (h := (num * (n - 1))%nat) in *.
  assert (Hlo : (h / den < n)%nat).
  { apply Nat.Div0.div_lt_upper_bound. unfold h. nia. }
  set (lo := (h / den)%nat) in *.
  set (hi := Nat.min (lo + 1) (n - 1)) in *.
  assert (Hord : nth lo vals 0 <= nth hi vals 0).
  { apply strongly_sorted_nth; [exact Hsorted | fold n; unfold hi; lia]. }
  exists (nth lo vals 0), (nth hi vals 0).
  split; [apply Hin; lia |].
  split; [apply Hin; unfold hi; lia |].
  rewrite <- Hq. apply interpolation_between; [exact Hord |].
  now apply fraction_bounds.
Qed.

(** X8.  When all finite pricing errors in the frame are equal, outlier
    rejection returns an empty frame: the percentile is that common error
    and no row is strictly below it. *)
Theorem equal_errors_all_rejected :
  forall df e,
    (forall p, In p df -> error_heston p = Some e \/ error_heston p = None) ->
    remove_outliers df = [].
Proof.
  intros df e Hall.
  destruct (remove_outliers df) as [| p rest] eqn:Hout; [reflexivity |].
  exfalso.
  assert (Hp : In p (remove_outliers df)) by (rewrite Hout; now left).
  apply remove_outliers_In in Hp.
  destruct Hp as (Hin & e' & q & He' & Hq & Hlt).
  destruct (quantile_range 975 1000 _ q ltac:(lia) ltac:(lia) Hq)
    as (x & y & _ & Hy & _ & Hqy).
  apply in_map_iff in Hy. destruct Hy as (py & Hpy & Hiny).
  destruct (Hall p Hin) as [H1 | H1]; [| congruence].
  destruct (Hall py Hiny) as [H2 | H2]; [| congruence].
  assert (e' = e) by congruence. assert (y = e) by congruence. lra.
Qed.

Lemma equal_errors_all_rejected_witness :
  remove_outliers [Samples.near; Samples.near; Samples.dead_row] = [].
Proof.
  apply (equal_errors_all_rejected
           [Samples.near; Samples.near; Samples.dead_row] 1).
  intros p [<- | [<- | [<- | []]]].
  - left. exact PricedSamples.near_error.
  - left. exact PricedSamples.near_error.
  - right. reflexivity.
Defined.

Lemma sorted_perm_unique :
  forall l l',
    StronglySorted Rle l -> StronglySorted Rle l' -> Permutation l l' ->
    l = l'.
Proof.
  induction l as [| a t IH]; intros l' Hs Hs' Hp.
  - apply Permutation_nil in Hp. now subst.
  - destruct l' as [| b t'].
    + apply Permutation_sym, Permutation_nil in Hp. discriminate.
    + inversion Hs as [| ? ? Hst Ha]; subst.
      inversion Hs' as [| ? ? Hst' Hb]; subst.
      rewrite Forall_forall in Ha, Hb.
      assert (Hab : a = b).
      { assert (Hin_b : In b (a :: t)).
        { apply Permutation_in with (b :: t');
            [now apply Permutation_sym | now left]. }
        assert (Hin_a : In a (b :: t')).
        { apply Permutation_in with (a :: t); [exact Hp | now left]. }
        destruct Hin_b as [E | Hin_b]; [exact E |].
        destruct Hin_a as [E | Hin_a]; [now symmetry |].
        apply Rle_antisym; [now apply Ha | now apply Hb]. }
      subst b. f_equal. apply IH; try assumption.
      now apply Permutation_cons_inv with a.
Qed.

Lemma finite_values_perm :
  forall col col',
    Permutation col col' ->
    Permutation (finite_values col) (finite_values col').
Proof.
  intros col col' H. induction H as [| x l l' H IH | x y l | l l' l'' H1 IH1 H2 IH2].
  - apply Permutation_refl.
  - destruct x; cbn [finite_values]; [now apply perm_skip | exact IH].
  - destruct x, y; cbn [finite_values];
      try apply Permutation_refl. apply perm_swap.
  - now apply perm_trans with (finite_values l').
Qed.

Lemma sort_values_canonical :
  forall l l', Permutation l l' -> sort_values l = sort_values l'.
Proof.
  intros l l' H. apply sorted_perm_unique; try apply sort_values_sorted.
  apply perm_trans with l; [apply Permutation_sym, sort_values_perm |].
  apply perm_trans with l'; [exact H | apply sort_values_perm].
Qed.

Lemma quantile_perm :
  forall num den col col',
    Permutation col col' -> quantile num den col = quantile num den col'.
Proof.
  intros num den col col' H. rewrite !quantile_interpolate.
  now rewrite (sort_values_canonical _ _ (finite_values_perm _ _ H)).
Qed.

Lemma filter_perm :
  forall (A : Type) (f : A -> bool) (l l' : list A),
    Permutation l l' -> Permutation (filter f l) (filter f l').
Proof.
  intros A f l l' H. induction H as [| x l l' H IH | x y l | l l' l'' H1 IH1 H2 IH2];
    cbn [filter].
  - apply perm_nil.
  - destruct (f x); [now apply perm_skip | exact IH].
  - destruct (f x), (f y); try apply Permutation_refl. apply perm_swap.
  - now apply perm_trans with (filter f l').
Qed.

(** X9.  Outlier rejection does not depend on the order of the rows: the
    percentile threshold is the same for any reordering of the frame, and the
    surviving rows of a reordered frame are a reordering of the surviving
    rows. *)
Theorem outlier_rejection_order_independent :
  forall df df',
    Permutation df df' ->
    quantile 975 1000 (map error_heston df)
    = quantile 975 1000 (map error_heston df')
    /\ Permutation (remove_outliers df) (remove_outliers df').
Proof.
  intros df df' H.
  assert (Hq : quantile 975 1000 (map error_heston df)
               = quantile 975 1000 (map error_heston df')).
  { apply quantile_perm. now apply Permutation_map. }
  split; [exact Hq |].
  unfold remove_outliers. rewrite Hq. now apply filter_perm.
Qed.

Lemma outlier_rejection_order_independent_witness :
  quantile 975 1000 (map error_heston [Samples.near; Samples.far])
  = quantile 975 1000 (map error_heston [Samples.far; Samples.near])
  /\ Permutation (remove_outliers [Samples.near; Samples.far])
                 (remove_outliers [Samples.far; Samples.near]).
Proof.
  apply (outlier_rejection_order_independent
           [Samples.near; Samples.far] [Samples.far; Samples.near]).
  apply perm_swap.
Defined.

(** * The scripts around the pricers *)

(** ** Rows that reach the Heston calibration *)

Lemma fourteen_days :
  forall current_time row,
    time_to_expiry current_time row > 14 / 365
    <-> db_expiration_date row - current_time > 1209600.
Proof.
  intros current_time row. unfold time_to_expiry, seconds_per_year.
  replace (365 * 24 * 60 * 60) with 31536000 by lra.
  split; intro H; lra.
Qed.

Lemma dropna_quotes_In :
  forall current_time df q,
    In q (dropna_quotes current_time df) <->
    exists row, In row df /\ quote_of current_time row = Some q.
Proof.
  intros current_time df q. induction df as [| row rest IH].
  - cbn. split; [tauto | intros (row & [] & _)].
  - cbn [dropna_quotes]. destruct (quote_of current_time row) as [q0 |] eqn:Hq.
    + cbn [In]. rewrite IH. split.
      * intros [<- | (r0 & Hin & Hr0)].
        -- exists row. split; [now left | exact Hq].
        -- exists r0. split; [now right | exact Hr0].
      * intros (r0 & [<- | Hin] & Hr0).
        -- left. congruence.
        -- right. now exists r0.
    + rewrite IH. split.
      * intros (r0 & Hin & Hr0). exists r0. split; [now right | exact Hr0].
      * intros (r0 & [<- | Hin] & Hr0); [congruence |]. now exists r0.
Qed.

Lemma quote_of_fields :
  forall current_time row q,
    quote_of current_time row = Some q ->
    instrument_name q = db_instrument_name row
    /\ spot_price q = db_spot_price row
    /\ strike_price q = db_strike_price row
    /\ T_years q = time_to_expiry current_time row
    /\ option_type q = db_option_type row
    /\ db_real_market_price row = Some (real_market_price q)
    /\ db_implied_volatility row = Some (implied_volatility q).
Proof.
  intros current_time row q H. unfold quote_of in H.
  destruct (db_real_market_price row) as [m |]; [| discriminate].
  destruct (db_implied_volatility row) as [v |]; [| discriminate].
  injection H as <-. cbn. tauto.
Qed.

Lemma heston_prepare_In :
  forall current_time df q,
    In q (heston_prepare current_time df) <->
    exists row,
      In row df
      /\ quote_of current_time row = Some q
      /\ db_expiration_date row - current_time > 1209600
      /\ 0.4 * spot_price q < strike_price q < 2.5 * spot_price q.
Proof.
  intros current_time df q. unfold heston_prepare.
  rewrite filter_In, dropna_quotes_In. unfold in_moneyness_window.
  rewrite andb_true_iff, Rltb_true, Rgtb_true. split.
  - intros [(row & Hin & Hq) [Hhi Hlo]]. apply filter_In in Hin.
    destruct Hin as [Hin Hlate]. unfold expires_late in Hlate.
    apply Rgtb_true, fourteen_days in Hlate.
    exists row. repeat split; try assumption; lra.
  - intros (row & Hin & Hq & Hlate & Hlo & Hhi). split; [| split; lra].
    exists row. split; [| exact Hq]. apply filter_In. split; [exact Hin |].
    unfold expires_late. now apply Rgtb_true, fourteen_days.
Qed.

Lemma heston_prepare_positive :
  forall current_time df q,
    In q (heston_prepare current_time df) ->
    0 < spot_price q /\ 0 < strike_price q /\ 14 / 365 < T_years q.
Proof.
  intros current_time df q H. apply heston_prepare_In in H.
  destruct H as (row & _ & Hq & Hlate & Hlo & Hhi).
  destruct (quote_of_fields _ _ _ Hq) as (_ & _ & _ & HT & _).
  split; [lra |]. split; [lra |].
  rewrite HT. now apply fourteen_days.
Qed.

Module ScriptSamples.

(** Epoch seconds: the query runs at 1,700,000,000 and the option expires
    30 days later. *)
Definition listed : db_row :=
  {| db_instrument_name := "BTC-28MAR25-90-C";
     db_strike_price := 90;
     db_expiration_date := 1702592000;
     db_option_type := "call";
     db_symbol := "BTC";
     db_spot_price := 100;
     db_real_market_price := Some 4;
     db_implied_volatility := Some 0.5 |}.

Definition listed_quote : quote :=
  {| instrument_name := "BTC-28MAR25-90-C";
     spot_price := 100; strike_price := 90;
     T_years := time_to_expiry 1700000000 listed;
     option_type := "call";
     real_market_price := 4; implied_volatility := 0.5 |}.

Lemma listed_prepared :
  In listed_quote (heston_prepare 1700000000 [listed]).
Proof.
  apply heston_prepare_In. exists listed.
  split; [now left |]. split; [reflexivity |]. cbn. split; lra.
Qed.

End ScriptSamples.

(** X10.  A quote reaches the Heston calibration exactly when its row has
    both a market price and an implied volatility, expires more than 14 days
    (1,209,600 seconds) after the current time, and has its strike strictly
    between [0.4] and [2.5] times the spot; every such quote has a strictly
    positive spot, strike and time to expiry. *)
Theorem heston_prepare_rows :
  forall current_time df q,
    (In q (heston_prepare current_time df) <->
     exists row,
       In row df
       /\ quote_of current_time row = Some q
       /\ db_expiration_date row - current_time > 1209600
       /\ 0.4 * spot_price q < strike_price q < 2.5 * spot_price q)
    /\ (In q (heston_prepare current_time df) ->
        0 < spot_price q /\ 0 < strike_price q /\ 14 / 365 < T_years q).
Proof.
  intros current_time df q. split.
  - apply heston_prepare_In.
  - apply heston_prepare_positive.
Qed.

Lemma heston_prepare_rows_witness :
  0 < spot_price ScriptSamples.listed_quote
  /\ 0 < strike_price ScriptSamples.listed_quote
  /\ 14 / 365 < T_years ScriptSamples.listed_quote.
Proof.
  apply (heston_prepare_rows 1700000000 [ScriptSamples.listed]
           ScriptSamples.listed_quote).
  exact ScriptSamples.listed_prepared.
Defined.

(** ** The Heston frame written back to the database *)

Lemma heston_frame_row_facts :
  forall quad result current_time df p,
    In p (heston_frame quad result current_time df) ->
    (exists row, In row df /\ quote_of current_time row = Some (base p))
    /\ real_market_price (base p) > 0
    /\ 0 < spot_price (base p)
    /\ 0 < strike_price (base p)
    /\ 14 / 365 < T_years (base p)
    /\ (option_type (base p) = "call"%string
        \/ option_type (base p) = "put"%string)
    /\ exists price, heston_price_col p = Some price /\ 0 <= price.
Proof.
  intros quad result current_time df p Hin. unfold heston_frame in Hin.
  destruct (chosen_parameters result) as [[[kappa theta] rho] v0].
  destruct (post_process_row_facts _ _ _ _ _ _ _ _ Hin)
    as (Hbase & Hpos & Hkind & h & _ & Hh & Hprice).
  destruct (heston_prepare_positive _ _ _ Hbase) as (HS & HK & HT).
  apply heston_prepare_In in Hbase.
  destruct Hbase as (row & Hrow & Hq & _).
  split; [now exists row |].
  repeat (split; [assumption |]).
  rewrite Hprice. eexists. split; [reflexivity |].
  destruct (Rgtb _ _); lra.
Qed.

Module FrameSample.

Import ScriptSamples PricedSamples.

Definition full_quad (f : R -> R) (a b : R) : R := PI / 2.

Definition listed_put (market : R) : db_row :=
  {| db_instrument_name := "BTC-28MAR25-90-P";
     db_strike_price := 90;
     db_expiration_date := 1702592000;
     db_option_type := "put";
     db_symbol := "BTC";
     db_spot_price := 100;
     db_real_market_price := Some market;
     db_implied_volatility := Some 0.5 |}.

Definition put_quote (market : R) : quote :=
  {| instrument_name := "BTC-28MAR25-90-P";
     spot_price := 100; strike_price := 90;
     T_years := time_to_expiry 1700000000 (listed_put market);
     option_type := "put";
     real_market_price := market; implied_volatility := 0.5 |}.

Definition failed : OptimizeResult.optimize_result :=
  {| OptimizeResult.success := false;
     OptimizeResult.x := (3.0, 0.05, -0.6, 0.1) |}.

Definition priced_put (market : R) : priced :=
  {| base := put_quote market; heston_price_col := Some 0 |}.

Lemma prepared :
  heston_prepare 1700000000 [listed_put 1; listed_put 3]
  = [put_quote 1; put_quote 3].
Proof.
  unfold heston_prepare. cbn [filter].
  assert (H1 : expires_late 1700000000 (listed_put 1) = true).
  { apply Rgtb_true, fourteen_days. cbn. lra. }
  assert (H3 : expires_late 1700000000 (listed_put 3) = true).
  { apply Rgtb_true, fourteen_days. cbn. lra. }
  rewrite H1, H3.
  assert (Q : forall m, quote_of 1700000000 (listed_put m) = Some (put_quote m))
    by reflexivity.
  cbn [dropna_quotes]. rewrite !Q. cbn [filter].
  assert (W : forall m, in_moneyness_window (put_quote m) = true).
  { intro m. unfold in_moneyness_window. apply andb_true_iff. split.
    - apply Rltb_true. cbn. lra.
    - apply Rgtb_true. cbn. lra. }
  now rewrite !W.
Qed.

Lemma put_price :
  forall m,
    heston_price full_quad (spot_price (put_quote m)) (strike_price (put_quote m))
      (T_years (put_quote m)) 0.045 2.0 0.04 (implied_volatility (put_quote m))
      (-0.7) 0.04 (option_type (put_quote m))
    = Some 0.
Proof.
  intro m. cbn [put_quote spot_price strike_price T_years implied_volatility
                option_type].
  rewrite heston_price_put. f_equal.
  assert (HP : forall br S K T,
             probability full_quad S K T 0.045 2.0 0.04 0.5 (-0.7) 0.04 br = 1).
  { intros. unfold probability, full_quad.
    generalize PI_neq0. intro. field. assumption. }
  rewrite !HP. unfold Rmax. destruct (Rle_dec _ 0); lra.
Qed.

Lemma put_error : forall m, 0 <= m -> error_heston (priced_put m) = Some m.
Proof.
  intros m Hm. unfold error_heston, priced_put. cbn. f_equal.
  replace (0 - m) with (- m) by ring. rewrite Rabs_Ropp.
  now apply Rabs_pos_eq.
Qed.

Lemma frame :
  heston_frame full_quad failed 1700000000 [listed_put 1; listed_put 3]
  = [priced_put 1].
Proof.
  unfold heston_frame. cbn [chosen_parameters failed OptimizeResult.success].
  rewrite prepared. unfold post_process. cbn [price_pass]. unfold price_row.
  assert (M : forall m, 0 < m -> Rgtb (real_market_price (put_quote m)) 0 = true).
  { intros m Hm. apply Rgtb_true. cbn. lra. }
  rewrite !M by lra. rewrite !put_price. cbn [fst].
  fold (priced_put 1). fold (priced_put 3).
  assert (D : forall m, dampen_row (priced_put m) = priced_put m).
  { intro m. unfold dampen_row.
    assert (H : Rgtb (strike_price (base (priced_put m)))
                     (spot_price (base (priced_put m)) * 1.5) = false)
      by (apply Rgtb_false; cbn; lra).
    rewrite H. reflexivity. }
  unfold dampen. cbn [map]. rewrite !D.
  unfold remove_outliers. cbn [map filter].
  rewrite !put_error by lra. rewrite pair_threshold. cbn [nan_ltb].
  assert (H1 : Rltb 1 2.95 = true) by (apply Rltb_true; lra).
  assert (H2 : Rltb 3 2.95 = false) by (apply Rltb_false; lra).
  rewrite H1, H2. cbn [dropna filter has_price priced_put heston_price_col].
  reflexivity.
Qed.

End FrameSample.

(** X11.  Every row of the Heston frame written back to the database comes
    from a database row with both quotes present, has a strictly positive
    market price, spot and strike, more than 14 days to expiry, a kind that
    is exactly ["call"] or ["put"], and a finite, non-negative Heston
    price, whether the optimiser succeeded or the default parameters were
    used. *)
Theorem heston_frame_rows :
  forall quad result current_time df p,
    In p (heston_frame quad result current_time df) ->
    (exists row, In row df /\ quote_of current_time row = Some (base p))
    /\ real_market_price (base p) > 0
    /\ 0 < spot_price (base p)
    /\ 0 < strike_price (base p)
    /\ 14 / 365 < T_years (base p)
    /\ (option_type (base p) = "call"%string
        \/ option_type (base p) = "put"%string)
    /\ exists price, heston_price_col p = Some price /\ 0 <= price.
Proof. exact heston_frame_row_facts. Qed.

Lemma heston_frame_rows_witness :
  (exists row,
      In row [FrameSample.listed_put 1; FrameSample.listed_put 3]
      /\ quote_of 1700000000 row = Some (base (FrameSample.priced_put 1)))
  /\ real_market_price (base (FrameSample.priced_put 1)) > 0
  /\ 0 < spot_price (base (FrameSample.priced_put 1))
  /\ 0 < strike_price (base (FrameSample.priced_put 1))
  /\ 14 / 365 < T_years (base (FrameSample.priced_put 1))
  /\ (option_type (base (FrameSample.priced_put 1)) = "call"%string
      \/ option_type (base (FrameSample.priced_put 1)) = "put"%string)
  /\ exists price,
       heston_price_col (FrameSample.priced_put 1) = Some price /\ 0 <= price.
Proof.
  apply (heston_frame_rows FrameSample.full_quad FrameSample.failed 1700000000
           [FrameSample.listed_put 1; FrameSample.listed_put 3]
           (FrameSample.priced_put 1)).
  rewrite FrameSample.frame. now left.
Defined.

(** ** The Black-Scholes pricing run *)

Lemma try_except_returns :
  forall (A : Type) (body : outcome A) (handler : A),
    exists v, try_except body handler = Returned v.
Proof.
  intros A body handler. unfold try_except.
  destruct body as [a | e]; eexists; reflexivity.
Qed.

Lemma black_scholes_positive_price :
  forall S K T r sigma kind price,
    black_scholes S K T r sigma kind = Returned (Some price) <->
    0 < S /\ 0 < K /\ 0 < T /\ 0 < sigma
    /\ black_scholes_value S K T r sigma kind = Some price.
Proof.
  intros S K T r sigma kind price. split.
  - intro H.
    destruct (Rle_dec S 0) as [HS | HS];
      [rewrite black_scholes_invalid in H by tauto; discriminate |].
    destruct (Rle_dec K 0) as [HK | HK];
      [rewrite black_scholes_invalid in H by tauto; discriminate |].
    destruct (Rle_dec T 0) as [HT | HT];
      [rewrite black_scholes_invalid in H by tauto; discriminate |].
    destruct (Rle_dec sigma 0) as [Hs | Hs];
      [rewrite black_scholes_invalid in H by tauto; discriminate |].
    rewrite black_scholes_valid in H by lra. injection H as H.
    repeat split; try lra. exact H.
  - intros (HS & HK & HT & Hs & H).
    rewrite black_scholes_valid by assumption. now rewrite H.
Qed.

Lemma price_cell_returns :
  forall current_time entry,
    exists c, price_cell current_time entry = Returned c.
Proof.
  intros current_time [row sigma]. unfold price_cell, black_scholes_cell.
  destruct sigma as [s |].
  - unfold black_scholes.
    destruct (try_except_returns _ (black_scholes_body (db_spot_price row)
                (db_strike_price row) (time_to_expiry current_time row)
                0.045 s (db_option_type row)) None) as [v Hv].
    rewrite Hv. cbn [bind]. eexists; reflexivity.
  - destruct (_ || _); [eexists; reflexivity |].
    destruct (_ =? "call")%string; [eexists; reflexivity |].
    destruct (_ =? "put")%string; eexists; reflexivity.
Qed.

Lemma price_cell_num :
  forall current_time row sigma price,
    price_cell current_time (row, sigma) = Returned (Num price) <->
    exists s,
      sigma = Some s
      /\ black_scholes (db_spot_price row) (db_strike_price row)
           (time_to_expiry current_time row) 0.045 s (db_option_type row)
         = Returned (Some price).
Proof.
  intros current_time row sigma price. unfold price_cell, black_scholes_cell.
  split.
  - destruct sigma as [s |].
    + destruct (black_scholes _ _ _ _ s _) as [[v |] | e] eqn:E; cbn [bind];
        intro H; try discriminate.
      injection H as <-. exists s. split; [reflexivity | exact E].
    + destruct (_ || _); [discriminate |].
      destruct (_ =? "call")%string; [discriminate |].
      destruct (_ =? "put")%string; discriminate.
  - intros (s & -> & H). rewrite H. reflexivity.
Qed.

Lemma price_column_returns :
  forall current_time rows,
    exists cells,
      price_column current_time rows = Returned cells
      /\ Forall2 (fun entry c => price_cell current_time entry = Returned c)
                 rows cells.
Proof.
  intros current_time rows. induction rows as [| entry rest IH].
  - exists []. split; [reflexivity | constructor].
  - destruct (price_cell_returns current_time entry) as [c Hc].
    destruct IH as (cells & Hcol & Hall).
    exists (c :: cells). cbn [price_column]. rewrite Hc, Hcol. cbn [bind].
    split; [reflexivity | now constructor].
Qed.

Lemma price_column_inv :
  forall current_time rows cells,
    price_column current_time rows = Returned cells ->
    Forall2 (fun entry c => price_cell current_time entry = Returned c)
            rows cells.
Proof.
  intros current_time rows cells H.
  destruct (price_column_returns current_time rows) as (cells' & H' & Hall).
  congruence.
Qed.

Lemma updates_In :
  forall current_time rows cells name price,
    Forall2 (fun entry c => price_cell current_time entry = Returned c)
            rows cells ->
    (In (name, price) (updates rows cells) <->
     exists row sigma,
       In (row, sigma) rows
       /\ name = db_instrument_name row
       /\ price_cell current_time (row, sigma) = Returned (Num price)).
Proof.
  intros current_time rows cells name price H.
  induction H as [| [row sigma] c rows cells Hc Hall IH].
  - cbn. split; [tauto | intros (? & ? & [] & _)].
  - assert (Hrest :
      In (name, price) (updates rows cells) <->
      (exists row0 sigma0,
          In (row0, sigma0) rows /\ name = db_instrument_name row0
          /\ price_cell current_time (row0, sigma0) = Returned (Num price)))
      by exact IH.
    destruct c as [v | |]; cbn [updates In].
    + split.
      * intros [E | Hin].
        -- injection E as <- <-. exists row, sigma.
           split; [now left |]. split; [reflexivity | exact Hc].
        -- apply Hrest in Hin. destruct Hin as (r0 & s0 & Hin & Hn & Hp).
           exists r0, s0. split; [now right | split; assumption].
      * intros (r0 & s0 & [E | Hin] & Hn & Hp).
        -- injection E as <- <-. left. rewrite Hc in Hp.
           injection Hp as <-. now subst.
        -- right. apply Hrest. now exists r0, s0.
    + rewrite Hrest. split.
      * intros (r0 & s0 & Hin & Hn & Hp). exists r0, s0.
        split; [now right | split; assumption].
      * intros (r0 & s0 & [E | Hin] & Hn & Hp).
        -- injection E as <- <-. rewrite Hc in Hp. discriminate.
        -- now exists r0, s0.
    + rewrite Hrest. split.
      * intros (r0 & s0 & Hin & Hn & Hp). exists r0, s0.
        split; [now right | split; assumption].
      * intros (r0 & s0 & [E | Hin] & Hn & Hp).
        -- injection E as <- <-. rewrite Hc in Hp. discriminate.
        -- now exists r0, s0.
Qed.

Lemma black_scholes_rows_In :
  forall current_time df row sigma,
    In (row, sigma) (black_scholes_rows current_time df) <->
    In row df
    /\ db_expiration_date row - current_time > 1209600
    /\ db_strike_price row < 1.5 * db_spot_price row
    /\ sigma = fillna (median (map db_implied_volatility df))
                      (db_implied_volatility row).
Proof.
  intros current_time df row sigma. unfold black_scholes_rows.
  rewrite in_map_iff. split.
  - intros (r0 & E & Hin). injection E as <- <-.
    apply filter_In in Hin. destruct Hin as [Hin Hcap].
    apply filter_In in Hin. destruct Hin as [Hin Hlate].
    unfold strike_below_cap in Hcap. apply Rltb_true in Hcap.
    unfold expires_late in Hlate. apply Rgtb_true, fourteen_days in Hlate.
    tauto.
  - intros (Hin & Hlate & Hcap & ->). exists row. split; [reflexivity |].
    apply filter_In. split.
    + apply filter_In. split; [exact Hin |].
      unfold expires_late. now apply Rgtb_true, fourteen_days.
    + unfold strike_below_cap. now apply Rltb_true.
Qed.

Lemma black_scholes_script_completed :
  forall sample current_time df written,
    black_scholes_script sample current_time df = Completed written ->
    (100 <= List.length (black_scholes_rows current_time df))%nat
    /\ exists cells,
         price_column current_time (black_scholes_rows current_time df)
         = Returned cells
         /\ written = updates (black_scholes_rows current_time df) cells.
Proof.
  intros sample current_time df written H. unfold black_scholes_script in H.
  destruct df as [| r0 rest]; [discriminate |].
  destruct (price_column current_time _) as [cells | e] eqn:Hcol;
    [| discriminate].
  destruct (Nat.ltb_spec (List.length (black_scholes_rows current_time
                                         (r0 :: rest))) 100) as [Hlt | Hge];
    [discriminate |].
  destruct (log_loop _) as [u | e]; [| discriminate].
  destruct (forallb is_pynone cells); [discriminate |].
  injection H as <-. split; [exact Hge |]. now exists cells.
Qed.

Module RunSample.

Import ScriptSamples.

Definition listed_price : R :=
  BlackScholesSpec.call 100 90 (time_to_expiry 1700000000 listed) 0.045 0.5.

Lemma filter_repeat :
  forall (A : Type) (f : A -> bool) (a : A) (n : nat),
    f a = true -> filter f (repeat a n) = repeat a n.
Proof.
  intros A f a n H. induction n as [| k IH]; [reflexivity |].
  cbn [repeat filter]. now rewrite H, IH.
Qed.

Lemma listed_rows :
  forall n,
    black_scholes_rows 1700000000 (repeat listed n)
    = repeat (listed, Some 0.5) n.
Proof.
  intro n. unfold black_scholes_rows.
  rewrite !filter_repeat.
  - now rewrite map_repeat.
  - unfold strike_below_cap. apply Rltb_true. cbn. lra.
  - unfold expires_late. apply Rgtb_true, fourteen_days. cbn. lra.
Qed.

Lemma listed_expiry : 0 < time_to_expiry 1700000000 listed.
Proof.
  assert (H : time_to_expiry 1700000000 listed > 14 / 365)
    by (apply fourteen_days; cbn; lra).
  lra.
Qed.

Lemma listed_cell :
  price_cell 1700000000 (listed, Some 0.5) = Returned (Num listed_price).
Proof.
  apply price_cell_num. exists 0.5. split; [reflexivity |].
  apply black_scholes_positive_price. generalize listed_expiry. intro HT.
  repeat split; try exact HT; cbn; lra.
Qed.

Lemma listed_column :
  forall n,
    price_column 1700000000 (repeat (listed, Some 0.5) n)
    = Returned (repeat (Num listed_price) n).
Proof.
  induction n as [| k IH]; [reflexivity |].
  cbn [repeat price_column]. rewrite listed_cell, IH. reflexivity.
Qed.

Lemma listed_updates :
  forall n,
    updates (repeat (listed, Some 0.5) n) (repeat (Num listed_price) n)
    = repeat ("BTC-28MAR25-90-C"%string, listed_price) n.
Proof.
  induction n as [| k IH]; [reflexivity |].
  cbn [repeat updates]. now rewrite IH.
Qed.

Lemma listed_log :
  forall n, log_loop (repeat (listed, Some 0.5) n) = Returned tt.
Proof.
  induction n as [| k IH]; [reflexivity |].
  cbn [repeat log_loop log_row]. unfold py_div.
  assert (H : Reqb (db_strike_price listed) 0 = false)
    by (apply Reqb_false; cbn; lra).
  rewrite H. cbn [bind]. exact IH.
Qed.

Lemma hundred_rows_run :
  black_scholes_script (firstn 100) 1700000000 (repeat listed 100)
  = Completed (repeat ("BTC-28MAR25-90-C"%string, listed_price) 100).
Proof.
  unfold black_scholes_script.
  change (repeat listed 100) with (listed :: repeat listed 99) at 1.
  cbv beta iota.
  rewrite listed_rows, listed_column, repeat_length.
  rewrite firstn_all2 by (rewrite repeat_length; lia).
  rewrite listed_log, listed_updates.
  reflexivity.
Qed.

Lemma single_row_run :
  forall sample,
    black_scholes_script sample 1700000000 [listed] = Crashed ValueError.
Proof.
  intro sample. unfold black_scholes_script.
  change [listed] with (repeat listed 1).
  rewrite listed_rows, listed_column, repeat_length. reflexivity.
Qed.

End RunSample.

(** X12.  The Black-Scholes run writes nothing unless at least 100 rows pass
    its two filters: an empty query result ends the run, and with fewer than
    100 rows left the run stops with a [ValueError] (the draw of 100 sample
    rows for the log) before the database is touched.  A run that completes
    had at least 100 rows. *)
Theorem black_scholes_script_needs_100_rows :
  forall sample current_time df,
    (df = [] -> black_scholes_script sample current_time df = Exited)
    /\ (df <> [] ->
        (List.length (black_scholes_rows current_time df) < 100)%nat ->
        black_scholes_script sample current_time df
        = Crashed ValueError)
    /\ (forall written,
           black_scholes_script sample current_time df = Completed written ->
           (100 <= List.length (black_scholes_rows current_time df))%nat).
Proof.
  intros sample current_time df. split; [| split].
  - intros ->. reflexivity.
  - intros Hne Hlt. unfold black_scholes_script.
    destruct df as [| r0 rest]; [congruence |].
    destruct (price_column_returns current_time
                (black_scholes_rows current_time (r0 :: rest)))
      as (cells & Hcol & _).
    rewrite Hcol. apply Nat.ltb_lt in Hlt. now rewrite Hlt.
  - intros written H.
    now destruct (black_scholes_script_completed _ _ _ _ H).
Qed.

Lemma black_scholes_script_needs_100_rows_witness :
  black_scholes_script (firstn 100) 1700000000 [ScriptSamples.listed]
  = Crashed ValueError
  /\ (100 <= List.length
               (black_scholes_rows 1700000000
                  (repeat ScriptSamples.listed 100)))%nat.
Proof.
  destruct (black_scholes_script_needs_100_rows (firstn 100) 1700000000
              [ScriptSamples.listed]) as (_ & Hcrash & _).
  destruct (black_scholes_script_needs_100_rows (firstn 100) 1700000000
              (repeat ScriptSamples.listed 100)) as (_ & _ & Hdone).
  split.
  - apply Hcrash; [discriminate |].
    change [ScriptSamples.listed] with (repeat ScriptSamples.listed 1).
    rewrite RunSample.listed_rows, repeat_length. lia.
  - apply (Hdone _ RunSample.hundred_rows_run).
Defined.

(** X13.  When the Black-Scholes run completes, an instrument is updated
    with a price exactly when its row expires more than 14 days after the
    current time, has a strike below [1.5] times the spot, a strictly
    positive spot and strike, a strictly positive volatility (its own implied
    volatility, or the median of the available ones when its own is
    missing), and a kind that is exactly ["call"] or ["put"]; the price is
    the closed-form value, or [0] for a floored put. *)
Theorem black_scholes_script_updates :
  forall sample current_time df written,
    black_scholes_script sample current_time df = Completed written ->
    forall name price,
      In (name, price) written <->
      exists row sigma,
        In row df
        /\ name = db_instrument_name row
        /\ db_expiration_date row - current_time > 1209600
        /\ db_strike_price row < 1.5 * db_spot_price row
        /\ 0 < db_spot_price row
        /\ 0 < db_strike_price row
        /\ fillna (median (map db_implied_volatility df))
                  (db_implied_volatility row) = Some sigma
        /\ 0 < sigma
        /\ black_scholes_value (db_spot_price row) (db_strike_price row)
             (time_to_expiry current_time row) 0.045 sigma
             (db_option_type row) = Some price.
Proof.
  intros sample current_time df written H name price.
  destruct (black_scholes_script_completed _ _ _ _ H)
    as (_ & cells & Hcol & ->).
  rewrite (updates_In current_time _ _ name price
             (price_column_inv _ _ _ Hcol)).
  split.
  - intros (row & s & Hin & Hn & Hp).
    apply black_scholes_rows_In in Hin.
    destruct Hin as (Hin & Hlate & Hcap & Hs).
    apply price_cell_num in Hp. destruct Hp as (sigma & -> & Hbs).
    apply black_scholes_positive_price in Hbs.
    destruct Hbs as (HS & HK & _ & Hsig & Hv).
    exists row, sigma. repeat split; try assumption. now symmetry.
  - intros (row & sigma & Hin & Hn & Hlate & Hcap & HS & HK & Hfill & Hsig & Hv).
    exists row, (Some sigma). split.
    + apply black_scholes_rows_In. repeat split; try assumption.
      now symmetry.
    + split; [exact Hn |]. apply price_cell_num. exists sigma.
      split; [reflexivity |]. apply black_scholes_positive_price.
      repeat split; try assumption.
      apply fourteen_days in Hlate. lra.
Qed.

Lemma black_scholes_script_updates_witness :
  In ("BTC-28MAR25-90-C"%string, RunSample.listed_price)
     (repeat ("BTC-28MAR25-90-C"%string, RunSample.listed_price) 100) <->
  exists row sigma,
    In row (repeat ScriptSamples.listed 100)
    /\ "BTC-28MAR25-90-C"%string = db_instrument_name row
    /\ db_expiration_date row - 1700000000 > 1209600
    /\ db_strike_price row < 1.5 * db_spot_price row
    /\ 0 < db_spot_price row
    /\ 0 < db_strike_price row
    /\ fillna (median (map db_implied_volatility
                         (repeat ScriptSamples.listed 100)))
              (db_implied_volatility row) = Some sigma
    /\ 0 < sigma
    /\ black_scholes_value (db_spot_price row) (db_strike_price row)
         (time_to_expiry 1700000000 row) 0.045 sigma
         (db_option_type row) = Some RunSample.listed_price.
Proof.
  exact (black_scholes_script_updates (firstn 100) 1700000000
           (repeat ScriptSamples.listed 100) _ RunSample.hundred_rows_run
           "BTC-28MAR25-90-C"%string RunSample.listed_price).
Defined.

(** * The plotting scripts *)

Lemma vis_expiration_bounds :
  forall a, (1000 * vis_expiration a <= a < 1000 * vis_expiration a + 1000)%Z.
Proof.
  intro a. unfold vis_expiration.
  assert (H := Z.div_mod a 1000 ltac:(lia)).
  assert (H' := Z.mod_pos_bound a 1000 ltac:(lia)).
  lia.
Qed.

(** X16.  The expiry filter of the plotting scripts compares thousandths of
    the stored expiries with a tolerance of 10,800: a model row and a market
    row are matched whenever their stored expiries differ by at most
    10,800,000 (125 days when the stored unit is the second), and never when
    they differ by 10,801,000 or more. *)
Theorem expiry_tolerance_window :
  forall a b : Z,
    ((Z.abs (a - b) <= 10800000)%Z -> within_tolerance a b = true)
    /\ (within_tolerance a b = true -> (Z.abs (a - b) < 10801000)%Z).
Proof.
  intros a b.
  assert (Ha := vis_expiration_bounds a).
  assert (Hb := vis_expiration_bounds b).
  unfold within_tolerance, tolerance. rewrite Z.leb_le.
  split; intro H; lia.
Qed.

Lemma expiry_tolerance_window_witness :
  within_tolerance 1743148800 1745568000 = true
  /\ (Z.abs (1743148800 - 1745568000) < 10801000)%Z.
Proof.
  destruct (expiry_tolerance_window 1743148800 1745568000) as [Hin Hout].
  assert (H : within_tolerance 1743148800 1745568000 = true)
    by (apply Hin; vm_compute; discriminate).
  split; [exact H | exact (Hout H)].
Defined.
